(** * A deep-zoom (DZI) tile-pyramid generator and its diagnostic tool

    Shallow embedding of [n.py] (class [DZIGenerator]) and of
    [diganosis.py] (functions [diagnose_dzi], [check_original_image],
    [compare_dimensions]), followed by the properties of the
    specification that are decided on it.

    Conventions of the embedding.
    - Python integers are [Z].  [math.ceil (a / b)] and
      [math.ceil (math.log2 n)] are computed on exact integers; Python
      goes through binary64 floats, which agree with the exact value for
      every size an image can have (dimensions below 2^31).
    - Python exceptions are values of [exn]; a computation that can
      raise returns a [result].
    - Stateful code runs in the monad [M]: a computation threads the
      generator object ([self], whose [max_level] attribute is assigned
      during [generate]) and records everything it prints or does to the
      outside world, in order.  The outside world (Pillow, the file
      system) is an [Env] of oracles.
    - Paths follow [posixpath]. *)

From Stdlib Require Import ZArith List String Ascii Bool Lia.
From Stdlib Require Decimal DecimalString DecimalPos DecimalZ.
From Stdlib Require Sorted Permutation.
Import ListNotations.

Local Open Scope list_scope.
Local Open Scope string_scope.
Local Open Scope Z_scope.

(* ================================================================= *)
(** ** Python values, exceptions and arithmetic *)

Inductive exn : Type :=
| ZeroDivisionError
| ValueError
| TypeError
| IndexError
| AttributeError
| ParseError
| OverflowError
| OSError (detail : string)
| MemoryError.

Inductive result (A : Type) : Type :=
| Ok (a : A)
| Raise (e : exn).
Arguments Ok {A} a.
Arguments Raise {A} e.

Definition result_bind {A B} (r : result A) (k : A -> result B) : result B :=
  match r with
  | Ok a => k a
  | Raise e => Raise e
  end.

(** [math.ceil (a / b)] for integers [a], [b]: true division raises
    [ZeroDivisionError] on a zero divisor; otherwise the ceiling of the
    quotient is the negated floor of the negated quotient ([Z.div] is
    floor division for either sign of [b], as Python's [//]). *)
Definition ceil_div (a b : Z) : result Z :=
  if b =? 0 then Raise ZeroDivisionError else Ok (- ((- a) / b)).

(** [math.ceil (math.log2 n)]: [math.log2] raises [ValueError] (math
    domain error) when [n <= 0]. *)
Definition ceil_log2 (n : Z) : result Z :=
  if n <=? 0 then Raise ValueError else Ok (Z.log2_up n).

(** [2 ** e]: an integer power for [e >= 0], the float [1 / 2^(-e)]
    (exact in binary) for [e < 0]. *)
Inductive scale : Type :=
| ScaleInt (n : Z)
| ScaleInv (n : Z).

Definition pow2 (e : Z) : scale :=
  if 0 <=? e then ScaleInt (2 ^ e) else ScaleInv (2 ^ (- e)).

(** [math.ceil (x / s)] for a scale factor [s]. *)
Definition ceil_quot (x : Z) (s : scale) : result Z :=
  match s with
  | ScaleInt n => ceil_div x n
  | ScaleInv n => Ok (x * n)
  end.

(** [range(n)]. *)
Definition py_range (n : Z) : list Z :=
  map Z.of_nat (seq 0 (Z.to_nat n)).

(* ================================================================= *)
(** ** Strings *)

Definition dquote : ascii := Ascii false true false false false true false false.
Definition newline : ascii := Ascii false true false true false false false false.
Definition tab : ascii := Ascii true false false true false false false false.
Definition cr : ascii := Ascii true false true true false false false false.
Definition vtab : ascii := Ascii true true false true false false false false.
Definition formfeed : ascii := Ascii false false true true false false false false.

Definition chr (c : ascii) : string := String c EmptyString.
Definition dq : string := chr dquote.
Definition nl : string := chr newline.

Definition code (c : ascii) : N := N_of_ascii c.

Fixpoint string_forallb (p : ascii -> bool) (s : string) : bool :=
  match s with
  | EmptyString => true
  | String c r => p c && string_forallb p r
  end.

(** [str.lower] on ASCII letters. *)
Definition lower_char (c : ascii) : ascii :=
  if ((65 <=? code c) && (code c <=? 90))%N
  then ascii_of_N (code c + 32) else c.

Fixpoint lower (s : string) : string :=
  match s with
  | EmptyString => EmptyString
  | String c r => String (lower_char c) (lower r)
  end.

(** [str(n)] for an integer: decimal digits, ['-'] in front of a
    negative number. *)
Definition str (n : Z) : string :=
  DecimalString.NilZero.string_of_int (Z.to_int n).

(** [s.endswith(suffix)] and its mirror image. *)
Fixpoint starts_with (p s : string) : bool :=
  match p, s with
  | EmptyString, _ => true
  | String a p', String b s' => Ascii.eqb a b && starts_with p' s'
  | String _ _, EmptyString => false
  end.

Fixpoint string_rev_onto (s acc : string) : string :=
  match s with
  | EmptyString => acc
  | String c r => string_rev_onto r (String c acc)
  end.

Definition string_rev (s : string) : string := string_rev_onto s EmptyString.

Definition ends_with (suffix s : string) : bool :=
  starts_with (string_rev suffix) (string_rev s).

(** [s.replace(old, new)] for a non-empty [old]: every non-overlapping
    occurrence, scanning from the left.  [skip] counts the characters of
    an occurrence that remain to be dropped. *)
Fixpoint replace_from (old new : string) (skip : nat) (s : string) : string :=
  match s with
  | EmptyString => EmptyString
  | String c r =>
      match skip with
      | S k => replace_from old new k r
      | O =>
          if starts_with old s
          then new ++ replace_from old new (Nat.pred (String.length old)) r
          else String c (replace_from old new O r)
      end
  end.

Definition replace (old new s : string) : string := replace_from old new O s.

(** [os.path.join(a, b)] for a relative [b]. *)
Definition path_join (a b : string) : string :=
  match a with
  | EmptyString => b
  | _ => if ends_with "/" a then a ++ b else a ++ "/" ++ b
  end.

(** [os.path.basename(p)]: what follows the last ['/']. *)
Fixpoint basename_from (acc p : string) : string :=
  match p with
  | EmptyString => acc
  | String c r =>
      if Ascii.eqb c "/" then basename_from EmptyString r
      else basename_from (acc ++ chr c) r
  end.

Definition basename (p : string) : string := basename_from EmptyString p.

Definition mode_in (m : string) (allowed : list string) : bool :=
  existsb (String.eqb m) allowed.

(* ================================================================= *)
(** ** Pillow images

    An image is its mode, its size [(width, height)] and its pixel
    data; a pixel is the list of its band values (0..255).  The
    operations below are Pillow's, as far as the generator uses them:
    every one of them keeps or sets the mode and size the way Pillow
    does; the pixel data of a mode conversion and of a Lanczos resize
    are left to the environment. *)

Definition pixel : Type := list Z.

Record Image : Type := {
  mode : string;
  size : Z * Z;
  data : Z -> Z -> pixel
}.

(** [Image.new('RGB', size, (0, 0, 0))]. *)
Definition image_new_black (sz : Z * Z) : Image :=
  {| mode := "RGB"; size := sz; data := fun _ _ => [0; 0; 0] |}.

(** [img.split()[3]]: the fourth band as an ["L"] image. *)
Definition alpha_band (img : Image) : Image :=
  {| mode := "L"; size := size img;
     data := fun x y => [nth 3 (data img x y) 0] |}.

(** Pillow's 8-bit blend [out * (255 - mask) + in * mask], divided by
    255 with rounding ([DIV255] of libImaging). *)
Definition div255 (a : Z) : Z :=
  let tmp := a + 128 in Z.shiftr (Z.shiftr tmp 8 + tmp) 8.

Definition blend8 (mask out inp : Z) : Z :=
  div255 (out * (255 - mask) + inp * mask).

(** [background.paste(img, mask=m)] at the origin, for a background and
    a mask of the size of [img]: every band of the background is blended
    with the same band of [img], weighted by the mask. *)
Definition paste_masked (background img m : Image) : Image :=
  {| mode := mode background; size := size background;
     data := fun x y =>
       let a := nth 0 (data m x y) 0 in
       map (fun bi => blend8 a (fst bi) (snd bi))
           (combine (data background x y) (data img x y)) |}.

(** [img.crop((x1, y1, x2, y2))]: the image that the call returns, and
    the call, which raises [ValueError] when the right edge is left of
    the left edge or the lower edge above the upper one. *)
Definition cropped (img : Image) (box : Z * Z * Z * Z) : Image :=
  let '(x1, y1, x2, y2) := box in
  {| mode := mode img; size := (x2 - x1, y2 - y1);
     data := fun x y => data img (x1 + x) (y1 + y) |}.

Definition crop (img : Image) (box : Z * Z * Z * Z) : result Image :=
  let '(x1, y1, x2, y2) := box in
  if x2 <? x1 then Raise ValueError
  else if y2 <? y1 then Raise ValueError
  else Ok (cropped img box).

(* ================================================================= *)
(** ** The outside world and the log of a run *)

Inductive encoder : Type :=
| JPEG (quality : Z)      (* save(path, 'JPEG', quality=..., optimize=True) *)
| PNG                     (* save(path, 'PNG', optimize=True) *)
| ByExtension.            (* save(path) *)

(** Calls that leave the interpreter and may raise. *)
Inductive action : Type :=
| Convert (from_mode to_mode : string)          (* img.convert(mode) *)
| Composite (sz : Z * Z)                        (* Image.new + paste(mask) *)
| MakeDirs (path : string)                      (* os.makedirs(exist_ok=True) *)
| Resize (w h : Z)                              (* img.resize(..., LANCZOS) *)
| SaveTile (path : string) (tile : Image) (enc : encoder)
| WriteText (path : string) (content : string). (* open(path,'w').write *)

Inductive message : Type :=
| MsgRule
| MsgTitle
| MsgOpening (path : string)
| MsgOpenError (e : exn)
| MsgImageSize (w h : Z)
| MsgMode (m : string)
| MsgConverting (m : string)
| MsgCompositing
| MsgMaxLevel (l : Z)
| MsgGenerating (n l : Z)
| MsgTileSize (t : Z)
| MsgOverlap (o : Z)
| MsgLevel (level lw lh cols rows total : Z)
| MsgProgress (processed total : Z)
| MsgNewline
| MsgDescriptor (path : string)
| MsgComplete
| MsgTime
| MsgTotalTiles (n : Z)
| MsgDziFile (path : string)
| MsgTilesDir (path : string).

Inductive event : Type :=
| Print (m : message)
| Did (a : action)
| Failed (a : action) (e : exn).

Record Env : Type := {
  (** [Image.open(path)] *)
  image_open : string -> result Image;
  (** pixel data of [img.convert(to)] *)
  convert_data : Image -> string -> Z -> Z -> pixel;
  (** pixel data of [img.resize((w, h), LANCZOS)] *)
  resample : Image -> Z -> Z -> Z -> Z -> pixel;
  (** whether a call raises, given everything that happened before it *)
  fault : list event -> action -> option exn
}.

(* ================================================================= *)
(** ** The generator object and the monad of a run *)

Record DZIGenerator : Type := {
  image_path : string;
  output_name : string;
  tile_size : Z;
  overlap : Z;
  format : string;
  quality : Z;
  dzi_file : string;
  tiles_dir : string;
  max_level : Z
}.

Definition __init__ (image_path output_name : string) (tile_size overlap : Z)
    (format : string) (quality : Z) : DZIGenerator :=
  {| image_path := image_path;
     output_name := output_name;
     tile_size := tile_size;
     overlap := overlap;
     format := lower format;
     quality := quality;
     dzi_file := output_name ++ ".dzi";
     tiles_dir := output_name ++ "_files";
     max_level := 0 |}.

Definition set_max_level (g : DZIGenerator) (l : Z) : DZIGenerator :=
  {| image_path := image_path g;
     output_name := output_name g;
     tile_size := tile_size g;
     overlap := overlap g;
     format := format g;
     quality := quality g;
     dzi_file := dzi_file g;
     tiles_dir := tiles_dir g;
     max_level := l |}.

(** The outcome of a computation: its value or the exception it
    raised, the generator object afterwards, and what it did to the
    outside world, in order. *)
Record outcome (A : Type) : Type := {
  value : result A;
  self_after : DZIGenerator;
  events : list event
}.
Arguments value {A} o.
Arguments self_after {A} o.
Arguments events {A} o.

(** A computation starts from the generator object and from the history
    of the run so far. *)
Definition M (A : Type) : Type := DZIGenerator -> list event -> outcome A.

Definition ret {A} (a : A) : M A :=
  fun g _ => {| value := Ok a; self_after := g; events := [] |}.

Definition bind {A B} (m : M A) (k : A -> M B) : M B :=
  fun g h =>
    let o := m g h in
    match value o with
    | Ok a =>
        let o' := k a (self_after o) (h ++ events o)%list in
        {| value := value o'; self_after := self_after o';
           events := (events o ++ events o')%list |}
    | Raise e =>
        {| value := Raise e; self_after := self_after o; events := events o |}
    end.

Notation "x <- m ;; k" := (bind m (fun x => k))
  (at level 61, m at next level, right associativity).
Notation "m ;;; k" := (bind m (fun _ => k))
  (at level 61, right associativity).

Definition get_self : M DZIGenerator :=
  fun g _ => {| value := Ok g; self_after := g; events := [] |}.

Definition assign_max_level (l : Z) : M unit :=
  fun g _ => {| value := Ok tt; self_after := set_max_level g l; events := [] |}.

Definition lift {A} (r : result A) : M A :=
  fun g _ => {| value := r; self_after := g; events := [] |}.

Definition print (m : message) : M unit :=
  fun g _ => {| value := Ok tt; self_after := g; events := [Print m] |}.

(** An outside call: the environment decides, from the history of the
    run, whether it raises; either way the attempt is recorded. *)
Definition perform (env : Env) (a : action) : M unit :=
  fun g h =>
    match fault env h a with
    | Some e => {| value := Raise e; self_after := g; events := [Failed a e] |}
    | None => {| value := Ok tt; self_after := g; events := [Did a] |}
    end.

(** [for x in l: acc = body(acc, x)]. *)
Fixpoint for_each {A B} (l : list A) (body : B -> A -> M B) (acc : B) : M B :=
  match l with
  | [] => ret acc
  | x :: r => acc' <- body acc x ;; for_each r body acc'
  end.

(* ================================================================= *)
(** ** [DZIGenerator] *)

(** The crop box of [_save_tile], before and after clamping. *)
Definition crop_box (g : DZIGenerator) (col row : Z) : Z * Z * Z * Z :=
  let x1_content := col * tile_size g in
  let y1_content := row * tile_size g in
  let x1_crop := x1_content - overlap g in
  let y1_crop := y1_content - overlap g in
  let x2_crop := x1_content + tile_size g + overlap g in
  let y2_crop := y1_content + tile_size g + overlap g in
  (x1_crop, y1_crop, x2_crop, y2_crop).

Definition clamp_box (box : Z * Z * Z * Z) (level_width level_height : Z)
    : Z * Z * Z * Z :=
  let '(x1_crop, y1_crop, x2_crop, y2_crop) := box in
  let x1_clamped := Z.max 0 x1_crop in
  let y1_clamped := Z.max 0 y1_crop in
  let x2_clamped := Z.min level_width x2_crop in
  let y2_clamped := Z.min level_height y2_crop in
  (x1_clamped, y1_clamped, x2_clamped, y2_clamped).

(** The image that [img.convert(to)] returns, and the call. *)
Definition converted (env : Env) (img : Image) (to : string) : Image :=
  {| mode := to; size := size img; data := convert_data env img to |}.

Definition convert (env : Env) (img : Image) (to : string) : M Image :=
  perform env (Convert (mode img) to) ;;;
  ret (converted env img to).

Definition tile_filename (g : DZIGenerator) (col row : Z) : string :=
  str col ++ "_" ++ str row ++ "." ++ format g.

(** [_save_tile]: extract and save one tile, clamping the crop box to
    the bounds of the level. *)
Definition _save_tile (env : Env) (img : Image) (level_dir : string)
    (col row level_width level_height : Z) : M unit :=
  g <- get_self ;;
  tile <- lift (crop img (clamp_box (crop_box g col row) level_width
                           level_height)) ;;
  let tile_path := path_join level_dir (tile_filename g col row) in
  if String.eqb (format g) "jpeg" then
    tile <- (if negb (mode_in (mode tile) ["RGB"; "L"])
             then convert env tile "RGB" else ret tile) ;;
    perform env (SaveTile tile_path tile (JPEG (quality g)))
  else if String.eqb (format g) "png" then
    perform env (SaveTile tile_path tile PNG)
  else
    perform env (SaveTile tile_path tile ByExtension).

(** The body of the two nested loops of [_generate_level]; the
    accumulator is [processed_tiles]. *)
Definition tile_step (env : Env) (level_img : Image) (level_dir : string)
    (level_width level_height total_tiles_in_level row : Z)
    (processed_tiles col : Z) : M Z :=
  _save_tile env level_img level_dir col row level_width level_height ;;;
  let processed_tiles := processed_tiles + 1 in
  (if (processed_tiles mod 50 =? 0) || (processed_tiles =? total_tiles_in_level)
   then print (MsgProgress processed_tiles total_tiles_in_level)
   else ret tt) ;;;
  ret processed_tiles.

(** The nested loops of [_generate_level]: rows outside, columns
    inside. *)
Definition tile_loop (env : Env) (level_img : Image) (level_dir : string)
    (level_width level_height cols rows : Z) : M Z :=
  for_each (py_range rows)
    (fun processed_tiles row =>
       for_each (py_range cols)
         (tile_step env level_img level_dir level_width level_height
            (cols * rows) row)
         processed_tiles)
    0.

(** The image that [img.resize((w, h), Image.Resampling.LANCZOS)]
    returns, and the call. *)
Definition resized (env : Env) (img : Image) (w h : Z) : Image :=
  {| mode := mode img; size := (w, h); data := resample env img w h |}.

Definition resize (env : Env) (img : Image) (w h : Z) : M Image :=
  perform env (Resize w h) ;;;
  ret (resized env img w h).

(** [_generate_level]: all tiles of one zoom level; returns their
    number. *)
Definition _generate_level (env : Env) (original_img : Image)
    (level orig_width orig_height : Z) : M Z :=
  g <- get_self ;;
  let scale_factor := pow2 (max_level g - level) in
  level_width <- lift (ceil_quot orig_width scale_factor) ;;
  level_height <- lift (ceil_quot orig_height scale_factor) ;;
  level_img <- (if level =? max_level g then ret original_img
                else resize env original_img level_width level_height) ;;
  cols <- lift (ceil_div level_width (tile_size g)) ;;
  rows <- lift (ceil_div level_height (tile_size g)) ;;
  let total_tiles_in_level := cols * rows in
  print (MsgLevel level level_width level_height cols rows
           total_tiles_in_level) ;;;
  let level_dir := path_join (tiles_dir g) (str level) in
  perform env (MakeDirs level_dir) ;;;
  tile_loop env level_img level_dir level_width level_height cols rows ;;;
  (if 0 <? total_tiles_in_level then print MsgNewline else ret tt) ;;;
  ret total_tiles_in_level.

(** The text of the descriptor, as the f-string of
    [_create_dzi_descriptor] builds it. *)
Definition dzi_content (fmt : string) (ovl tsize height width : Z)
    (tiles_dir_name : string) : string :=
  "<?xml version=" ++ dq ++ "1.0" ++ dq ++ " encoding=" ++ dq ++ "UTF-8"
    ++ dq ++ "?>" ++ nl ++
  "<Image xmlns=" ++ dq ++ "http://schemas.microsoft.com/deepzoom/2008"
    ++ dq ++ nl ++
  "       Format=" ++ dq ++ fmt ++ dq ++ nl ++
  "       Overlap=" ++ dq ++ str ovl ++ dq ++ nl ++
  "       TileSize=" ++ dq ++ str tsize ++ dq ++ ">" ++ nl ++
  "    <Size Height=" ++ dq ++ str height ++ dq ++ " Width=" ++ dq
    ++ str width ++ dq ++ "/>" ++ nl ++
  "    <Sources>" ++ nl ++
  "        <TileGroup Url=" ++ dq ++ tiles_dir_name ++ "/" ++ dq ++ " />" ++ nl ++
  "    </Sources>" ++ nl ++
  "</Image>".

Definition _create_dzi_descriptor (env : Env) (width height : Z) : M unit :=
  g <- get_self ;;
  let tiles_dir_name := basename (tiles_dir g) in
  let content :=
    dzi_content (format g) (overlap g) (tile_size g) height width
      tiles_dir_name in
  perform env (WriteText (dzi_file g) content) ;;;
  print (MsgDescriptor (dzi_file g)).

(** An RGBA image pasted on a black background of its size, with its
    own alpha band as the mask. *)
Definition composited (img : Image) : Image :=
  let background := image_new_black (size img) in
  paste_masked background img (alpha_band img).

(** The colour-mode normalisation at the start of [generate]. *)
Definition normalise (env : Env) (img : Image) : M Image :=
  if negb (mode_in (mode img) ["RGB"; "RGBA"; "L"]) then
    print (MsgConverting (mode img)) ;;;
    convert env img "RGB"
  else if String.eqb (mode img) "RGBA" then
    print MsgCompositing ;;;
    perform env (Composite (size img)) ;;;
    ret (composited img)
  else ret img.

(** The loop of [generate] over the levels, from the coarsest (0) to
    full resolution ([max_level]); the accumulator is [total_tiles]. *)
Definition level_loop (env : Env) (img : Image) (width height : Z) : M Z :=
  g <- get_self ;;
  for_each (py_range (max_level g + 1))
    (fun total_tiles level =>
       tiles_in_level <- _generate_level env img level width height ;;
       ret (total_tiles + tiles_in_level))
    0.

(** What [generate] does once the image is open. *)
Definition generate_opened (env : Env) (img : Image) : M bool :=
  let '(width, height) := size img in
  print (MsgImageSize width height) ;;;
  print (MsgMode (mode img)) ;;;
  img <- normalise env img ;;
  let max_dimension := Z.max width height in
  l <- lift (ceil_log2 max_dimension) ;;
  assign_max_level l ;;;
  g <- get_self ;;
  print (MsgMaxLevel (max_level g)) ;;;
  print (MsgGenerating (max_level g + 1) (max_level g)) ;;;
  print (MsgTileSize (tile_size g)) ;;;
  print (MsgOverlap (overlap g)) ;;;
  perform env (MakeDirs (tiles_dir g)) ;;;
  total_tiles <- level_loop env img width height ;;
  _create_dzi_descriptor env width height ;;;
  print MsgRule ;;; print MsgComplete ;;; print MsgTime ;;;
  print (MsgTotalTiles total_tiles) ;;;
  print (MsgDziFile (dzi_file g)) ;;;
  print (MsgTilesDir (tiles_dir g)) ;;;
  print MsgRule ;;;
  ret true.

(** [generate]: the whole conversion.  The calls of [time.time] only
    feed the elapsed time that is printed at the end. *)
Definition generate (env : Env) : M bool :=
  print MsgRule ;;; print MsgTitle ;;; print MsgRule ;;;
  g <- get_self ;;
  print (MsgOpening (image_path g)) ;;;
  match image_open env (image_path g) with
  | Raise e => print (MsgOpenError e) ;;; ret false
  | Ok img => generate_opened env img
  end.

(** Running [generate] on a generator object, at the start of a
    program. *)
Definition run_generate (env : Env) (g : DZIGenerator) : outcome bool :=
  generate env g [].

(* ================================================================= *)
(** ** [int(s)] on a string *)

(** Python's white space, as [str.strip] and [int] see it (ASCII). *)
Definition is_py_space (c : ascii) : bool :=
  (((9 <=? code c) && (code c <=? 13)) ||
   ((28 <=? code c) && (code c <=? 32)))%N.

Definition digit_value (c : ascii) : option Z :=
  if ((48 <=? code c) && (code c <=? 57))%N
  then Some (Z.of_N (code c) - 48) else None.

Fixpoint lstrip (s : string) : string :=
  match s with
  | EmptyString => EmptyString
  | String c r => if is_py_space c then lstrip r else s
  end.

Fixpoint rstrip (s : string) : string :=
  match s with
  | EmptyString => EmptyString
  | String c r =>
      match rstrip r with
      | EmptyString => if is_py_space c then EmptyString else chr c
      | r' => String c r'
      end
  end.

Definition strip (s : string) : string := rstrip (lstrip s).

(** Digits with single underscores between them. *)
Inductive digit_state : Type := NoDigit | AfterDigit | AfterUnderscore.

Fixpoint int_digits (acc : Z) (st : digit_state) (s : string) : option Z :=
  match s with
  | EmptyString =>
      match st with
      | AfterDigit => Some acc
      | _ => None
      end
  | String c r =>
      match digit_value c with
      | Some d => int_digits (10 * acc + d) AfterDigit r
      | None =>
          if Ascii.eqb c "_" then
            match st with
            | AfterDigit => int_digits acc AfterUnderscore r
            | _ => None
            end
          else None
      end
  end.

Definition int_literal (s : string) : option Z :=
  match s with
  | String c r =>
      if Ascii.eqb c "-" then option_map Z.opp (int_digits 0 NoDigit r)
      else if Ascii.eqb c "+" then int_digits 0 NoDigit r
      else int_digits 0 NoDigit s
  | EmptyString => None
  end.

(** [int(s)] for a string: [ValueError] on anything but an optionally
    signed decimal literal surrounded by white space. *)
Definition py_int (s : string) : result Z :=
  match int_literal (strip s) with
  | Some n => Ok n
  | None => Raise ValueError
  end.

(** [int(v)] where [v] is what [Element.get] returned: [int(None)]
    raises [TypeError]. *)
Definition py_int_opt (v : option string) : result Z :=
  match v with
  | Some s => py_int s
  | None => Raise TypeError
  end.

(* ================================================================= *)
(** ** [xml.etree.ElementTree]

    The parser is a push-down automaton fed one character at a time, as
    the streaming parser under [ET.parse] is.  It covers the XML that
    descriptors are made of: processing instructions, start, end and
    empty-element tags, attributes in either kind of quotes, the five
    predefined entities, character data, and a default namespace
    declared with [xmlns].  Comments, [CDATA] and [DOCTYPE] sections,
    numeric character references and namespace prefixes are outside
    this subset and make the automaton fail. *)

#[local] Unset Elimination Schemes.
Inductive element : Type :=
| Element (tag : string) (attrib : list (string * string))
          (children : list element).
#[local] Set Elimination Schemes.

Definition tag (e : element) : string :=
  match e with Element t _ _ => t end.
Definition attrib (e : element) : list (string * string) :=
  match e with Element _ a _ => a end.
Definition children (e : element) : list element :=
  match e with Element _ _ c => c end.

(** An element that is still open. *)
Record frame : Type := {
  f_name : string;                      (* the name as written *)
  f_ns : string;                        (* default namespace in scope *)
  f_attrib : list (string * string);
  f_children : list element
}.

Inductive lex : Type :=
| Content
| ContentRef (r : string)
| Lt
| Instruction (seen_question : bool)
| OpenName (name : string)
| InTag (name : string) (atts : list (string * string)) (spaced : bool)
| AttName (name : string) (atts : list (string * string)) (aname : string)
| AttEq (name : string) (atts : list (string * string)) (aname : string)
| AttQuote (name : string) (atts : list (string * string)) (aname : string)
| AttValue (name : string) (atts : list (string * string)) (aname : string)
           (quote : ascii) (v : string)
| AttRef (name : string) (atts : list (string * string)) (aname : string)
         (quote : ascii) (v : string) (r : string)
| EmptyTag (name : string) (atts : list (string * string))
| CloseName (name : string)
| CloseSpace (name : string).

Record parser : Type := {
  lexer : lex;
  stack : list frame;
  root : option element
}.

Definition is_xml_space (c : ascii) : bool :=
  Ascii.eqb c " " || Ascii.eqb c tab || Ascii.eqb c newline || Ascii.eqb c cr.

Definition is_letter (c : ascii) : bool :=
  (((65 <=? code c) && (code c <=? 90)) ||
   ((97 <=? code c) && (code c <=? 122)))%N.

Definition is_digit (c : ascii) : bool :=
  ((48 <=? code c) && (code c <=? 57))%N.

Definition is_name_start (c : ascii) : bool :=
  is_letter c || Ascii.eqb c "_" || Ascii.eqb c ":".

Definition is_name_char (c : ascii) : bool :=
  is_name_start c || is_digit c || Ascii.eqb c "-" || Ascii.eqb c ".".

(** Characters below 0x20 other than white space are not XML. *)
Definition is_xml_char (c : ascii) : bool :=
  is_xml_space c || (32 <=? code c)%N.

Definition has_colon (s : string) : bool :=
  negb (string_forallb (fun c => negb (Ascii.eqb c ":")) s).

Definition entity (r : string) : option string :=
  if String.eqb r "lt" then Some "<"
  else if String.eqb r "gt" then Some ">"
  else if String.eqb r "amp" then Some "&"
  else if String.eqb r "quot" then Some dq
  else if String.eqb r "apos" then Some "'"
  else None.

Fixpoint lookup (k : string) (l : list (string * string)) : option string :=
  match l with
  | [] => None
  | (k', v) :: r => if String.eqb k k' then Some v else lookup k r
  end.

Definition remove_key (k : string) (l : list (string * string))
    : list (string * string) :=
  filter (fun kv => negb (String.eqb k (fst kv))) l.

Definition qualified (ns name : string) : string :=
  match ns with
  | EmptyString => name
  | _ => "{" ++ ns ++ "}" ++ name
  end.

(** A start tag is complete: resolve the default namespace, drop the
    namespace declaration from the attributes, and open the element. *)
Definition open_element (name : string) (atts : list (string * string))
    (p : parser) : option parser :=
  if has_colon name || existsb (fun kv => has_colon (fst kv)) atts then None
  else
    match stack p, root p with
    | [], Some _ => None                (* a second document element *)
    | _, _ =>
        let inherited :=
          match stack p with
          | [] => EmptyString
          | f :: _ => f_ns f
          end in
        let ns :=
          match lookup "xmlns" atts with
          | Some uri => uri
          | None => inherited
          end in
        Some {| lexer := Content;
                stack := {| f_name := name; f_ns := ns;
                            f_attrib := remove_key "xmlns" atts;
                            f_children := [] |} :: stack p;
                root := root p |}
    end.

(** An end tag is complete: it must match the innermost open element,
    which becomes the last child of its parent, or the root. *)
Definition close_element (name : string) (p : parser) : option parser :=
  match stack p with
  | [] => None
  | f :: rest =>
      if String.eqb name (f_name f) then
        let e := Element (qualified (f_ns f) (f_name f)) (f_attrib f)
                   (f_children f) in
        match rest with
        | [] => Some {| lexer := Content; stack := []; root := Some e |}
        | parent :: above =>
            Some {| lexer := Content;
                    stack := {| f_name := f_name parent; f_ns := f_ns parent;
                                f_attrib := f_attrib parent;
                                f_children :=
                                  (f_children parent ++ [e])%list |}
                             :: above;
                    root := root p |}
        end
      else None
  end.

Definition goto (l : lex) (p : parser) : option parser :=
  Some {| lexer := l; stack := stack p; root := root p |}.

(** One character. *)
Definition xml_step (p : parser) (c : ascii) : option parser :=
  match lexer p with
  | Content =>
      if Ascii.eqb c "<" then goto Lt p
      else if is_xml_space c then Some p
      else
        match stack p with
        | [] => None                    (* text outside the root *)
        | _ :: _ =>
            if Ascii.eqb c "&" then goto (ContentRef EmptyString) p
            else if is_xml_char c then Some p else None
        end
  | ContentRef r =>
      if Ascii.eqb c ";" then
        match entity r with
        | Some _ => goto Content p
        | None => None
        end
      else if is_name_char c then goto (ContentRef (r ++ chr c)) p
      else None
  | Lt =>
      if Ascii.eqb c "?" then goto (Instruction false) p
      else if Ascii.eqb c "/" then goto (CloseName EmptyString) p
      else if is_name_start c then goto (OpenName (chr c)) p
      else None
  | Instruction seen_question =>
      if Ascii.eqb c "?" then goto (Instruction true) p
      else if Ascii.eqb c ">" && seen_question then goto Content p
      else goto (Instruction false) p
  | OpenName name =>
      if is_name_char c then goto (OpenName (name ++ chr c)) p
      else if is_xml_space c then goto (InTag name [] true) p
      else if Ascii.eqb c ">" then open_element name [] p
      else if Ascii.eqb c "/" then goto (EmptyTag name []) p
      else None
  | InTag name atts spaced =>
      if is_xml_space c then goto (InTag name atts true) p
      else if Ascii.eqb c ">" then open_element name atts p
      else if Ascii.eqb c "/" then goto (EmptyTag name atts) p
      else if is_name_start c && spaced then goto (AttName name atts (chr c)) p
      else None
  | AttName name atts aname =>
      if is_name_char c then goto (AttName name atts (aname ++ chr c)) p
      else if is_xml_space c then goto (AttEq name atts aname) p
      else if Ascii.eqb c "=" then goto (AttQuote name atts aname) p
      else None
  | AttEq name atts aname =>
      if is_xml_space c then Some p
      else if Ascii.eqb c "=" then goto (AttQuote name atts aname) p
      else None
  | AttQuote name atts aname =>
      if is_xml_space c then Some p
      else if Ascii.eqb c dquote || Ascii.eqb c "'"
      then goto (AttValue name atts aname c EmptyString) p
      else None
  | AttValue name atts aname quote v =>
      if Ascii.eqb c quote then
        match lookup aname atts with
        | Some _ => None                (* duplicate attribute *)
        | None => goto (InTag name (atts ++ [(aname, v)])%list false) p
        end
      else if Ascii.eqb c "<" then None
      else if Ascii.eqb c "&"
      then goto (AttRef name atts aname quote v EmptyString) p
      else if is_xml_space c
      then goto (AttValue name atts aname quote (v ++ " ")) p
      else if is_xml_char c
      then goto (AttValue name atts aname quote (v ++ chr c)) p
      else None
  | AttRef name atts aname quote v r =>
      if Ascii.eqb c ";" then
        match entity r with
        | Some t => goto (AttValue name atts aname quote (v ++ t)) p
        | None => None
        end
      else if is_name_char c
      then goto (AttRef name atts aname quote v (r ++ chr c)) p
      else None
  | EmptyTag name atts =>
      if Ascii.eqb c ">" then
        match open_element name atts p with
        | Some p' => close_element name p'
        | None => None
        end
      else None
  | CloseName name =>
      if is_name_char c then goto (CloseName (name ++ chr c)) p
      else if is_xml_space c then
        match name with
        | EmptyString => None
        | _ => goto (CloseSpace name) p
        end
      else if Ascii.eqb c ">" then close_element name p
      else None
  | CloseSpace name =>
      if is_xml_space c then Some p
      else if Ascii.eqb c ">" then close_element name p
      else None
  end.

(** Feeding a whole text; [None] is a parse error, which nothing
    recovers from. *)
Fixpoint feed (st : option parser) (s : string) : option parser :=
  match s with
  | EmptyString => st
  | String c r =>
      match st with
      | Some p => feed (xml_step p c) r
      | None => None
      end
  end.

Definition parser_start : parser :=
  {| lexer := Content; stack := []; root := None |}.

(** [ET.fromstring(text)]: the root element of a well-formed
    document. *)
Definition fromstring (text : string) : result element :=
  match feed (Some parser_start) text with
  | Some {| lexer := Content; stack := []; root := Some e |} => Ok e
  | _ => Raise ParseError
  end.

(** [elem.find(tag)] for a plain (qualified) tag: the first child with
    that tag. *)
Definition find (e : element) (t : string) : option element :=
  List.find (fun c => String.eqb (tag c) t) (children e).

(** [elem.get(key)]. *)
Definition get (e : element) (key : string) : option string :=
  lookup key (attrib e).

(* ================================================================= *)
(** ** The diagnostic tool ([diganosis.py]) *)

(** What the tool can ask the file system and Pillow. *)
Record FileSystem : Type := {
  path_exists : string -> bool;                (* os.path.exists *)
  is_dir : string -> bool;                     (* os.path.isdir *)
  list_dir : string -> result (list string);   (* os.listdir *)
  read_text : string -> result string;         (* the file ET.parse reads *)
  open_image : string -> result Image;         (* Image.open *)
  get_size : string -> result Z                (* os.path.getsize *)
}.

Inductive size_unit : Type := KB | MB | GB.

(** Python values that the tool passes around. *)
#[local] Unset Elimination Schemes.
Inductive pyval : Type :=
| PyNone
| PyInt (n : Z)
| PyQuot (n d : Z)                    (* the float [n / d], kept exact *)
| PyTuple (items : list pyval).
#[local] Set Elimination Schemes.

Inductive note : Type :=
| NoteRule
| NoteTitle
| NoteDziMissing (path : string)
| NoteDziFound (path : string)
| NoteInfo (w h tile_size overlap : Z) (format_type : option string)
| NoteParseError (e : exn)
| NoteTilesMissing (path : string)
| NoteTilesFound (path : string)
| NoteLevels (n : Z)
| NoteLevel (name : string) (tiles : Z)
| NoteTotal (tiles : Z)
| NoteSample (level : string) (w h : Z) (m : string)
| NoteSampleError (e : exn)
| NoteOriginalHeader
| NoteOriginalMissing (path : string)
| NoteOriginal (path : string) (w h : Z) (m : string)
| NoteFileSize (bytes : Z) (u : size_unit)
| NoteReadError (e : exn)
| NoteComparison
| NoteMatch
| NoteMismatch
| NoteOriginalSize (orig_w orig_h : pyval)
| NoteDziSize (dzi_w dzi_h : pyval)
| NoteCoverage (percentage : pyval)
| NoteSolution.

Definition truthy (v : pyval) : bool :=
  match v with
  | PyNone => false
  | PyInt n => negb (n =? 0)
  | PyQuot n _ => negb (n =? 0)
  | PyTuple [] => false
  | PyTuple (_ :: _) => true
  end.

Fixpoint py_eqb (a b : pyval) : bool :=
  match a, b with
  | PyNone, PyNone => true
  | PyInt x, PyInt y => x =? y
  | PyQuot n d, PyQuot n' d' => n * d' =? n' * d
  | PyInt x, PyQuot n d => x * d =? n
  | PyQuot n d, PyInt x => x * d =? n
  | PyTuple l, PyTuple m =>
      (fix all2 (l m : list pyval) : bool :=
         match l, m with
         | [], [] => true
         | x :: l', y :: m' => py_eqb x y && all2 l' m'
         | _, _ => false
         end) l m
  | _, _ => false
  end.

(** Floats are binary64: the quotient [n / d] of two integers, rounded
    to the nearest float, is finite as long as its magnitude is below
    [2^1024 - 2^970], half way between the largest float and [2^1024].
    Beyond it the true division of integers, and the conversion of an
    integer that meets a float, raise [OverflowError]. *)
Definition float_overflow (n d : Z) : bool :=
  (2 ^ 1024 - 2 ^ 970) * Z.abs d <=? Z.abs n.

(** [a * b]. *)
Definition py_mul (a b : pyval) : result pyval :=
  match a, b with
  | PyInt x, PyInt y => Ok (PyInt (x * y))
  | PyQuot n d, PyInt y | PyInt y, PyQuot n d =>
      if float_overflow y 1 then Raise OverflowError
      else Ok (PyQuot (n * y) d)
  | PyQuot n d, PyQuot n' d' => Ok (PyQuot (n * n') (d * d'))
  | PyTuple l, PyInt k | PyInt k, PyTuple l =>
      Ok (PyTuple (List.concat (repeat l (Z.to_nat k))))
  | _, _ => Raise TypeError
  end.

(** [a / b] (true division) on numbers; an integer that meets a float
    is converted first. *)
Definition py_truediv (a b : pyval) : result pyval :=
  match a, b with
  | PyInt x, PyInt y =>
      if y =? 0 then Raise ZeroDivisionError
      else if float_overflow x y then Raise OverflowError
      else Ok (PyQuot x y)
  | PyQuot n d, PyInt y =>
      if float_overflow y 1 then Raise OverflowError
      else if y =? 0 then Raise ZeroDivisionError
      else Ok (PyQuot n (d * y))
  | PyInt x, PyQuot n d =>
      if float_overflow x 1 then Raise OverflowError
      else if n =? 0 then Raise ZeroDivisionError
      else Ok (PyQuot (x * d) n)
  | PyQuot n d, PyQuot n' d' =>
      if n' =? 0 then Raise ZeroDivisionError else Ok (PyQuot (n * d') (d * n'))
  | _, _ => Raise TypeError
  end.

(** [a, b = v]. *)
Definition unpack2 (v : pyval) : result (pyval * pyval) :=
  match v with
  | PyTuple [a; b] => Ok (a, b)
  | PyTuple _ => Raise ValueError
  | _ => Raise TypeError
  end.

(** The tool prints and may raise: a computation yields its notes and
    its outcome. *)
Definition V (A : Type) : Type := list note * result A.

Definition vret {A} (a : A) : V A := ([], Ok a).

Definition vbind {A B} (m : V A) (k : A -> V B) : V B :=
  match m with
  | (out, Ok a) => let '(out', r) := k a in ((out ++ out')%list, r)
  | (out, Raise e) => (out, Raise e)
  end.

Notation "x <-- m ;; k" := (vbind m (fun x => k))
  (at level 61, m at next level, right associativity).
Notation "m ;;;; k" := (vbind m (fun _ => k))
  (at level 61, right associativity).

Definition say (n : note) : V unit := ([n], Ok tt).
Definition vlift {A} (r : result A) : V A := ([], r).

(** [try: body except Exception as e: handler(e)]. *)
Definition try_except {A} (body : V A) (handler : exn -> V A) : V A :=
  match body with
  | (out, Ok a) => (out, Ok a)
  | (out, Raise e) => let '(out', r) := handler e in ((out ++ out')%list, r)
  end.

Definition deepzoom_ns : string := "http://schemas.microsoft.com/deepzoom/2008".

(** The body of the [try] of [diagnose_dzi], from the text of the
    descriptor to the five values it reads. *)
Definition parse_descriptor (text : string)
    : result (Z * Z * Z * Z * option string) :=
  result_bind (fromstring text) (fun root =>
  let size_elem :=
    match find root ("{" ++ deepzoom_ns ++ "}Size") with
    | Some e => Some e
    | None => find root "Size"
    end in
  match size_elem with
  | None => Raise AttributeError
  | Some size_elem =>
      result_bind (py_int_opt (get size_elem "Width")) (fun dzi_width =>
      result_bind (py_int_opt (get size_elem "Height")) (fun dzi_height =>
      result_bind (py_int_opt (get root "TileSize")) (fun tile_size =>
      result_bind (py_int_opt (get root "Overlap")) (fun overlap =>
      let format_type := get root "Format" in
      Ok (dzi_width, dzi_height, tile_size, overlap, format_type)))))
  end).

(** [levels.sort(key=int)]: the keys are computed first, in order (the
    first name that is not an integer raises [ValueError]); the sort is
    stable. *)
Fixpoint keyed (l : list string) : result (list (Z * string)) :=
  match l with
  | [] => Ok []
  | d :: r =>
      result_bind (py_int d) (fun k =>
      result_bind (keyed r) (fun kr => Ok ((k, d) :: kr)))
  end.

Fixpoint insert_by_key (x : Z * string) (l : list (Z * string))
    : list (Z * string) :=
  match l with
  | [] => [x]
  | y :: r => if fst x <? fst y then x :: l else y :: insert_by_key x r
  end.

Definition sort_by_int (l : list string) : result (list string) :=
  result_bind (keyed l) (fun kl =>
  Ok (map snd (fold_left (fun acc x => insert_by_key x acc) kl []))).

Definition is_tile_name (f : string) : bool :=
  ends_with ".jpg" f || ends_with ".jpeg" f || ends_with ".png" f.

(** [levels[-1]]. *)
Definition last_item (l : list string) : result string :=
  match List.rev l with
  | [] => Raise IndexError
  | x :: _ => Ok x
  end.

(** [diagnose_dzi]: returns [None] or the pair of the declared
    dimensions. *)
Definition diagnose_dzi (fs : FileSystem) (dzi_file : string) : V pyval :=
  say NoteRule ;;;; say NoteTitle ;;;; say NoteRule ;;;;
  if negb (path_exists fs dzi_file) then
    say (NoteDziMissing dzi_file) ;;;; vret PyNone
  else
    say (NoteDziFound dzi_file) ;;;;
    parsed <-- try_except
                 (text <-- vlift (read_text fs dzi_file) ;;
                  v <-- vlift (parse_descriptor text) ;;
                  let '(dzi_width, dzi_height, tile_size, overlap, format_type) := v in
                  say (NoteInfo dzi_width dzi_height tile_size overlap
                         format_type) ;;;;
                  vret (Some (dzi_width, dzi_height)))
                 (fun e => say (NoteParseError e) ;;;; vret None) ;;
    match parsed with
    | None => vret PyNone
    | Some (dzi_width, dzi_height) =>
        let tiles_folder := replace ".dzi" "_files" dzi_file in
        if negb (path_exists fs tiles_folder) then
          say (NoteTilesMissing tiles_folder) ;;;; vret PyNone
        else
          say (NoteTilesFound tiles_folder) ;;;;
          names <-- vlift (list_dir fs tiles_folder) ;;
          let levels :=
            filter (fun d => is_dir fs (path_join tiles_folder d)) names in
          levels <-- vlift (sort_by_int levels) ;;
          say (NoteLevels (Z.of_nat (List.length levels))) ;;;;
          total_tiles <--
            fold_left
              (fun (acc : V Z) level =>
                 total_tiles <-- acc ;;
                 let level_path := path_join tiles_folder level in
                 files <-- vlift (list_dir fs level_path) ;;
                 let tiles := filter is_tile_name files in
                 say (NoteLevel level (Z.of_nat (List.length tiles))) ;;;;
                 vret (total_tiles + Z.of_nat (List.length tiles)))
              levels (vret 0) ;;
          say (NoteTotal total_tiles) ;;;;
          highest_level <-- vlift (last_item levels) ;;
          let highest_level_path := path_join tiles_folder highest_level in
          sample_tiles <-- vlift (list_dir fs highest_level_path) ;;
          match sample_tiles with
          | [] => vret tt
          | first :: _ =>
              let sample_tile := path_join highest_level_path first in
              match open_image fs sample_tile with
              | Ok img =>
                  say (NoteSample highest_level (fst (size img))
                         (snd (size img)) (mode img))
              | Raise e => say (NoteSampleError e)
              end
          end ;;;;
          say NoteRule ;;;;
          vret (PyTuple [PyInt dzi_width; PyInt dzi_height])
    end.

(** [check_original_image]: returns [None], the pair of the dimensions,
    or the pair [(None, None)]. *)
Definition check_original_image (fs : FileSystem) (image_path : string)
    : V pyval :=
  say NoteRule ;;;; say NoteOriginalHeader ;;;; say NoteRule ;;;;
  if negb (path_exists fs image_path) then
    say (NoteOriginalMissing image_path) ;;;; vret PyNone
  else
    try_except
      (img <-- vlift (open_image fs image_path) ;;
       let '(width, height) := size img in
       say (NoteOriginal image_path width height (mode img)) ;;;;
       file_size <-- vlift (get_size fs image_path) ;;
       say (NoteFileSize file_size
              (if 1024 * 1024 * 1024 <? file_size then GB
               else if 1024 * 1024 <? file_size then MB else KB)) ;;;;
       vret (PyTuple [PyInt width; PyInt height]))
      (fun e => say (NoteReadError e) ;;;; vret (PyTuple [PyNone; PyNone])).

(** [compare_dimensions]. *)
Definition compare_dimensions (fs : FileSystem)
    (dzi_file original_image : string) : V unit :=
  dzi_dims <-- diagnose_dzi fs dzi_file ;;
  orig_dims <-- check_original_image fs original_image ;;
  if truthy dzi_dims && truthy orig_dims then
    dd <-- vlift (unpack2 dzi_dims) ;;
    let '(dzi_w, dzi_h) := dd in
    od <-- vlift (unpack2 orig_dims) ;;
    let '(orig_w, orig_h) := od in
    say NoteRule ;;;; say NoteComparison ;;;; say NoteRule ;;;;
    if py_eqb dzi_w orig_w && py_eqb dzi_h orig_h then
      say NoteMatch
    else
      say NoteMismatch ;;;;
      say (NoteOriginalSize orig_w orig_h) ;;;;
      say (NoteDziSize dzi_w dzi_h) ;;;;
      dzi_area <-- vlift (py_mul dzi_w dzi_h) ;;
      orig_area <-- vlift (py_mul orig_w orig_h) ;;
      ratio <-- vlift (py_truediv dzi_area orig_area) ;;
      percentage <-- vlift (py_mul ratio (PyInt 100)) ;;
      say (NoteCoverage percentage) ;;;;
      say NoteSolution
  else vret tt.

(* ================================================================= *)
(** ** Reading a run

    Projections of the record of a run, and the plan of the pyramid
    that the code of [_generate_level] follows (its lines computing
    [level_width], [level_height], [cols] and [rows]). *)

Definition printed (l : list event) : list message :=
  flat_map (fun e => match e with Print m => [m] | _ => [] end) l.

(** Levels announced: [(level, level_width, level_height, cols, rows)]. *)
Definition announced (l : list event) : list (Z * Z * Z * Z * Z) :=
  flat_map (fun e =>
              match e with
              | Print (MsgLevel level lw lh cols rows _) =>
                  [(level, lw, lh, cols, rows)]
              | _ => []
              end) l.

Definition level_of (a : Z * Z * Z * Z * Z) : Z :=
  let '(level, _, _, _, _) := a in level.

(** Resizes done, tiles saved, text files written (calls that
    returned). *)
Definition resizes (l : list event) : list (Z * Z) :=
  flat_map (fun e => match e with Did (Resize w h) => [(w, h)] | _ => [] end) l.

Definition saved (l : list event) : list (string * Image) :=
  flat_map (fun e =>
              match e with Did (SaveTile p t _) => [(p, t)] | _ => [] end) l.

Definition written (l : list event) : list (string * string) :=
  flat_map (fun e =>
              match e with Did (WriteText p c) => [(p, c)] | _ => [] end) l.

(** Mode conversions and alpha compositings attempted. *)
Definition conversions (l : list event) : list action :=
  flat_map (fun e =>
              match e with
              | Did (Convert a b) | Failed (Convert a b) _ => [Convert a b]
              | Did (Composite sz) | Failed (Composite sz) _ => [Composite sz]
              | _ => []
              end) l.

(** Directories created. *)
Definition made_dirs (l : list event) : list string :=
  flat_map (fun e => match e with Did (MakeDirs p) => [p] | _ => [] end) l.

Definition is_failure (e : event) : bool :=
  match e with Failed _ _ => true | _ => false end.

(** The tile whose save raised, if any. *)
Definition failed_tiles (l : list event) : list string :=
  flat_map (fun e =>
              match e with Failed (SaveTile p _ _) _ => [p] | _ => [] end) l.

(** What a run tells its caller and its user: the value returned or the
    exception raised, and the standard output. *)
Definition report {A} (o : outcome A) : result A * list message :=
  (value o, printed (events o)).

(** [n] is the ceiling of [a / b], for [b > 0]. *)
Definition is_ceil (n a b : Z) : Prop := (n - 1) * b < a <= n * b.

(** [x] clamped to [[lo, hi]]. *)
Definition clamp (lo hi x : Z) : Z := Z.max lo (Z.min hi x).

(** The plan of a level. *)
Definition planned_grid (g : DZIGenerator) (orig_width orig_height level : Z)
    : result (Z * Z * Z * Z) :=
  let scale_factor := pow2 (max_level g - level) in
  result_bind (ceil_quot orig_width scale_factor) (fun level_width =>
  result_bind (ceil_quot orig_height scale_factor) (fun level_height =>
  result_bind (ceil_div level_width (tile_size g)) (fun cols =>
  result_bind (ceil_div level_height (tile_size g)) (fun rows =>
  Ok (level_width, level_height, cols, rows))))).

Definition tile_path (g : DZIGenerator) (level col row : Z) : string :=
  path_join (path_join (tiles_dir g) (str level)) (tile_filename g col row).

(** The tile files of a level, in the order of the loops, and of the
    whole pyramid. *)
Definition level_paths (g : DZIGenerator) (orig_width orig_height level : Z)
    : list string :=
  match planned_grid g orig_width orig_height level with
  | Ok (_, _, cols, rows) =>
      flat_map (fun row => map (fun col => tile_path g level col row)
                             (py_range cols))
        (py_range rows)
  | Raise _ => []
  end.

Definition pyramid_paths (g : DZIGenerator) (orig_width orig_height : Z)
    : list string :=
  flat_map (level_paths g orig_width orig_height) (py_range (max_level g + 1)).

(** Characters that stand for themselves inside a quoted XML attribute:
    printable ASCII other than the double quote, ['<'] and ['&']. *)
Definition plain_char (c : ascii) : bool :=
  ((32 <=? code c) && (code c <=? 126))%N
  && negb (Ascii.eqb c dquote) && negb (Ascii.eqb c "<")
  && negb (Ascii.eqb c "&").

Definition plain (s : string) : bool := string_forallb plain_char s.

(** Invariants of computations, kept by [bind] and by the loops. *)

Definition no_failure (l : list event) : Prop :=
  forallb (fun e => negb (is_failure e)) l = true.

(** A run stops at the first outside call that raises, with the
    exception of that call. *)
Definition tidy {A} (o : outcome A) : Prop :=
  no_failure (events o) \/
  exists pre a e,
    events o = (pre ++ [Failed a e])%list /\ no_failure pre /\
    value o = Raise e.

Definition Tidy {A} (m : M A) : Prop := forall g h, tidy (m g h).

(** The computation leaves the generator object as it found it, and
    every event it records satisfies [P] (which may depend on the
    generator object). *)
Definition Steady {A} (P : DZIGenerator -> event -> Prop) (m : M A) : Prop :=
  forall g h, self_after (m g h) = g /\ Forall (P g) (events (m g h)).


(** Classes of events. *)
Definition is_write (e : event) : bool :=
  match e with
  | Did (WriteText _ _) | Failed (WriteText _ _) _ => true
  | _ => false
  end.

Definition is_conversion (e : event) : bool :=
  match e with
  | Did (Convert _ _) | Failed (Convert _ _) _
  | Did (Composite _) | Failed (Composite _) _ => true
  | _ => false
  end.

(** Events of the work on levels and tiles. *)
Definition is_level_event (e : event) : bool :=
  match e with
  | Did (MakeDirs _) | Failed (MakeDirs _) _
  | Did (Resize _ _) | Failed (Resize _ _) _
  | Did (SaveTile _ _ _) | Failed (SaveTile _ _ _) _
  | Print (MsgLevel _ _ _ _ _ _) | Print (MsgProgress _ _) => true
  | _ => false
  end.

(** A tile cut out of [img] or out of a resampling of [img]. *)
Definition cut_from (env : Env) (img tile : Image) : Prop :=
  exists box,
    tile = cropped img box \/ exists w h, tile = cropped (resized env img w h) box.

(** A resampling filter with a footprint: the pixel of the result at
    [(x, y)] is black when the source pixels of [footprint img w h x y]
    are all black. *)
Definition keeps_black (env : Env)
    (footprint : Image -> Z -> Z -> Z -> Z -> Z -> Z -> Prop) : Prop :=
  forall img w h x y,
    (forall sx sy, footprint img w h x y sx sy -> data img sx sy = [0; 0; 0]) ->
    resample env img w h x y = [0; 0; 0].

(** What the work on the levels may record when it starts from an image
    [img] whose mode JPEG can take: tiles cut from [img], in its mode,
    and no mode conversion. *)
Definition level_work (env : Env) (img : Image) (e : event) : Prop :=
  is_conversion e = false /\ is_write e = false /\
  forall p t enc,
    (e = Did (SaveTile p t enc) \/ exists x, e = Failed (SaveTile p t enc) x) ->
    mode t = mode img /\ cut_from env img t.

(** What a level announces is its plan. *)
Definition announces_plan (w h : Z) (g : DZIGenerator) (e : event) : Prop :=
  forall level lw lh cols rows total,
    e = Print (MsgLevel level lw lh cols rows total) ->
    planned_grid g w h level = Ok (lw, lh, cols, rows) /\ total = cols * rows.

(** The environment in which no call raises. *)
Definition fault_free (env : Env) : Prop :=
  forall h a, fault env h a = None.


Definition saved_paths (l : list event) : list string :=
  flat_map (fun e => match e with Did (SaveTile p _ _) => [p] | _ => [] end) l.

(** Events of the work on single tiles. *)
Definition is_tile_event (e : event) : bool :=
  match e with
  | Did (SaveTile _ _ _) | Failed (SaveTile _ _ _) _
  | Did (Convert _ _) | Failed (Convert _ _) _
  | Print (MsgProgress _ _) => true
  | _ => false
  end.


(** What the plan makes a level announce and resize. *)
Definition planned_announcement (g : DZIGenerator) (w h level : Z)
    : list (Z * Z * Z * Z * Z) :=
  match planned_grid g w h level with
  | Ok (lw, lh, cols, rows) => [(level, lw, lh, cols, rows)]
  | Raise _ => []
  end.

Definition planned_resize (g : DZIGenerator) (w h level : Z) : list (Z * Z) :=
  match planned_grid g w h level with
  | Ok (lw, lh, _, _) => if level =? max_level g then [] else [(lw, lh)]
  | Raise _ => []
  end.


(** The working image after normalisation, and the call that the
    normalisation makes. *)
Definition normalised (env : Env) (img : Image) : Image :=
  if negb (mode_in (mode img) ["RGB"; "RGBA"; "L"]) then
    converted env img "RGB"
  else if String.eqb (mode img) "RGBA" then composited img
  else img.

Definition normalising_call (img : Image) : list action :=
  if negb (mode_in (mode img) ["RGB"; "RGBA"; "L"]) then
    [Convert (mode img) "RGB"]
  else if String.eqb (mode img) "RGBA" then [Composite (size img)]
  else [].

(** What may be recorded once the working image [img] is there: no
    conversion, and tiles cut from [img], in its mode. *)
Definition after_normalising (env : Env) (img : Image) (e : event) : Prop :=
  is_conversion e = false /\
  forall p t enc,
    (e = Did (SaveTile p t enc) \/ exists x, e = Failed (SaveTile p t enc) x) ->
    mode t = mode img /\ cut_from env img t.

(** What is recorded before the levels: nothing of the work on levels,
    tiles or the descriptor. *)
Definition before_levels (e : event) : Prop :=
  is_level_event e = false /\ is_write e = false.


(** The fixed parts of the record of [generate] after the image is
    open: what is printed before the normalisation, before the levels
    and at the end, and the text that is written. *)
Definition opening_prints (img : Image) : list event :=
  [Print (MsgImageSize (fst (size img)) (snd (size img)));
   Print (MsgMode (mode img))].

Definition plan_prints (g : DZIGenerator) : list event :=
  [Print (MsgMaxLevel (max_level g));
   Print (MsgGenerating (max_level g + 1) (max_level g));
   Print (MsgTileSize (tile_size g));
   Print (MsgOverlap (overlap g))].

Definition closing_prints (g : DZIGenerator) (total_tiles : Z) : list event :=
  [Print (MsgDescriptor (dzi_file g));
   Print MsgRule; Print MsgComplete; Print MsgTime;
   Print (MsgTotalTiles total_tiles);
   Print (MsgDziFile (dzi_file g));
   Print (MsgTilesDir (tiles_dir g));
   Print MsgRule].

Definition descriptor_text (g : DZIGenerator) (img : Image) : string :=
  dzi_content (format g) (overlap g) (tile_size g)
    (snd (size img)) (fst (size img)) (basename (tiles_dir g)).

(** How a run of [generate_opened] can go: where it stops, and what it
    recorded until then.  [n] is the outcome of the normalisation, [l]
    the outcome of the loop over the levels and [g'] the generator
    object once [max_level] is assigned. *)
Inductive opened_run (env : Env) (img : Image) (g g' : DZIGenerator)
    (n : outcome Image) (l : outcome Z) (o : outcome bool) : Prop :=
| StopNormalise e :
    value n = Raise e ->
    value o = Raise e -> self_after o = g ->
    events o = (opening_prints img ++ events n)%list ->
    opened_run env img g g' n l o
| StopLog2 :
    value n = Ok (normalised env img) ->
    Z.max (fst (size img)) (snd (size img)) <= 0 ->
    value o = Raise ValueError -> self_after o = g ->
    events o = (opening_prints img ++ events n)%list ->
    opened_run env img g g' n l o
| StopMakeDirs e :
    value n = Ok (normalised env img) ->
    0 < Z.max (fst (size img)) (snd (size img)) ->
    (exists hm, fault env hm (MakeDirs (tiles_dir g)) = Some e) ->
    value o = Raise e -> self_after o = g' ->
    events o = (opening_prints img ++ events n ++ plan_prints g'
                ++ [Failed (MakeDirs (tiles_dir g)) e])%list ->
    opened_run env img g g' n l o
| StopLevels e :
    value n = Ok (normalised env img) ->
    0 < Z.max (fst (size img)) (snd (size img)) ->
    value l = Raise e ->
    value o = Raise e -> self_after o = g' ->
    events o = (opening_prints img ++ events n ++ plan_prints g'
                ++ [Did (MakeDirs (tiles_dir g))] ++ events l)%list ->
    opened_run env img g g' n l o
| StopDescriptor total e :
    value n = Ok (normalised env img) ->
    0 < Z.max (fst (size img)) (snd (size img)) ->
    value l = Ok total ->
    (exists hw, fault env hw (WriteText (dzi_file g) (descriptor_text g img))
                = Some e) ->
    value o = Raise e -> self_after o = g' ->
    events o = (opening_prints img ++ events n ++ plan_prints g'
                ++ [Did (MakeDirs (tiles_dir g))] ++ events l
                ++ [Failed (WriteText (dzi_file g) (descriptor_text g img)) e])%list ->
    opened_run env img g g' n l o
| Completed total :
    value n = Ok (normalised env img) ->
    0 < Z.max (fst (size img)) (snd (size img)) ->
    value l = Ok total ->
    value o = Ok true -> self_after o = g' ->
    events o = (opening_prints img ++ events n ++ plan_prints g'
                ++ [Did (MakeDirs (tiles_dir g))] ++ events l
                ++ [Did (WriteText (dzi_file g) (descriptor_text g img))]
                ++ closing_prints g total)%list ->
    opened_run env img g g' n l o.


Definition intro_prints (g : DZIGenerator) : list event :=
  [Print MsgRule; Print MsgTitle; Print MsgRule;
   Print (MsgOpening (image_path g))].


(* ================================================================= *)
(** ** Sample inputs *)

(** An image of one colour. *)
Definition flat_image (m : string) (w h : Z) (p : pixel) : Image :=
  {| mode := m; size := (w, h); data := fun _ _ => p |}.

(** An environment that opens [img] whatever the path, converts and
    resamples by keeping the pixel data, and raises only on the saves
    that [failing] names. *)
Definition sample_env (img : Image) (failing : string -> option exn) : Env :=
  {| image_open := fun _ => Ok img;
     convert_data := fun im _ => data im;
     resample := fun im _ _ => data im;
     fault := fun _ a =>
                match a with
                | SaveTile p _ _ => failing p
                | _ => None
                end |}.

Definition no_fault : string -> option exn := fun _ => None.

Definition fault_at (path : string) (e : exn) : string -> option exn :=
  fun p => if String.eqb p path then Some e else None.

(** [DZIGenerator("in.png", "out")], with the defaults of the class. *)
Definition sample_generator : DZIGenerator :=
  __init__ "in.png" "out" 256 1 "jpeg" 90.

Definition sample_image : Image := flat_image "RGB" 300 200 [10; 20; 30].

(** The claim that a run tells which tile failed: the failed tile can
    be read off what the run reports. *)
Definition run_reports_failed_tile : Prop :=
  exists name : result bool * list message -> list string,
    forall env g,
      failed_tiles (events (run_generate env g))
        = name (report (run_generate env g)).


(** What the work on the full-resolution level may record: no resize,
    and tiles cut from the working image itself. *)
Definition full_resolution_work (img : Image) (e : event) : Prop :=
  (forall w h, e <> Did (Resize w h) /\ forall x, e <> Failed (Resize w h) x) /\
  forall p t enc,
    (e = Did (SaveTile p t enc) \/ exists x, e = Failed (SaveTile p t enc) x) ->
    exists box, t = cropped img box.


(** The claim that an input is rejected as a precondition failure
    before any planning: the run raises something other than the
    arithmetic error of a division by zero, and has neither assigned
    [max_level] nor created a directory. *)
Definition rejected_up_front (g : DZIGenerator) (o : outcome bool) : Prop :=
  (exists e, value o = Raise e /\ e <> ZeroDivisionError) /\
  max_level (self_after o) = max_level g /\
  made_dirs (events o) = [].


(** A file system with a descriptor, a pyramid of one level holding one
    tile, and a reference image [ref.png] that exists but cannot be
    decoded. *)
Definition sample_fs : FileSystem :=
  {| path_exists := fun _ => true;
     is_dir := fun _ => true;
     list_dir := fun p =>
       if String.eqb p "out_files" then Ok ["0"] else Ok ["0_0.jpeg"];
     read_text := fun _ => Ok (dzi_content "jpeg" 1 256 200 300 "out_files");
     open_image := fun p =>
       if String.eqb p "ref.png"
       then Raise (OSError "cannot identify image file")
       else Ok sample_image;
     get_size := fun _ => Ok 1000 |}.

(** What [str] is made of: digits and the minus sign. *)
Definition is_int_char (c : ascii) : bool := is_digit c || Ascii.eqb c "-".

Definition deepzoom_tag (name : string) : string :=
  "{" ++ deepzoom_ns ++ "}" ++ name.

(** The tree that the text of a descriptor is parsed into. *)
Definition descriptor_tree (fmt so st sh sw url : string) : element :=
  Element (deepzoom_tag "Image")
    [("Format", fmt); ("Overlap", so); ("TileSize", st)]
    [Element (deepzoom_tag "Size") [("Height", sh); ("Width", sw)] [];
     Element (deepzoom_tag "Sources") []
       [Element (deepzoom_tag "TileGroup") [("Url", url)] []]].


(** Attempts to save a tile. *)
Definition is_save (e : event) : bool :=
  match e with
  | Did (SaveTile _ _ _) | Failed (SaveTile _ _ _) _ => true
  | _ => false
  end.


(** The sum of a list of integers, and the number of tiles that the
    plan gives a level. *)
Definition sumZ (l : list Z) : Z := fold_right Z.add 0 l.

Definition planned_tiles (g : DZIGenerator) (w h level : Z) : Z :=
  match planned_grid g w h level with
  | Ok (_, _, cols, rows) => cols * rows
  | Raise _ => 0
  end.


(** [os.path.join] puts its separator between a directory and a
    name. *)
Definition separator (a : string) : string :=
  match a with
  | EmptyString => EmptyString
  | _ => if ends_with "/" a then EmptyString else "/"
  end.


(** [old in s]. *)
Fixpoint contains (old s : string) : bool :=
  starts_with old s ||
  match s with
  | EmptyString => false
  | String _ r => contains old r
  end.


(** The boxes that [img.crop] accepts. *)
Definition valid_box (box : Z * Z * Z * Z) : bool :=
  let '(x1, y1, x2, y2) := box in negb (x2 <? x1) && negb (y2 <? y1).


(** ** Text files on disk

    What the text files of the output location hold, as the writes of
    a run leave them.  [open(path, 'w')] truncates before anything is
    written, so a write that raised leaves the file in a state that is
    not known.  (Tiles are not text files, and no tile has the path of
    a descriptor: after the output name a tile path goes on with
    [_files], a descriptor path with [.dzi].) *)
Inductive file_state : Type :=
| Absent
| Holds (content : string)
| Damaged.

Definition disk : Type := string -> file_state.

Definition empty_disk : disk := fun _ => Absent.

Definition set_file (d : disk) (path : string) (st : file_state) : disk :=
  fun q => if String.eqb q path then st else d q.

Fixpoint disk_after (d : disk) (l : list event) : disk :=
  match l with
  | [] => d
  | Did (WriteText path content) :: r =>
      disk_after (set_file d path (Holds content)) r
  | Failed (WriteText path _) _ :: r => disk_after (set_file d path Damaged) r
  | _ :: r => disk_after d r
  end.

(** The claim that no descriptor is ever present for a pyramid with a
    failed tile: whatever the disk held before the run, after a run in
    which the save of a tile raised there is no descriptor. *)
Definition no_descriptor_with_failed_tile : Prop :=
  forall env g hist d,
    failed_tiles (events (generate env g hist)) <> [] ->
    disk_after d (events (generate env g hist)) (dzi_file g) = Absent.

(* ================================================================= *)
(** * Properties *)

(** ** Arithmetic of the plan *)

Lemma ceil_div_ok a b : b <> 0 -> ceil_div a b = Ok (- (- a / b)).
Proof.
  intros Hb. unfold ceil_div.
  destruct (Z.eqb_spec b 0); [contradiction | reflexivity].
Qed.

Lemma ceil_div_zero a : ceil_div a 0 = Raise ZeroDivisionError.
Proof. reflexivity. Qed.

Lemma neg_floor_is_ceil a b : 0 < b -> is_ceil (- (- a / b)) a b.
Proof.
  intros Hb. unfold is_ceil.
  pose proof (Z.div_mod (- a) b ltac:(lia)) as Hdm.
  pose proof (Z.mod_pos_bound (- a) b Hb) as Hm.
  nia.
Qed.

Lemma is_ceil_unique n m a b : 0 < b -> is_ceil n a b -> is_ceil m a b -> n = m.
Proof. unfold is_ceil. intros Hb Hn Hm. nia. Qed.

Lemma is_ceil_mono n n' a b b' :
  0 < b' -> b' <= b -> 0 <= a -> is_ceil n a b -> is_ceil n' a b' -> n <= n'.
Proof.
  unfold is_ceil. intros Hb' Hbb Ha Hn Hn'.
  destruct (Z_le_gt_dec n n') as [|Hgt]; [assumption | exfalso].
  assert (0 <= n') by nia.
  assert (n' * b' <= (n - 1) * b) by nia.
  lia.
Qed.

Lemma pow2_nonneg e : 0 <= e -> pow2 e = ScaleInt (2 ^ e).
Proof.
  intros He. unfold pow2. destruct (Z.leb_spec 0 e); [reflexivity | lia].
Qed.

Lemma ceil_quot_pow2 x e :
  0 <= e -> ceil_quot x (pow2 e) = Ok (- (- x / 2 ^ e)).
Proof.
  intros He. rewrite pow2_nonneg by assumption. simpl.
  apply ceil_div_ok. pose proof (Z.pow_pos_nonneg 2 e); lia.
Qed.

Lemma ceil_quot_unit x : ceil_quot x (pow2 0) = Ok x.
Proof.
  rewrite ceil_quot_pow2 by lia. f_equal.
  change (2 ^ 0) with 1. rewrite Z.div_1_r. lia.
Qed.

Lemma ceil_log2_ok n : 0 < n -> ceil_log2 n = Ok (Z.log2_up n).
Proof.
  intros Hn. unfold ceil_log2. destruct (Z.leb_spec n 0); [lia | reflexivity].
Qed.

(** [Z.log2_up] is the ceiling of the binary logarithm: the least
    exponent whose power of two reaches [n]. *)
Lemma log2_up_least n :
  1 <= n ->
  0 <= Z.log2_up n /\ n <= 2 ^ Z.log2_up n /\
  forall m, 0 <= m -> n <= 2 ^ m -> Z.log2_up n <= m.
Proof.
  intros Hn. split; [apply Z.log2_up_nonneg | split].
  - destruct (Z.eq_dec n 1) as [-> | Hne]; [simpl; lia |].
    apply Z.log2_up_spec. lia.
  - intros m Hm Hle.
    rewrite <- (Z.log2_up_pow2 m) by assumption.
    apply Z.log2_up_le_mono. assumption.
Qed.

Lemma py_range_In x n : In x (py_range n) <-> 0 <= x < n.
Proof.
  unfold py_range. rewrite in_map_iff. split.
  - intros [k [<- Hk]]. apply in_seq in Hk. lia.
  - intros Hx. exists (Z.to_nat x). split; [lia | apply in_seq; lia].
Qed.

Lemma py_range_empty n : n <= 0 -> py_range n = [].
Proof.
  intros Hn. unfold py_range.
  replace (Z.to_nat n) with O by lia. reflexivity.
Qed.

Lemma py_range_succ n : 0 <= n -> py_range (n + 1) = (py_range n ++ [n])%list.
Proof.
  intros Hn. unfold py_range.
  replace (Z.to_nat (n + 1)) with (S (Z.to_nat n)) by lia.
  rewrite seq_S, map_app. simpl. rewrite Z2Nat.id by assumption. reflexivity.
Qed.

Lemma py_range_length n : List.length (py_range n) = Z.to_nat n.
Proof. unfold py_range. rewrite length_map, length_seq. reflexivity. Qed.

(** ** The plan of a level *)

Lemma planned_grid_ok g w h level :
  0 <= level <= max_level g -> tile_size g <> 0 ->
  planned_grid g w h level =
    Ok (- (- w / 2 ^ (max_level g - level)),
        - (- h / 2 ^ (max_level g - level)),
        - (- (- (- w / 2 ^ (max_level g - level))) / tile_size g),
        - (- (- (- h / 2 ^ (max_level g - level))) / tile_size g)).
Proof.
  intros Hl Ht. unfold planned_grid.
  rewrite !ceil_quot_pow2 by lia. simpl.
  rewrite !ceil_div_ok by assumption. reflexivity.
Qed.

Lemma planned_grid_top g w h :
  tile_size g <> 0 ->
  exists cols rows, planned_grid g w h (max_level g) = Ok (w, h, cols, rows).
Proof.
  intros Ht. unfold planned_grid. rewrite Z.sub_diag, !ceil_quot_unit. simpl.
  rewrite !ceil_div_ok by assumption. simpl. eauto.
Qed.

Lemma planned_grid_zero_tile g w h level :
  0 <= level <= max_level g -> tile_size g = 0 ->
  planned_grid g w h level = Raise ZeroDivisionError.
Proof.
  intros Hl Ht. unfold planned_grid.
  rewrite !ceil_quot_pow2 by lia. simpl. rewrite Ht. reflexivity.
Qed.

(** ** Computations *)

Lemma bind_run {A B} (m : M A) (k : A -> M B) g h :
  bind m k g h =
  match value (m g h) with
  | Ok a =>
      let o' := k a (self_after (m g h)) (h ++ events (m g h))%list in
      {| value := value o'; self_after := self_after o';
         events := (events (m g h) ++ events o')%list |}
  | Raise e =>
      {| value := Raise e; self_after := self_after (m g h);
         events := events (m g h) |}
  end.
Proof. reflexivity. Qed.

Lemma bind_ok {A B} (m : M A) (k : A -> M B) g h b :
  value (bind m k g h) = Ok b ->
  exists a,
    value (m g h) = Ok a /\
    value (k a (self_after (m g h)) (h ++ events (m g h))%list) = Ok b /\
    events (bind m k g h) =
      (events (m g h)
       ++ events (k a (self_after (m g h)) (h ++ events (m g h))%list))%list /\
    self_after (bind m k g h) =
      self_after (k a (self_after (m g h)) (h ++ events (m g h))%list).
Proof.
  rewrite bind_run. destruct (value (m g h)) as [a | e]; simpl.
  - intros Hb. exists a. auto.
  - discriminate.
Qed.

Lemma no_failure_app l1 l2 :
  no_failure (l1 ++ l2) <-> no_failure l1 /\ no_failure l2.
Proof. unfold no_failure. rewrite forallb_app. apply andb_true_iff. Qed.

Lemma no_failure_not_in l a e : no_failure l -> ~ In (Failed a e) l.
Proof.
  unfold no_failure. rewrite forallb_forall. intros H Hin.
  specialize (H _ Hin). discriminate.
Qed.

Lemma not_no_failure_last pre a e : ~ no_failure (pre ++ [Failed a e]).
Proof.
  intros H. apply no_failure_app in H. destruct H as [_ H]. discriminate.
Qed.

(** *** Stopping at the first failure *)

Lemma tidy_ret {A} (a : A) : Tidy (ret a).
Proof. intros g h. left. reflexivity. Qed.

Lemma tidy_lift {A} (r : result A) : Tidy (lift r).
Proof. intros g h. left. reflexivity. Qed.

Lemma tidy_get_self : Tidy get_self.
Proof. intros g h. left. reflexivity. Qed.

Lemma tidy_assign l : Tidy (assign_max_level l).
Proof. intros g h. left. reflexivity. Qed.

Lemma tidy_print m : Tidy (print m).
Proof. intros g h. left. reflexivity. Qed.

Lemma tidy_perform env a : Tidy (perform env a).
Proof.
  intros g h. unfold perform. destruct (fault env h a) as [e |].
  - right. exists [], a, e. simpl. repeat split.
  - left. reflexivity.
Qed.

Lemma tidy_bind {A B} (m : M A) (k : A -> M B) :
  Tidy m -> (forall a, Tidy (k a)) -> Tidy (bind m k).
Proof.
  intros Hm Hk g h. rewrite bind_run.
  specialize (Hm g h).
  destruct (value (m g h)) as [a | e] eqn:Hv; simpl.
  - destruct Hm as [Hm | (pre & a' & e' & _ & _ & Hr)]; [| congruence].
    destruct (Hk a (self_after (m g h)) (h ++ events (m g h))%list)
      as [Hn | (pre & a' & e' & He & Hp & Hr)].
    + left. simpl. apply no_failure_app. split; assumption.
    + right. exists (events (m g h) ++ pre)%list, a', e'. simpl.
      rewrite He, app_assoc. repeat split; [| assumption].
      apply no_failure_app. split; assumption.
  - destruct Hm as [Hm | (pre & a' & e' & He & Hp & Hr)].
    + left. assumption.
    + right. exists pre, a', e'. simpl. repeat split; congruence.
Qed.

Lemma tidy_for_each {A B} (l : list A) (body : B -> A -> M B) :
  (forall acc x, Tidy (body acc x)) -> forall acc, Tidy (for_each l body acc).
Proof.
  intros Hb. induction l as [| x r IH]; intros acc; simpl.
  - apply tidy_ret.
  - apply tidy_bind; [apply Hb | intros acc'; apply IH].
Qed.

(** *** Classes of events *)

Section SteadyRules.
Variable P : DZIGenerator -> event -> Prop.

Lemma steady_ret {A} (a : A) : Steady P (ret a).
Proof. intros g h. split; [reflexivity | constructor]. Qed.

Lemma steady_lift {A} (r : result A) : Steady P (lift r).
Proof. intros g h. split; [reflexivity | constructor]. Qed.

Lemma steady_get_self : Steady P get_self.
Proof. intros g h. split; [reflexivity | constructor]. Qed.

Lemma steady_print m : (forall g, P g (Print m)) -> Steady P (print m).
Proof. intros Hp g h. split; [reflexivity | repeat constructor; apply Hp]. Qed.

Lemma steady_perform env a :
  (forall g, P g (Did a)) -> (forall g e, P g (Failed a e)) ->
  Steady P (perform env a).
Proof.
  intros Hd Hf g h. unfold perform.
  destruct (fault env h a); (split; [reflexivity | repeat constructor; auto]).
Qed.

Lemma steady_bind {A B} (m : M A) (k : A -> M B) :
  Steady P m -> (forall a, Steady P (k a)) -> Steady P (bind m k).
Proof.
  intros Hm Hk g h. rewrite bind_run.
  destruct (Hm g h) as [Hg Hf].
  destruct (value (m g h)) as [a | e]; simpl.
  - destruct (Hk a (self_after (m g h)) (h ++ events (m g h))%list)
      as [Hg' Hf'].
    rewrite Hg in Hg', Hf'. rewrite Hg.
    split; [exact Hg' |].
    apply Forall_app. split; [exact Hf | exact Hf'].
  - split; [exact Hg | exact Hf].
Qed.

Lemma steady_for_each {A B} (l : list A) (body : B -> A -> M B) :
  (forall acc x, Steady P (body acc x)) ->
  forall acc, Steady P (for_each l body acc).
Proof.
  intros Hb. induction l as [| x r IH]; intros acc; simpl.
  - apply steady_ret.
  - apply steady_bind; [apply Hb | intros acc'; apply IH].
Qed.
End SteadyRules.

Create HintDb tidy.
Create HintDb steady.

Ltac tidy_tac :=
  repeat first
    [ solve [auto 1 with tidy nocore]
    | apply tidy_ret | apply tidy_lift | apply tidy_get_self
    | apply tidy_assign | apply tidy_print | apply tidy_perform
    | apply tidy_bind; [| intros ?]
    | apply tidy_for_each; intros ? ?
    | match goal with
      | |- Tidy (if ?b then _ else _) => destruct b
      | |- Tidy (let _ := _ in _) => cbv zeta
      | |- Tidy (match ?x with Ok _ => _ | Raise _ => _ end) => destruct x
      | |- Tidy (match ?x with (_, _) => _ end) => destruct x
      end ].

Ltac steady_tac side :=
  repeat first
    [ solve [auto 1 with steady nocore]
    | apply steady_ret | apply steady_lift | apply steady_get_self
    | apply steady_print; [intros ?; side]
    | apply steady_perform; [intros ?; side | intros ? ?; side]
    | apply steady_bind; [| intros ?]
    | apply steady_for_each; intros ? ?
    | match goal with
      | |- Steady _ (if ?b then _ else _) => destruct b eqn:?
      | |- Steady _ (let _ := _ in _) => cbv zeta
      end ].

(** Running a computation whose parts are known: unfold the monad and
    split on what the environment answers. *)
Ltac exec :=
  repeat
    (unfold bind, get_self, ret, print, lift, assign_max_level, perform,
       convert, resize in *;
     cbn [value self_after events app] in *;
     try match goal with
       | |- context [match fault ?env ?h ?a with _ => _ end] =>
           destruct (fault env h a) eqn:?
       | H : context [match fault ?env ?h ?a with _ => _ end] |- _ =>
           destruct (fault env h a) eqn:?
       end).

Lemma tidy_ok {A} (o : outcome A) a :
  tidy o -> value o = Ok a -> no_failure (events o).
Proof.
  intros [Hn | (pre & x & e & _ & _ & Hr)] Hv; [assumption | congruence].
Qed.

Lemma tidy_failed {A} (o : outcome A) a e :
  tidy o -> In (Failed a e) (events o) ->
  value o = Raise e /\
  exists pre, events o = (pre ++ [Failed a e])%list /\ no_failure pre.
Proof.
  intros [Hn | (pre & x & e' & He & Hp & Hr)] Hin.
  - exfalso. eapply no_failure_not_in; eassumption.
  - rewrite He in Hin. apply in_app_or in Hin. destruct Hin as [Hin | Hin].
    + exfalso. eapply no_failure_not_in; eassumption.
    + destruct Hin as [Heq | []]. inversion Heq; subst.
      split; [assumption | exists pre; split; assumption].
Qed.

(** On success, the observations of a loop are those of its
    iterations, in order. *)
Lemma for_each_ok {A B X} (f : event -> list X) (F : A -> list X)
    (l : list A) (body : B -> A -> M B) g :
  (forall acc x h b, In x l -> value (body acc x g h) = Ok b ->
     self_after (body acc x g h) = g /\
     flat_map f (events (body acc x g h)) = F x) ->
  forall acc h b, value (for_each l body acc g h) = Ok b ->
    self_after (for_each l body acc g h) = g /\
    flat_map f (events (for_each l body acc g h)) = flat_map F l.
Proof.
  induction l as [| x r IH]; intros Hb acc h b Hv; simpl in *.
  - split; reflexivity.
  - apply bind_ok in Hv. destruct Hv as (a & Ha & Hk & He & Hs).
    destruct (Hb acc x h a (or_introl eq_refl) Ha) as [Hg Hf].
    rewrite Hg in *.
    destruct (IH (fun acc x h b Hin => Hb acc x h b (or_intror Hin))
                a (h ++ events (body acc x g h))%list b Hk) as [Hg' Hf'].
    split; [congruence |].
    rewrite He, flat_map_app, Hf, Hf'. reflexivity.
Qed.

(** A loop whose iterations all return, returns. *)
Lemma for_each_returns {A B} (l : list A) (body : B -> A -> M B) g :
  (forall acc x h, In x l ->
     exists b, value (body acc x g h) = Ok b /\
               self_after (body acc x g h) = g) ->
  forall acc h, exists b, value (for_each l body acc g h) = Ok b.
Proof.
  induction l as [| x r IH]; intros Hb acc h; simpl.
  - exists acc. reflexivity.
  - destruct (Hb acc x h (or_introl eq_refl)) as (a & Ha & Hg).
    rewrite bind_run, Ha. simpl. rewrite Hg.
    apply IH. intros acc' x' h' Hin. apply Hb. right. assumption.
Qed.

(** *** [_save_tile] *)

Lemma crop_valid img box :
  valid_box box = true -> crop img box = Ok (cropped img box).
Proof.
  destruct box as [[[x1 y1] x2] y2]. unfold valid_box, crop.
  destruct (x2 <? x1); [discriminate |].
  destruct (y2 <? y1); [discriminate | reflexivity].
Qed.

Lemma crop_ok img box t :
  crop img box = Ok t -> t = cropped img box /\ valid_box box = true.
Proof.
  destruct box as [[[x1 y1] x2] y2]. unfold valid_box, crop.
  destruct (x2 <? x1); [discriminate |].
  destruct (y2 <? y1); [discriminate |].
  intros [= <-]. split; reflexivity.
Qed.

Lemma crop_raise img box e :
  crop img box = Raise e -> e = ValueError /\ valid_box box = false.
Proof.
  destruct box as [[[x1 y1] x2] y2]. unfold valid_box, crop.
  destruct (x2 <? x1); [intros [= <-]; split; reflexivity |].
  destruct (y2 <? y1); [intros [= <-]; split; reflexivity | discriminate].
Qed.

Lemma tidy_save_tile env img dir col row lw lh :
  Tidy (_save_tile env img dir col row lw lh).
Proof. unfold _save_tile, convert. tidy_tac. Qed.
#[local] Hint Resolve tidy_save_tile : tidy.

Lemma save_tile_ok env img dir col row lw lh g h u :
  value (_save_tile env img dir col row lw lh g h) = Ok u ->
  self_after (_save_tile env img dir col row lw lh g h) = g /\
  map fst (saved (events (_save_tile env img dir col row lw lh g h)))
    = [path_join dir (tile_filename g col row)].
Proof.
  unfold _save_tile. intros Hv. exec.
  destruct (crop img _) as [tile | e0]; exec; [| discriminate].
  destruct (String.eqb (format g) "jpeg");
    [destruct (negb (mode_in _ _)) | destruct (String.eqb (format g) "png")];
    exec; try discriminate; split; reflexivity.
Qed.

Lemma save_tile_paths env img dir col row lw lh g h u :
  value (_save_tile env img dir col row lw lh g h) = Ok u ->
  saved_paths (events (_save_tile env img dir col row lw lh g h))
    = [path_join dir (tile_filename g col row)].
Proof.
  unfold _save_tile. intros Hv. exec.
  destruct (crop img _) as [tile | e0]; exec; [| discriminate].
  destruct (String.eqb (format g) "jpeg");
    [destruct (negb (mode_in _ _)) | destruct (String.eqb (format g) "png")];
    exec; try discriminate; reflexivity.
Qed.

Lemma steady_save_tile_class env img dir col row lw lh :
  Steady (fun _ e => is_tile_event e = true)
    (_save_tile env img dir col row lw lh).
Proof. unfold _save_tile, convert. steady_tac reflexivity. Qed.
#[local] Hint Resolve steady_save_tile_class : steady.

(** *** The loops over the tiles of a level *)

Lemma tidy_tile_loop env img dir lw lh cols rows :
  Tidy (tile_loop env img dir lw lh cols rows).
Proof.
  unfold tile_loop, tile_step. tidy_tac.
Qed.
#[local] Hint Resolve tidy_tile_loop : tidy.

Lemma steady_tile_loop_class env img dir lw lh cols rows :
  Steady (fun _ e => is_tile_event e = true)
    (tile_loop env img dir lw lh cols rows).
Proof.
  unfold tile_loop, tile_step. steady_tac reflexivity.
Qed.
#[local] Hint Resolve steady_tile_loop_class : steady.

Lemma tile_step_ok env img dir lw lh total row processed col g h b :
  value (tile_step env img dir lw lh total row processed col g h) = Ok b ->
  self_after (tile_step env img dir lw lh total row processed col g h) = g /\
  saved_paths (events (tile_step env img dir lw lh total row processed col g h))
    = [path_join dir (tile_filename g col row)].
Proof.
  unfold tile_step. intros Hv.
  apply bind_ok in Hv. destruct Hv as (u & Hu & Hk & He & Hs).
  pose proof (save_tile_ok _ _ _ _ _ _ _ _ _ _ Hu) as [Hg _].
  pose proof (save_tile_paths _ _ _ _ _ _ _ _ _ _ Hu) as Hp.
  rewrite Hs, He. unfold saved_paths in *. rewrite flat_map_app, Hp.
  destruct (((processed + 1) mod 50 =? 0) || (processed + 1 =? total));
    exec; (split; [assumption | reflexivity]).
Qed.

Lemma flat_map_singleton {A B} (f : A -> B) (l : list A) :
  flat_map (fun x => [f x]) l = map f l.
Proof. induction l; simpl; congruence. Qed.

Lemma tile_loop_ok env img dir lw lh cols rows g h n :
  value (tile_loop env img dir lw lh cols rows g h) = Ok n ->
  self_after (tile_loop env img dir lw lh cols rows g h) = g /\
  saved_paths (events (tile_loop env img dir lw lh cols rows g h))
    = flat_map (fun row =>
                  map (fun col => path_join dir (tile_filename g col row))
                    (py_range cols))
        (py_range rows).
Proof.
  unfold tile_loop. intros Hv.
  refine (for_each_ok _ _ _ _ g _ _ _ _ Hv).
  intros acc row h' b _ Hrow.
  rewrite <- flat_map_singleton.
  refine (for_each_ok _ _ _ _ g _ _ _ _ Hrow).
  intros acc' col h'' b' _ Hcol.
  apply (tile_step_ok _ _ _ _ _ _ _ _ _ _ _ _ Hcol).
Qed.

Lemma flat_map_nil {A B} (f : A -> list B) (l : list A) :
  Forall (fun x => f x = []) l -> flat_map f l = [].
Proof.
  induction 1 as [| x r Hx _ IH]; simpl; [reflexivity |].
  rewrite Hx, IH. reflexivity.
Qed.

Lemma tile_events_quiet l :
  Forall (fun e => is_tile_event e = true) l ->
  announced l = [] /\ resizes l = [] /\ made_dirs l = [] /\ written l = [].
Proof.
  intros H. repeat split; apply flat_map_nil;
    (eapply Forall_impl; [| exact H]); intros [m | a | a e]; simpl;
    try destruct m; try destruct a; simpl; congruence.
Qed.

(** *** One step of a run *)

Lemma bind_value_ok {A B} (m : M A) (k : A -> M B) g h a :
  value (m g h) = Ok a ->
  value (bind m k g h)
    = value (k a (self_after (m g h)) (h ++ events (m g h))%list).
Proof. intros Hv. rewrite bind_run, Hv. reflexivity. Qed.

Lemma bind_events_ok {A B} (m : M A) (k : A -> M B) g h a :
  value (m g h) = Ok a ->
  events (bind m k g h)
    = (events (m g h)
       ++ events (k a (self_after (m g h)) (h ++ events (m g h))%list))%list.
Proof. intros Hv. rewrite bind_run, Hv. reflexivity. Qed.

Lemma bind_self_ok {A B} (m : M A) (k : A -> M B) g h a :
  value (m g h) = Ok a ->
  self_after (bind m k g h)
    = self_after (k a (self_after (m g h)) (h ++ events (m g h))%list).
Proof. intros Hv. rewrite bind_run, Hv. reflexivity. Qed.

Lemma bind_value_raise {A B} (m : M A) (k : A -> M B) g h e :
  value (m g h) = Raise e -> value (bind m k g h) = Raise e.
Proof. intros Hv. rewrite bind_run, Hv. reflexivity. Qed.

Lemma bind_events_raise {A B} (m : M A) (k : A -> M B) g h e :
  value (m g h) = Raise e -> events (bind m k g h) = events (m g h).
Proof. intros Hv. rewrite bind_run, Hv. reflexivity. Qed.

Lemma bind_self_raise {A B} (m : M A) (k : A -> M B) g h e :
  value (m g h) = Raise e -> self_after (bind m k g h) = self_after (m g h).
Proof. intros Hv. rewrite bind_run, Hv. reflexivity. Qed.

Lemma perform_ok env a g h :
  fault env h a = None ->
  perform env a g h = {| value := Ok tt; self_after := g; events := [Did a] |}.
Proof. intros Hf. unfold perform. rewrite Hf. reflexivity. Qed.

Lemma perform_fail env a g h e :
  fault env h a = Some e ->
  perform env a g h
    = {| value := Raise e; self_after := g; events := [Failed a e] |}.
Proof. intros Hf. unfold perform. rewrite Hf. reflexivity. Qed.

Lemma resize_ok env img w h g hist :
  fault env hist (Resize w h) = None ->
  resize env img w h g hist
    = {| value := Ok (resized env img w h); self_after := g;
         events := [Did (Resize w h)] |}.
Proof.
  intros Hf. unfold resize.
  rewrite bind_run, (perform_ok _ _ _ _ Hf). reflexivity.
Qed.

Lemma resize_fail env img w h g hist e :
  fault env hist (Resize w h) = Some e ->
  resize env img w h g hist
    = {| value := Raise e; self_after := g;
         events := [Failed (Resize w h) e] |}.
Proof.
  intros Hf. unfold resize.
  rewrite bind_run, (perform_fail _ _ _ _ _ Hf). reflexivity.
Qed.

Lemma convert_ok env img to g hist :
  fault env hist (Convert (mode img) to) = None ->
  convert env img to g hist
    = {| value := Ok (converted env img to); self_after := g;
         events := [Did (Convert (mode img) to)] |}.
Proof.
  intros Hf. unfold convert.
  rewrite bind_run, (perform_ok _ _ _ _ Hf). reflexivity.
Qed.

Lemma convert_fail env img to g hist e :
  fault env hist (Convert (mode img) to) = Some e ->
  convert env img to g hist
    = {| value := Raise e; self_after := g;
         events := [Failed (Convert (mode img) to) e] |}.
Proof.
  intros Hf. unfold convert.
  rewrite bind_run, (perform_fail _ _ _ _ _ Hf). reflexivity.
Qed.

(** Rewriting the three projections of a sequence whose first
    computation has the value [v], by the proof [Hv]. *)
Ltac step_by m k g h v Hv :=
  match v with
  | Ok ?a =>
      rewrite ?(bind_value_ok m k g h a Hv), ?(bind_events_ok m k g h a Hv),
        ?(bind_self_ok m k g h a Hv)
  | Raise ?e =>
      rewrite ?(bind_value_raise m k g h e Hv),
        ?(bind_events_raise m k g h e Hv), ?(bind_self_raise m k g h e Hv)
  end;
  cbn [value self_after events print get_self ret assign_max_level lift].

(** Step over the first computation of a sequence when its value
    computes. *)
Ltac step :=
  match goal with
  | |- context [bind ?m ?k ?g ?h] =>
      let v := eval cbn [value print get_self ret assign_max_level lift] in
                 (value (m g h)) in
      step_by m k g h v (@eq_refl _ v)
  end.

(** Step over the first computation, splitting on what decides it. *)
Ltac walk :=
  match goal with
  | |- context [bind ?m ?k ?g ?h] =>
      first
        [ step
        | match m with
          | lift ?r => destruct r eqn:?; step
          | perform ?env ?a =>
              let E := fresh "Hfault" in
              destruct (fault env h a) eqn:E;
              [ match type of E with
                | _ = Some ?e =>
                    step_by m k g h (@Raise unit e)
                      (f_equal value (perform_fail env a g h e E));
                    rewrite ?(perform_fail env a g h e E)
                end
              | step_by m k g h (Ok tt)
                  (f_equal value (perform_ok env a g h E));
                rewrite ?(perform_ok env a g h E) ];
              cbn [value self_after events]
          | convert ?env ?img ?to =>
              let E := fresh "Hfault" in
              destruct (fault env h (Convert (mode img) to)) eqn:E;
              [ match type of E with
                | _ = Some ?e =>
                    step_by m k g h (@Raise Image e)
                      (f_equal value (convert_fail env img to g h e E));
                    rewrite ?(convert_fail env img to g h e E)
                end
              | step_by m k g h (Ok (converted env img to))
                  (f_equal value (convert_ok env img to g h E));
                rewrite ?(convert_ok env img to g h E) ];
              cbn [value self_after events]
          | resize ?env ?img ?w ?ht =>
              let E := fresh "Hfault" in
              destruct (fault env h (Resize w ht)) eqn:E;
              [ match type of E with
                | _ = Some ?e =>
                    step_by m k g h (@Raise Image e)
                      (f_equal value (resize_fail env img w ht g h e E));
                    rewrite ?(resize_fail env img w ht g h e E)
                end
              | step_by m k g h (Ok (resized env img w ht))
                  (f_equal value (resize_ok env img w ht g h E));
                rewrite ?(resize_ok env img w ht g h E) ];
              cbn [value self_after events]
          | (if ?b then _ else _) => destruct b eqn:?
          end ]
  end.

(** Step over the crop of [_save_tile]: the box is accepted and the
    tile is the cropped image, or the call raises. *)
Ltac walk_crop :=
  match goal with
  | |- context [bind (lift (crop ?img ?box)) ?k ?g ?h] =>
      let t := fresh "tile" in
      let E := fresh "Hcrop" in
      destruct (crop img box) as [t | ?] eqn:E;
      [ apply crop_ok in E; destruct E as [-> E] | ];
      step
  end.

(** Step over a first computation that is a call of the code, for which
    the lemmas on that call are to be used. *)
Ltac walk_call Hv :=
  match goal with
  | |- context [bind ?m ?k ?g ?h] =>
      destruct (value (m g h)) eqn:Hv;
      [ match type of Hv with
        | _ = Ok ?a => step_by m k g h (Ok a) Hv
        end
      | match type of Hv with
        | @eq (result ?A) _ (Raise ?e) => step_by m k g h (@Raise A e) Hv
        end ]
  end.

(** *** [_generate_level] *)

Lemma tidy_generate_level env img level w h :
  Tidy (_generate_level env img level w h).
Proof. unfold _generate_level, resize. tidy_tac. Qed.
#[local] Hint Resolve tidy_generate_level : tidy.

Lemma generate_level_ok env img level w h g hist t :
  value (_generate_level env img level w h g hist) = Ok t ->
  self_after (_generate_level env img level w h g hist) = g /\
  exists lw lh cols rows,
    planned_grid g w h level = Ok (lw, lh, cols, rows) /\
    t = cols * rows /\
    announced (events (_generate_level env img level w h g hist))
      = [(level, lw, lh, cols, rows)] /\
    resizes (events (_generate_level env img level w h g hist))
      = (if level =? max_level g then [] else [(lw, lh)]) /\
    saved_paths (events (_generate_level env img level w h g hist))
      = level_paths g w h level /\
    made_dirs (events (_generate_level env img level w h g hist))
      = [path_join (tiles_dir g) (str level)].
Proof.
  unfold _generate_level, level_paths, planned_grid.
  walk. walk; [| discriminate]. walk; [| discriminate].
  walk; walk; try discriminate.
  all: walk; [| discriminate]; walk; [| discriminate].
  all: walk; walk; try discriminate.
  all: walk_call Hloop; [| discriminate].
  all: destruct (tile_loop_ok _ _ _ _ _ _ _ _ _ _ Hloop) as [Hg Hp].
  all: match type of Hloop with
       | value (tile_loop ?e ?i ?d ?a ?b ?c ?r ?g ?h) = _ =>
           destruct (steady_tile_loop_class e i d a b c r g h) as [_ Hc];
           apply tile_events_quiet in Hc;
           destruct Hc as (Ha & Hr & Hm & _)
       end.
  all: rewrite Hg; walk; step.
  all: intros [= <-]; split; [reflexivity |].
  all: simpl result_bind;
    repeat match goal with
      | H : ceil_div _ _ = Ok _ |- _ => rewrite H; clear H; simpl result_bind
      end.
  all: do 4 eexists; split; [reflexivity |].
  all: split; [reflexivity |].
  all: unfold announced, resizes, saved_paths, made_dirs in *.
  all: repeat rewrite flat_map_app; cbn [flat_map app].
  all: rewrite ?Ha, ?Hr, ?Hm, ?Hp, ?app_nil_r; cbn [app].
  all: repeat split; reflexivity.
Qed.

Lemma mode_crop img box : mode (cropped img box) = mode img.
Proof. destruct box as [[[x1 y1] x2] y2]. reflexivity. Qed.

Lemma size_crop img x1 y1 x2 y2 :
  size (cropped img (x1, y1, x2, y2)) = (x2 - x1, y2 - y1).
Proof. reflexivity. Qed.

Lemma tile_event_announces w h g e :
  is_tile_event e = true -> announces_plan w h g e.
Proof. intros He level lw lh cols rows total ->. discriminate. Qed.

Lemma generate_level_announces env img level w h :
  Steady (announces_plan w h) (_generate_level env img level w h).
Proof.
  intros g hist. unfold _generate_level.
  repeat walk.
  all: try walk_call Hloop.
  all: repeat walk.
  all: try match goal with
       | |- context [tile_loop ?e ?i ?d ?a ?b ?c ?r ?g ?h] =>
           destruct (steady_tile_loop_class e i d a b c r g h) as [Hg Hc];
           rewrite ?Hg
       end.
  all: split; [reflexivity |].
  all: repeat first [apply Forall_app; split | apply Forall_cons
                    | apply Forall_nil].
  all: try (eapply Forall_impl; [| exact Hc]; intros;
            apply tile_event_announces; assumption).
  all: intros ? ? ? ? ? ? [=]; subst.
  all: unfold planned_grid.
  all: repeat match goal with
         | H : _ = Ok _ |- _ => rewrite H; clear H; simpl result_bind
         end.
  all: split; reflexivity.
Qed.

(** In an environment where no call raises, a level whose plan exists
    is generated to the end. *)
Lemma grid_boxes_valid g lw lh cols rows col row :
  tile_size g <> 0 -> 0 <= overlap g -> 0 <= lw -> 0 <= lh ->
  ceil_div lw (tile_size g) = Ok cols ->
  ceil_div lh (tile_size g) = Ok rows ->
  In col (py_range cols) -> In row (py_range rows) ->
  valid_box (clamp_box (crop_box g col row) lw lh) = true.
Proof.
  intros Hts Hov Hlw Hlh Hc Hr Hcol Hrow.
  apply py_range_In in Hcol. apply py_range_In in Hrow.
  rewrite ceil_div_ok in Hc, Hr by assumption.
  injection Hc as Hc. injection Hr as Hr.
  destruct (Z.lt_trichotomy (tile_size g) 0) as [Hneg | [H0 | Hpos]];
    [| contradiction |].
  - exfalso.
    assert (0 <= - lw / tile_size g).
    { rewrite <- (Z.opp_involutive (tile_size g)) at 1.
      rewrite Z.div_opp_opp by lia. apply Z.div_pos; lia. }
    lia.
  - pose proof (neg_floor_is_ceil lw _ Hpos) as Hcw.
    pose proof (neg_floor_is_ceil lh _ Hpos) as Hch.
    unfold is_ceil in Hcw, Hch. rewrite Hc in Hcw. rewrite Hr in Hch.
    unfold valid_box, clamp_box, crop_box.
    apply andb_true_iff. split; apply negb_true_iff, Z.ltb_ge; nia.
Qed.

Lemma save_tile_returns env img dir col row lw lh g h :
  fault_free env ->
  valid_box (clamp_box (crop_box g col row) lw lh) = true ->
  value (_save_tile env img dir col row lw lh g h) = Ok tt /\
  self_after (_save_tile env img dir col row lw lh g h) = g.
Proof.
  intros Hff Hbox. unfold _save_tile. exec.
  rewrite (crop_valid _ _ Hbox). exec.
  destruct (String.eqb (format g) "jpeg");
    [destruct (negb (mode_in _ _)) | destruct (String.eqb (format g) "png")];
    unfold bind, ret, convert, perform; cbn [value self_after events];
    rewrite ?Hff; cbn [value self_after events]; rewrite ?Hff;
    split; reflexivity.
Qed.

Lemma tile_loop_returns env img dir lw lh cols rows g h :
  fault_free env ->
  (forall col row, In col (py_range cols) -> In row (py_range rows) ->
     valid_box (clamp_box (crop_box g col row) lw lh) = true) ->
  exists n, value (tile_loop env img dir lw lh cols rows g h) = Ok n.
Proof.
  intros Hff Hgrid. unfold tile_loop. apply for_each_returns.
  intros acc row h' Hrow.
  assert (Hstep : forall acc col h, In col (py_range cols) ->
             exists b,
               value (tile_step env img dir lw lh (cols * rows) row acc col g h)
                 = Ok b /\
               self_after
                 (tile_step env img dir lw lh (cols * rows) row acc col g h)
                 = g).
  { intros acc' col h'' Hcol. unfold tile_step. rewrite bind_run.
    destruct (save_tile_returns env img dir col row lw lh g h'' Hff
                (Hgrid col row Hcol Hrow))
      as [Hv Hg].
    rewrite Hv, Hg.
    destruct (((acc' + 1) mod 50 =? 0) || (acc' + 1 =? cols * rows));
      exec; eauto. }
  destruct (for_each_returns (py_range cols)
              (tile_step env img dir lw lh (cols * rows) row) g
              (fun acc x h Hin => Hstep acc x h Hin) acc h') as [b Hb].
  exists b. split; [assumption |].
  destruct (steady_for_each (fun _ _ => True) (py_range cols)
              (tile_step env img dir lw lh (cols * rows) row)) with
    (acc := acc) (g := g) (h := h') as [Hg _]; [| assumption].
  intros acc' col. unfold tile_step, _save_tile, convert.
  steady_tac ltac:(exact I).
Qed.



Lemma generate_level_returns env img level w h g hist lw lh cols rows :
  fault_free env ->
  (forall col row, In col (py_range cols) -> In row (py_range rows) ->
     valid_box (clamp_box (crop_box g col row) lw lh) = true) ->
  planned_grid g w h level = Ok (lw, lh, cols, rows) ->
  value (_generate_level env img level w h g hist) = Ok (cols * rows).
Proof.
  intros Hff Hgrid. revert Hgrid. unfold planned_grid, _generate_level.
  walk.
  destruct (ceil_quot w _) as [a |] eqn:E1; [| discriminate].
  destruct (ceil_quot h _) as [a0 |] eqn:E2; [| discriminate].
  simpl result_bind.
  destruct (ceil_div a _) as [a1 |] eqn:E3; [| discriminate].
  destruct (ceil_div a0 _) as [a2 |] eqn:E4; [| discriminate].
  simpl result_bind. intros Hgrid [= <- <- <- <-].
  do 2 step.
  walk; walk; rewrite ?Hff in *; try discriminate.
  all: rewrite E3; step; rewrite E4; step; step.
  all: walk; rewrite ?Hff in *; try discriminate.
  all: match goal with
       | |- context [bind (tile_loop ?e ?i ?d ?a ?b ?c ?r) ?k ?g ?h] =>
           destruct (tile_loop_returns e i d a b c r g h Hff Hgrid)
             as [n Hn];
           destruct (steady_tile_loop_class e i d a b c r g h) as [Hg _];
           step_by (tile_loop e i d a b c r) k g h (Ok n) Hn
       end.
  all: walk; step; reflexivity.
Qed.

(** *** Tiles are cut from the working image, in its mode *)

Lemma level_work_print env img m : level_work env img (Print m).
Proof.
  split; [reflexivity | split; [reflexivity |]].
  intros p t enc [H | [x H]]; discriminate.
Qed.

Lemma level_work_other env img a :
  is_conversion (Did a) = false -> is_write (Did a) = false ->
  (forall p t enc, a <> SaveTile p t enc) ->
  level_work env img (Did a) /\ forall e, level_work env img (Failed a e).
Proof.
  intros Hc Hw Hs. split; [| intros e].
  - split; [assumption | split; [assumption |]].
    intros p t enc [H | [x H]]; inversion H; subst.
    exfalso. eapply Hs. reflexivity.
  - split; [destruct a; simpl in *; congruence |].
    split; [destruct a; simpl in *; congruence |].
    intros p t enc [H | [x H]]; inversion H; subst.
    exfalso. eapply Hs. reflexivity.
Qed.

Lemma level_work_save env img limg box p enc :
  limg = img \/ (exists w h, limg = resized env img w h) ->
  level_work env img (Did (SaveTile p (cropped limg box) enc)) /\
  forall e, level_work env img (Failed (SaveTile p (cropped limg box) enc) e).
Proof.
  intros Hl.
  assert (Ht : mode (cropped limg box) = mode img /\
               cut_from env img (cropped limg box)).
  { rewrite mode_crop. split.
    - destruct Hl as [-> | (w & h & ->)]; reflexivity.
    - exists box. destruct Hl as [-> | (w & h & ->)]; eauto. }
  split; [| intros e]; (split; [reflexivity | split; [reflexivity |]]);
    intros p' t enc' [H | [x H]]; inversion H; subst; exact Ht.
Qed.

Lemma save_tile_work env img limg dir col row lw lh :
  mode_in (mode img) ["RGB"; "L"] = true ->
  limg = img \/ (exists w h, limg = resized env img w h) ->
  Steady (fun _ => level_work env img)
    (_save_tile env limg dir col row lw lh).
Proof.
  intros Hm Hl g h. unfold _save_tile. walk.
  walk_crop; [| split; [reflexivity | constructor]]. cbv zeta.
  assert (Hmode : mode limg = mode img)
    by (destruct Hl as [-> | (w & h' & ->)]; reflexivity).
  rewrite mode_crop, Hmode, Hm.
  change (negb true) with false. cbv iota.
  destruct (String.eqb (format g) "jpeg");
    [walk | destruct (String.eqb (format g) "png")];
    unfold perform;
    match goal with
    | |- context [fault ?e ?hh ?a] => destruct (fault e hh a)
    end; cbn [value self_after events app];
    (split; [reflexivity |]);
    repeat first [apply Forall_cons | apply Forall_nil];
    apply (level_work_save env img limg _ _ _ Hl).
Qed.

Lemma tile_loop_work env img limg dir lw lh cols rows :
  mode_in (mode img) ["RGB"; "L"] = true ->
  limg = img \/ (exists w h, limg = resized env img w h) ->
  Steady (fun _ => level_work env img)
    (tile_loop env limg dir lw lh cols rows).
Proof.
  intros Hm Hl. unfold tile_loop.
  apply steady_for_each; intros acc row.
  apply steady_for_each; intros acc' col.
  unfold tile_step.
  apply steady_bind; [apply save_tile_work; assumption | intros _].
  steady_tac ltac:(apply level_work_print).
Qed.

Lemma generate_level_work env img level w h :
  mode_in (mode img) ["RGB"; "L"] = true ->
  Steady (fun _ => level_work env img) (_generate_level env img level w h).
Proof.
  intros Hm g hist. unfold _generate_level.
  repeat walk.
  all: try walk_call Hloop.
  all: repeat walk.
  all: try match goal with
       | |- context [tile_loop ?e ?i ?d ?a ?b ?c ?r ?g ?h] =>
           let Hw := fresh "Hw" in
           assert (Hw : Steady (fun _ => level_work env img)
                          (tile_loop e i d a b c r))
             by (apply tile_loop_work; [assumption |];
                 first [left; reflexivity | right; eauto]);
           destruct (Hw g h) as [Hg Hc]; rewrite ?Hg
       end.
  all: split; [reflexivity |].
  all: repeat first [apply Forall_app; split | apply Forall_cons
                    | apply Forall_nil].
  all: try exact Hc; try apply level_work_print;
    try (apply level_work_other; try reflexivity; discriminate).
Qed.

(** *** The loop over the levels *)

Lemma tidy_level_loop env img w h : Tidy (level_loop env img w h).
Proof. unfold level_loop. tidy_tac. Qed.
#[local] Hint Resolve tidy_level_loop : tidy.

Lemma level_loop_steady P env img w h :
  (forall level, Steady P (_generate_level env img level w h)) ->
  Steady P (level_loop env img w h).
Proof.
  intros Hl g hist. unfold level_loop. step. cbn [app].
  apply steady_for_each. intros acc level.
  apply steady_bind; [apply Hl | intros a; apply steady_ret].
Qed.

Lemma level_step_ok env img w h g total level hist b :
  value ((tiles_in_level <- _generate_level env img level w h ;;
          ret (total + tiles_in_level)) g hist) = Ok b ->
  self_after ((tiles_in_level <- _generate_level env img level w h ;;
               ret (total + tiles_in_level)) g hist) = g /\
  events ((tiles_in_level <- _generate_level env img level w h ;;
           ret (total + tiles_in_level)) g hist)
    = events (_generate_level env img level w h g hist) /\
  exists t, value (_generate_level env img level w h g hist) = Ok t.
Proof.
  intros Hv. apply bind_ok in Hv. destruct Hv as (t & Ht & _ & He & Hs).
  destruct (generate_level_ok _ _ _ _ _ _ _ _ Ht) as [Hg _].
  rewrite Hs, He. cbn [ret value self_after events].
  rewrite app_nil_r. eauto.
Qed.

Lemma level_loop_ok env img w h g hist total :
  value (level_loop env img w h g hist) = Ok total ->
  self_after (level_loop env img w h g hist) = g /\
  announced (events (level_loop env img w h g hist))
    = flat_map (planned_announcement g w h) (py_range (max_level g + 1)) /\
  resizes (events (level_loop env img w h g hist))
    = flat_map (planned_resize g w h) (py_range (max_level g + 1)) /\
  saved_paths (events (level_loop env img w h g hist))
    = pyramid_paths g w h /\
  made_dirs (events (level_loop env img w h g hist))
    = map (fun level => path_join (tiles_dir g) (str level))
        (py_range (max_level g + 1)).
Proof.
  unfold level_loop. step. cbn [app].
  generalize (hist ++ [])%list. clear hist. intros hist Hv.
  set (body := fun (total_tiles level : Z) =>
                 tiles_in_level <- _generate_level env img level w h ;;
                 ret (total_tiles + tiles_in_level)) in *.
  assert (Hbody : forall X (f : event -> list X) (F : Z -> list X),
             (forall level hist t,
                 value (_generate_level env img level w h g hist) = Ok t ->
                 flat_map f (events (_generate_level env img level w h g hist))
                   = F level) ->
             self_after (for_each (py_range (max_level g + 1)) body 0 g hist)
               = g /\
             flat_map f
               (events (for_each (py_range (max_level g + 1)) body 0 g hist))
               = flat_map F (py_range (max_level g + 1))).
  { intros X f F HF.
    refine (for_each_ok f F _ body g _ _ _ _ Hv).
    intros acc level h' b _ Hb.
    destruct (level_step_ok _ _ _ _ _ _ _ _ _ Hb) as (Hg & He & t & Ht).
    split; [exact Hg |]. unfold body. rewrite He. eapply HF; eassumption. }
  split; [apply (Hbody _ (fun _ => @nil unit) (fun _ => []));
          intros; apply flat_map_nil; apply Forall_forall; reflexivity |].
  repeat split.
  - apply Hbody. intros level hist' t Ht.
    destruct (generate_level_ok _ _ _ _ _ _ _ _ Ht)
      as (_ & lw & lh & c & r & Hp & _ & Ha & _).
    unfold planned_announcement. rewrite Hp. exact Ha.
  - apply Hbody. intros level hist' t Ht.
    destruct (generate_level_ok _ _ _ _ _ _ _ _ Ht)
      as (_ & lw & lh & c & r & Hp & _ & _ & Hr & _).
    unfold planned_resize. rewrite Hp. exact Hr.
  - apply Hbody. intros level hist' t Ht.
    destruct (generate_level_ok _ _ _ _ _ _ _ _ Ht)
      as (_ & lw & lh & c & r & _ & _ & _ & _ & Hs & _).
    exact Hs.
  - rewrite <- flat_map_singleton.
    apply Hbody. intros level hist' t Ht.
    destruct (generate_level_ok _ _ _ _ _ _ _ _ Ht)
      as (_ & lw & lh & c & r & _ & _ & _ & _ & _ & Hm).
    exact Hm.
Qed.

Lemma level_loop_returns env img w h g hist :
  fault_free env -> tile_size g <> 0 -> 0 <= overlap g -> 0 <= w -> 0 <= h ->
  exists total, value (level_loop env img w h g hist) = Ok total.
Proof.
  intros Hff Ht Hov Hw Hh. unfold level_loop. step.
  apply for_each_returns. intros acc level h' Hin.
  apply py_range_In in Hin.
  pose proof (planned_grid_ok g w h level ltac:(lia) Ht) as Hp.
  assert (Hpow : 0 < 2 ^ (max_level g - level))
    by (apply Z.pow_pos_nonneg; lia).
  assert (Hlw : 0 <= - (- w / 2 ^ (max_level g - level))).
  { pose proof (neg_floor_is_ceil w _ Hpow) as Hc. unfold is_ceil in Hc. nia. }
  assert (Hlh : 0 <= - (- h / 2 ^ (max_level g - level))).
  { pose proof (neg_floor_is_ceil h _ Hpow) as Hc. unfold is_ceil in Hc. nia. }
  assert (Hgrid : forall col row,
             In col (py_range
                       (- (- - (- w / 2 ^ (max_level g - level))
                           / tile_size g))) ->
             In row (py_range
                       (- (- - (- h / 2 ^ (max_level g - level))
                           / tile_size g))) ->
             valid_box
               (clamp_box (crop_box g col row)
                  (- (- w / 2 ^ (max_level g - level)))
                  (- (- h / 2 ^ (max_level g - level)))) = true).
  { intros col row. apply grid_boxes_valid; try assumption;
      apply ceil_div_ok; assumption. }
  pose proof (generate_level_returns env img level w h g h' _ _ _ _ Hff
                Hgrid Hp) as Hv.
  destruct (generate_level_ok _ _ _ _ _ _ _ _ Hv) as [Hg _].
  rewrite bind_run, Hv. cbn [ret value self_after events].
  rewrite Hg. eauto.
Qed.

(** *** Normalisation *)

Lemma tidy_normalise env img : Tidy (normalise env img).
Proof. unfold normalise, convert. tidy_tac. Qed.
#[local] Hint Resolve tidy_normalise : tidy.

Lemma normalised_mode env img :
  mode_in (mode (normalised env img)) ["RGB"; "L"] = true.
Proof.
  unfold normalised, mode_in. simpl existsb.
  destruct (String.eqb (mode img) "RGB") eqn:E1;
    destruct (String.eqb (mode img) "RGBA") eqn:E2;
    destruct (String.eqb (mode img) "L") eqn:E3; simpl;
    rewrite ?E1, ?E3; reflexivity.
Qed.

Lemma normalised_size env img : size (normalised env img) = size img.
Proof.
  unfold normalised.
  destruct (negb _); [reflexivity |].
  destruct (String.eqb _ _); reflexivity.
Qed.

Lemma normalise_run env img g hist :
  self_after (normalise env img g hist) = g /\
  Forall before_levels (events (normalise env img g hist)) /\
  conversions (events (normalise env img g hist)) = normalising_call img /\
  (forall img', value (normalise env img g hist) = Ok img' ->
                img' = normalised env img).
Proof.
  unfold normalise, normalised, normalising_call.
  destruct (negb (mode_in (mode img) ["RGB"; "RGBA"; "L"]));
    [| destruct (String.eqb (mode img) "RGBA")]; exec;
    repeat split; repeat constructor; congruence.
Qed.

(** *** The descriptor *)

Lemma tidy_descriptor env w h : Tidy (_create_dzi_descriptor env w h).
Proof. unfold _create_dzi_descriptor. tidy_tac. Qed.
#[local] Hint Resolve tidy_descriptor : tidy.

Lemma tidy_generate env : Tidy (generate env).
Proof. unfold generate, generate_opened. tidy_tac. Qed.

(** *** The run of [generate] once the image is open *)

Lemma descriptor_ok env w h g hist :
  fault env hist
    (WriteText (dzi_file g)
       (dzi_content (format g) (overlap g) (tile_size g) h w
          (basename (tiles_dir g)))) = None ->
  _create_dzi_descriptor env w h g hist
    = {| value := Ok tt; self_after := g;
         events := [Did (WriteText (dzi_file g)
                           (dzi_content (format g) (overlap g) (tile_size g)
                              h w (basename (tiles_dir g))));
                    Print (MsgDescriptor (dzi_file g))] |}.
Proof.
  intros Hf. unfold _create_dzi_descriptor.
  rewrite bind_run. cbn [get_self value self_after events].
  rewrite bind_run, app_nil_r, (perform_ok _ _ _ _ Hf). reflexivity.
Qed.

Lemma descriptor_fail env w h g hist e :
  fault env hist
    (WriteText (dzi_file g)
       (dzi_content (format g) (overlap g) (tile_size g) h w
          (basename (tiles_dir g)))) = Some e ->
  _create_dzi_descriptor env w h g hist
    = {| value := Raise e; self_after := g;
         events := [Failed (WriteText (dzi_file g)
                              (dzi_content (format g) (overlap g)
                                 (tile_size g) h w (basename (tiles_dir g))))
                      e] |}.
Proof.
  intros Hf. unfold _create_dzi_descriptor.
  rewrite bind_run. cbn [get_self value self_after events].
  rewrite bind_run, app_nil_r, (perform_fail _ _ _ _ _ Hf). reflexivity.
Qed.

Lemma level_loop_self env img w h g hist :
  self_after (level_loop env img w h g hist) = g.
Proof.
  apply (level_loop_steady (announces_plan w h) env img w h).
  intros level. apply generate_level_announces.
Qed.

Lemma generate_opened_cases_eta env img g hist :
  exists hn hl,
    opened_run env img g
      (set_max_level g (Z.log2_up (Z.max (fst (size img)) (snd (size img)))))
      (normalise env img g hn)
      (level_loop env (normalised env img) (fst (size img)) (snd (size img))
         (set_max_level g
            (Z.log2_up (Z.max (fst (size img)) (snd (size img))))) hl)
      {| value := value (generate_opened env img g hist);
         self_after := self_after (generate_opened env img g hist);
         events := events (generate_opened env img g hist) |}.
Proof.
  unfold generate_opened. destruct (size img) as [w h] eqn:Hsize.
  cbn [fst snd].
  do 2 step.
  match goal with
  | |- context [bind (normalise ?e ?i) ?k ?g ?h] =>
      destruct (normalise_run e i g h) as (Hnself & _ & _ & Hnimg);
      exists h
  end.
  walk_call Hnorm; rewrite ?Hnself.
  2: { exists []. eapply StopNormalise; try reflexivity; try eassumption.
       unfold opening_prints. rewrite ?Hsize. reflexivity. }
  rewrite (Hnimg _ eq_refl) in *. clear Hnimg.
  unfold ceil_log2. destruct (Z.leb_spec (Z.max w h) 0) as [Hle | Hlt].
  { step. exists []. eapply StopLog2; rewrite ?Hsize; cbn [fst snd];
      try reflexivity; try eassumption.
    unfold opening_prints. rewrite ?Hsize, ?app_nil_r. reflexivity. }
  do 7 step.
  cbn [set_max_level max_level tile_size overlap tiles_dir dzi_file format].
  walk.
  { exists []. eapply StopMakeDirs; rewrite ?Hsize; cbn [fst snd];
      try reflexivity; try eassumption; try (eexists; eassumption).
    unfold opening_prints, plan_prints. rewrite ?Hsize.
    cbn [set_max_level max_level tile_size overlap tiles_dir dzi_file format
         fst snd app].
    repeat rewrite <- app_assoc. reflexivity. }
  match goal with
  | |- context [bind (level_loop ?e ?i ?w ?h) ?k ?g ?hh] => exists hh
  end.
  walk_call Hloop; rewrite ?level_loop_self.
  2: { eapply StopLevels; rewrite ?Hsize; cbn [fst snd];
       try reflexivity; try eassumption.
       unfold opening_prints, plan_prints. rewrite ?Hsize.
       cbn [set_max_level max_level tile_size overlap tiles_dir dzi_file
            format fst snd app].
       repeat rewrite <- app_assoc. reflexivity. }
  match goal with
  | |- context [bind (_create_dzi_descriptor ?e ?w ?h) ?k ?g ?hh] =>
      destruct (fault e hh
                  (WriteText (dzi_file g)
                     (dzi_content (format g) (overlap g) (tile_size g) h w
                        (basename (tiles_dir g))))) as [x |] eqn:Hw;
      [ step_by (_create_dzi_descriptor e w h) k g hh (@Raise unit x)
          (f_equal value (descriptor_fail e w h g hh x Hw));
        rewrite ?(descriptor_fail e w h g hh x Hw)
      | step_by (_create_dzi_descriptor e w h) k g hh (Ok tt)
          (f_equal value (descriptor_ok e w h g hh Hw));
        rewrite ?(descriptor_ok e w h g hh Hw) ]
  end; cbn [value self_after events].
  - eapply StopDescriptor; rewrite ?Hsize; cbn [fst snd];
      try reflexivity; try eassumption;
      try (unfold descriptor_text; rewrite ?Hsize; cbn [fst snd];
           eexists; eassumption).
    unfold opening_prints, plan_prints, descriptor_text. rewrite ?Hsize.
    cbn [set_max_level max_level tile_size overlap tiles_dir dzi_file
         format fst snd app].
    repeat rewrite <- app_assoc. reflexivity.
  - do 7 step.
    eapply Completed; rewrite ?Hsize; cbn [fst snd];
      try reflexivity; try eassumption.
    unfold opening_prints, plan_prints, closing_prints, descriptor_text.
    rewrite ?Hsize.
    cbn [set_max_level max_level tile_size overlap tiles_dir dzi_file
         format fst snd app].
    repeat rewrite <- app_assoc. reflexivity.
Qed.

Lemma generate_opened_cases env img g hist :
  exists hn hl,
    opened_run env img g
      (set_max_level g (Z.log2_up (Z.max (fst (size img)) (snd (size img)))))
      (normalise env img g hn)
      (level_loop env (normalised env img) (fst (size img)) (snd (size img))
         (set_max_level g
            (Z.log2_up (Z.max (fst (size img)) (snd (size img))))) hl)
      (generate_opened env img g hist).
Proof.
  pose proof (generate_opened_cases_eta env img g hist) as H.
  destruct (generate_opened env img g hist). exact H.
Qed.

Lemma generate_cases env g hist :
  (exists e,
      image_open env (image_path g) = Raise e /\
      value (generate env g hist) = Ok false /\
      self_after (generate env g hist) = g /\
      events (generate env g hist)
        = (intro_prints g ++ [Print (MsgOpenError e)])%list) \/
  (exists img hi,
      image_open env (image_path g) = Ok img /\
      value (generate env g hist) = value (generate_opened env img g hi) /\
      self_after (generate env g hist)
        = self_after (generate_opened env img g hi) /\
      events (generate env g hist)
        = (intro_prints g ++ events (generate_opened env img g hi))%list).
Proof.
  unfold generate. repeat step.
  destruct (image_open env (image_path g)) as [img | e].
  - right. exists img. eexists. repeat split; try reflexivity.
  - left. exists e. repeat step. repeat split; reflexivity.
Qed.

(** *** What the phases of a run leave out *)

Lemma before_levels_quiet l :
  Forall before_levels l ->
  written l = [] /\ saved_paths l = [] /\ announced l = [] /\
  resizes l = [] /\ made_dirs l = [] /\ failed_tiles l = [].
Proof.
  intros H. repeat split; apply flat_map_nil;
    (eapply Forall_impl; [| exact H]); intros [m | a | a e] [Hl Hw];
    try destruct m; try destruct a; simpl in *; congruence.
Qed.

Lemma level_work_quiet env img l :
  Forall (level_work env img) l -> written l = [] /\ conversions l = [].
Proof.
  intros H. split; apply flat_map_nil;
    (eapply Forall_impl; [| exact H]); intros [m | a | a e] (Hc & Hw & _);
    try destruct a; simpl in *; congruence.
Qed.

Lemma level_loop_work env img w h g hist :
  mode_in (mode img) ["RGB"; "L"] = true ->
  Forall (level_work env img) (events (level_loop env img w h g hist)).
Proof.
  intros Hm.
  apply (level_loop_steady (fun _ => level_work env img) env img w h).
  intros level. apply generate_level_work. exact Hm.
Qed.

Lemma written_app l1 l2 : written (l1 ++ l2) = (written l1 ++ written l2)%list.
Proof. apply flat_map_app. Qed.

Lemma saved_paths_app l1 l2 :
  saved_paths (l1 ++ l2) = (saved_paths l1 ++ saved_paths l2)%list.
Proof. apply flat_map_app. Qed.

(** A run that does not return [True] wrote no descriptor; a run that
    returns [True] wrote it once, after every tile of the pyramid and
    before nothing but prints. *)
Lemma generate_shape env g hist :
  (value (generate env g hist) <> Ok true /\
   written (events (generate env g hist)) = []) \/
  (exists img X Y,
      image_open env (image_path g) = Ok img /\
      value (generate env g hist) = Ok true /\
      self_after (generate env g hist)
        = set_max_level g
            (Z.log2_up (Z.max (fst (size img)) (snd (size img)))) /\
      0 < Z.max (fst (size img)) (snd (size img)) /\
      events (generate env g hist)
        = (X ++ Did (WriteText (dzi_file g) (descriptor_text g img)) :: Y)%list /\
      written X = [] /\ written Y = [] /\ saved_paths Y = [] /\
      no_failure (events (generate env g hist)) /\
      saved_paths X
        = pyramid_paths (self_after (generate env g hist))
            (fst (size img)) (snd (size img))).
Proof.
  destruct (generate_cases env g hist)
    as [(e & Ho & Hv & Hs & He) | (img & hi & Ho & Hv & Hs & He)].
  { left. rewrite Hv, He. split; [discriminate | reflexivity]. }
  destruct (generate_opened_cases env img g hi) as (hn & hl & Hrun).
  destruct (normalise_run env img g hn) as (_ & Hnb & _ & _).
  apply before_levels_quiet in Hnb.
  destruct Hnb as (Hnw & Hns & _).
  pose proof (level_loop_work env (normalised env img) (fst (size img))
                (snd (size img))
                (set_max_level g
                   (Z.log2_up (Z.max (fst (size img)) (snd (size img)))))
                hl (normalised_mode env img)) as Hlw.
  apply level_work_quiet in Hlw. destruct Hlw as [Hlw _].
  rewrite Hv, Hs, He.
  destruct Hrun as [e Hn Hvo Hso Heo | Hn Hle Hvo Hso Heo
                   | e Hn Hlt Hf Hvo Hso Heo | e Hn Hlt Hl Hvo Hso Heo
                   | total e Hn Hlt Hl Hf Hvo Hso Heo
                   | total Hn Hlt Hl Hvo Hso Heo].
  1-5: left; rewrite Hvo, Heo; split; [discriminate |];
    repeat rewrite written_app; rewrite ?Hnw, ?Hlw; reflexivity.
  right.
  exists img,
    (intro_prints g ++ opening_prints img ++ events (normalise env img g hn)
       ++ plan_prints
            (set_max_level g
               (Z.log2_up (Z.max (fst (size img)) (snd (size img)))))
       ++ [Did (MakeDirs (tiles_dir g))]
       ++ events
            (level_loop env (normalised env img) (fst (size img))
               (snd (size img))
               (set_max_level g
                  (Z.log2_up (Z.max (fst (size img)) (snd (size img)))))
               hl))%list,
    (closing_prints g total).
  destruct (level_loop_ok _ _ _ _ _ _ _ Hl) as (_ & _ & _ & Hsp & _).
  assert (Htidy : tidy (generate env g hist)) by apply tidy_generate.
  repeat split; try assumption; try reflexivity.
  - rewrite Heo. repeat rewrite <- app_assoc. reflexivity.
  - repeat rewrite written_app. rewrite Hnw, Hlw. reflexivity.
  - rewrite <- He. eapply tidy_ok; [exact Htidy |].
    rewrite Hv. exact Hvo.
  - rewrite Hso. repeat rewrite saved_paths_app. rewrite Hns, Hsp.
    reflexivity.
Qed.



Lemma failed_tiles_no_failure l : no_failure l -> failed_tiles l = [].
Proof.
  intros H. apply flat_map_nil. apply Forall_forall. intros e He.
  unfold no_failure in H. rewrite forallb_forall in H. specialize (H e He).
  destruct e as [m | a | a x]; try reflexivity. discriminate.
Qed.

(** * The claims on the generator *)

(** Finding an event in an evaluated record. *)
Ltac find_in := repeat first [left; reflexivity | right].

(** C7, as stated, fails: the run does not say which tile failed.  Two
    runs on the same image, one failing on tile (0, 0) of level 9 and
    the other on tile (1, 0) of that level, raise the same exception
    and print the same lines; so nothing that is computed from the
    report of a run names the failed tile. *)
Lemma failed_tile_not_reported :
  report (run_generate
            (sample_env sample_image
               (fault_at "out_files/9/0_0.jpeg" MemoryError))
            sample_generator)
    = report (run_generate
                (sample_env sample_image
                   (fault_at "out_files/9/1_0.jpeg" MemoryError))
                sample_generator) /\
  failed_tiles (events (run_generate
                          (sample_env sample_image
                             (fault_at "out_files/9/0_0.jpeg" MemoryError))
                          sample_generator))
    = ["out_files/9/0_0.jpeg"] /\
  failed_tiles (events (run_generate
                          (sample_env sample_image
                             (fault_at "out_files/9/1_0.jpeg" MemoryError))
                          sample_generator))
    = ["out_files/9/1_0.jpeg"] /\
  ~ run_reports_failed_tile.
Proof.
  assert (Hr : report (run_generate
                         (sample_env sample_image
                            (fault_at "out_files/9/0_0.jpeg" MemoryError))
                         sample_generator)
               = report (run_generate
                           (sample_env sample_image
                              (fault_at "out_files/9/1_0.jpeg" MemoryError))
                           sample_generator))
    by (vm_compute; reflexivity).
  assert (Ha : failed_tiles
                 (events (run_generate
                            (sample_env sample_image
                               (fault_at "out_files/9/0_0.jpeg" MemoryError))
                            sample_generator))
               = ["out_files/9/0_0.jpeg"])
    by (vm_compute; reflexivity).
  assert (Hb : failed_tiles
                 (events (run_generate
                            (sample_env sample_image
                               (fault_at "out_files/9/1_0.jpeg" MemoryError))
                            sample_generator))
               = ["out_files/9/1_0.jpeg"])
    by (vm_compute; reflexivity).
  split; [exact Hr | split; [exact Ha | split; [exact Hb |]]].
  intros [name Hname].
  pose proof (Hname (sample_env sample_image
                       (fault_at "out_files/9/0_0.jpeg" MemoryError))
                sample_generator) as H1.
  pose proof (Hname (sample_env sample_image
                       (fault_at "out_files/9/1_0.jpeg" MemoryError))
                sample_generator) as H2.
  rewrite Hr, <- H2, Hb in H1. rewrite Ha in H1.
  apply (f_equal (fun l => match l with
                           | [s] => String.eqb s "out_files/9/0_0.jpeg"
                           | _ => false
                           end)) in H1.
  vm_compute in H1. discriminate H1.
Qed.

(** C7, amended.  When the save of a tile raises, the failure is fatal
    to the whole run and surfaces at once: [generate] raises the very
    exception that the save raised, the failed save is the last thing
    the run did, no call before it had failed, and no descriptor was
    written.  (The run adds nothing to the exception.) *)
Theorem tile_failure_is_fatal env g hist p t enc e :
  In (Failed (SaveTile p t enc) e) (events (generate env g hist)) ->
  value (generate env g hist) = Raise e /\
  (exists X,
      events (generate env g hist) = (X ++ [Failed (SaveTile p t enc) e])%list /\
      no_failure X) /\
  written (events (generate env g hist)) = [].
Proof.
  intros Hin.
  destruct (tidy_failed _ _ _ (tidy_generate env g hist) Hin)
    as (Hr & pre & Hpre & Hnf).
  split; [exact Hr | split; [exists pre; split; assumption |]].
  destruct (generate_shape env g hist)
    as [[_ Hw] | (img & X0 & Y0 & _ & Hv & _)]; [exact Hw | congruence].
Qed.

Lemma tile_failure_is_fatal_witness :
  let o := generate
             (sample_env sample_image
                (fault_at "out_files/9/1_0.jpeg" MemoryError))
             sample_generator [] in
  value o = Raise MemoryError /\
  (exists X,
      events o
        = (X ++ [Failed (SaveTile "out_files/9/1_0.jpeg"
                           (cropped sample_image (255, 0, 300, 200)) (JPEG 90))
                   MemoryError])%list /\
      no_failure X) /\
  written (events o) = [].
Proof.
  apply (tile_failure_is_fatal
           (sample_env sample_image
              (fault_at "out_files/9/1_0.jpeg" MemoryError))
           sample_generator []).
  vm_compute. find_in.
Defined.

Lemma ceil_div_grid lw ts cols col :
  0 < ts -> ceil_div lw ts = Ok cols -> 0 <= col < cols ->
  col * ts < lw /\ 0 < lw.
Proof.
  intros Hts Hc Hcol. rewrite ceil_div_ok in Hc by lia.
  inversion Hc as [Hcols]. clear Hc.
  pose proof (neg_floor_is_ceil lw ts Hts) as Hceil.
  rewrite Hcols in Hceil. unfold is_ceil in Hceil. nia.
Qed.

Lemma save_tile_saves env img dir col row lw lh g hist p t enc :
  In (Did (SaveTile p t enc))
     (events (_save_tile env img dir col row lw lh g hist)) \/
  (exists x, In (Failed (SaveTile p t enc) x)
               (events (_save_tile env img dir col row lw lh g hist))) ->
  p = path_join dir (tile_filename g col row) /\
  (t = cropped img (clamp_box (crop_box g col row) lw lh) \/
   t = converted env (cropped img (clamp_box (crop_box g col row) lw lh)) "RGB").
Proof.
  unfold _save_tile. walk.
  walk_crop; [| intros [[] | [x []]]]. cbv zeta.
  destruct (String.eqb (format g) "jpeg");
    [destruct (negb (mode_in _ _)); walk
    | destruct (String.eqb (format g) "png")];
    unfold perform;
    repeat match goal with
      | |- context [fault ?e ?hh ?a] => destruct (fault e hh a)
      end; cbn [value self_after events app In];
    intros [H | [x H]];
    repeat match goal with
      | H : _ \/ _ |- _ => destruct H
      | H : False |- _ => destruct H
      | H : Did _ = Did _ |- _ => inversion H; clear H; subst
      | H : Failed _ _ = Failed _ _ |- _ => inversion H; clear H; subst
      | H : Did _ = Failed _ _ |- _ => discriminate H
      | H : Failed _ _ = Did _ |- _ => discriminate H
      end; auto.
Qed.

(** What [_save_tile] does, for a box that [img.crop] refuses and for
    one that it accepts. *)
Lemma save_tile_refused env img dir col row lw lh g hist :
  valid_box (clamp_box (crop_box g col row) lw lh) = false ->
  value (_save_tile env img dir col row lw lh g hist) = Raise ValueError /\
  self_after (_save_tile env img dir col row lw lh g hist) = g /\
  events (_save_tile env img dir col row lw lh g hist) = [].
Proof.
  intros Hbox. unfold _save_tile. walk.
  walk_crop; [congruence |].
  destruct (crop_raise _ _ _ Hcrop) as [-> _]. repeat split; reflexivity.
Qed.

Lemma save_tile_fault_free env img dir col row lw lh g hist :
  fault_free env ->
  valid_box (clamp_box (crop_box g col row) lw lh) = true ->
  value (_save_tile env img dir col row lw lh g hist) = Ok tt /\
  saved (events (_save_tile env img dir col row lw lh g hist))
    = [(path_join dir (tile_filename g col row),
        if String.eqb (format g) "jpeg"
           && negb (mode_in (mode img) ["RGB"; "L"])
        then converted env
               (cropped img (clamp_box (crop_box g col row) lw lh)) "RGB"
        else cropped img (clamp_box (crop_box g col row) lw lh))].
Proof.
  intros Hff Hbox. unfold _save_tile. walk.
  walk_crop; [| destruct (crop_raise _ _ _ Hcrop); congruence].
  cbv zeta. rewrite mode_crop.
  destruct (String.eqb (format g) "jpeg");
    [destruct (negb (mode_in (mode img) ["RGB"; "L"])); walk
    | destruct (String.eqb (format g) "png")];
    unfold perform; rewrite ?Hff in *; try discriminate;
    cbn [value self_after events app andb saved flat_map];
    rewrite ?Hff; cbn [value self_after events app andb saved flat_map];
    split; reflexivity.
Qed.

(** C3.  The crop rectangle of the tile [(col, row)] is the rectangle
    of its content, grown by the overlap on every side, with its left
    and top raised to 0 and its right and bottom lowered to the width
    and height of the level: left and top are never negative, right
    and bottom never exceed the level.  For a tile of the grid (tile
    size positive, overlap not negative) this is the clamping of every
    coordinate to the level, the rectangle is not empty and is at most
    the tile size plus the two overlaps wide and high: edge tiles
    shrink.  This is the rectangle at which [_save_tile] cuts: when
    its right is left of its left, or its bottom above its top, the
    crop raises [ValueError] and nothing is saved; otherwise, in a run
    where no call raises, [_save_tile] returns after saving exactly one
    tile, under the name of the column and row, which is the level
    image cropped to this rectangle (converted to RGB when JPEG cannot
    take its mode) and has the size of the rectangle: nothing is
    padded.  In any run, a tile handed to the encoder is that one. *)
Theorem crop_rectangle_clamped env img dir col row lw lh g hist x1 y1 x2 y2 :
  clamp_box (crop_box g col row) lw lh = (x1, y1, x2, y2) ->
  (x1 = Z.max 0 (col * tile_size g - overlap g) /\
   y1 = Z.max 0 (row * tile_size g - overlap g) /\
   x2 = Z.min lw (col * tile_size g + tile_size g + overlap g) /\
   y2 = Z.min lh (row * tile_size g + tile_size g + overlap g)) /\
  (0 <= x1 /\ 0 <= y1 /\ x2 <= lw /\ y2 <= lh) /\
  (forall cols rows,
      0 < tile_size g -> 0 <= overlap g ->
      ceil_div lw (tile_size g) = Ok cols ->
      ceil_div lh (tile_size g) = Ok rows ->
      0 <= col < cols -> 0 <= row < rows ->
      x1 = clamp 0 lw (col * tile_size g - overlap g) /\
      y1 = clamp 0 lh (row * tile_size g - overlap g) /\
      x2 = clamp 0 lw (col * tile_size g + tile_size g + overlap g) /\
      y2 = clamp 0 lh (row * tile_size g + tile_size g + overlap g) /\
      x1 < x2 /\ y1 < y2 /\
      x2 - x1 <= tile_size g + 2 * overlap g /\
      y2 - y1 <= tile_size g + 2 * overlap g) /\
  (x2 < x1 \/ y2 < y1 ->
   value (_save_tile env img dir col row lw lh g hist) = Raise ValueError /\
   events (_save_tile env img dir col row lw lh g hist) = []) /\
  (x1 <= x2 -> y1 <= y2 -> fault_free env ->
   value (_save_tile env img dir col row lw lh g hist) = Ok tt /\
   exists t,
     saved (events (_save_tile env img dir col row lw lh g hist))
       = [(path_join dir (tile_filename g col row), t)] /\
     size t = (x2 - x1, y2 - y1) /\
     (t = cropped img (x1, y1, x2, y2) \/
      t = converted env (cropped img (x1, y1, x2, y2)) "RGB") /\
     (String.eqb (format g) "jpeg" && negb (mode_in (mode img) ["RGB"; "L"])
        = false ->
      t = cropped img (x1, y1, x2, y2))) /\
  (forall p t enc,
      In (Did (SaveTile p t enc))
         (events (_save_tile env img dir col row lw lh g hist)) \/
      (exists x, In (Failed (SaveTile p t enc) x)
                   (events (_save_tile env img dir col row lw lh g hist))) ->
      p = path_join dir (tile_filename g col row) /\
      size t = (x2 - x1, y2 - y1) /\
      (t = cropped img (x1, y1, x2, y2) \/
       t = converted env (cropped img (x1, y1, x2, y2)) "RGB")).
Proof.
  intros Hbox.
  assert (Hxy : (x1, y1, x2, y2)
                = (Z.max 0 (col * tile_size g - overlap g),
                   Z.max 0 (row * tile_size g - overlap g),
                   Z.min lw (col * tile_size g + tile_size g + overlap g),
                   Z.min lh (row * tile_size g + tile_size g + overlap g)))
    by (rewrite <- Hbox; reflexivity).
  injection Hxy as Hx1 Hy1 Hx2 Hy2.
  split; [auto |].
  split; [lia |].
  split; [| split; [| split]].
  - intros cols rows Hts Hov Hc Hr Hcol Hrow.
    destruct (ceil_div_grid _ _ _ _ Hts Hc Hcol) as [Hx Hlw].
    destruct (ceil_div_grid _ _ _ _ Hts Hr Hrow) as [Hy Hlh].
    unfold clamp. repeat split; nia.
  - intros Hbad.
    destruct (save_tile_refused env img dir col row lw lh g hist)
      as (Hv & _ & He); [| split; assumption].
    rewrite Hbox. unfold valid_box.
    destruct Hbad as [Hb | Hb]; apply Z.ltb_lt in Hb; rewrite Hb;
      [reflexivity | apply andb_false_r].
  - intros Hx Hy Hff.
    destruct (save_tile_fault_free env img dir col row lw lh g hist Hff)
      as [Hv Hs].
    { rewrite Hbox. unfold valid_box.
      apply andb_true_iff. split; apply negb_true_iff, Z.ltb_ge; assumption. }
    split; [exact Hv |]. rewrite Hbox in Hs.
    eexists. split; [exact Hs |].
    destruct (String.eqb (format g) "jpeg"
              && negb (mode_in (mode img) ["RGB"; "L"]));
      (split; [reflexivity | split; [auto | intros; congruence]]).
  - intros p t enc Hin.
    destruct (save_tile_saves env img dir col row lw lh g hist p t enc Hin)
      as [Hp Ht].
    rewrite Hbox in Ht. split; [exact Hp |].
    destruct Ht as [-> | ->]; (split; [reflexivity | auto]).
Qed.

Lemma crop_rectangle_clamped_witness :
  (let o := _save_tile (sample_env sample_image no_fault) sample_image
              "out_files/9" 1 0 300 200 sample_generator [] in
   value o = Ok tt /\
   exists t,
     saved (events o) = [("out_files/9/1_0.jpeg", t)] /\
     size t = (300 - 255, 200 - 0) /\
     t = cropped sample_image (255, 0, 300, 200)) /\
  (let o := _save_tile (sample_env sample_image no_fault) sample_image
              "out_files/0" 0 0 1 1
              (__init__ "in.png" "out" 256 (-200) "jpeg" 90) [] in
   value o = Raise ValueError /\ events o = []) /\
  255 = clamp 0 300 (1 * 256 - 1) /\
  300 = clamp 0 300 (1 * 256 + 256 + 1) /\
  255 < 300 /\ 300 - 255 <= 256 + 2 * 1.
Proof.
  destruct (crop_rectangle_clamped (sample_env sample_image no_fault)
              sample_image "out_files/9" 1 0 300 200 sample_generator []
              255 0 300 200 eq_refl)
    as (_ & _ & Hgrid & _ & Hrun & _).
  destruct (crop_rectangle_clamped (sample_env sample_image no_fault)
              sample_image "out_files/0" 0 0 1 1
              (__init__ "in.png" "out" 256 (-200) "jpeg" 90) []
              200 200 1 1 eq_refl)
    as (_ & _ & _ & Hbad & _).
  split; [| split; [apply Hbad; left; lia |]].
  - destruct Hrun as (Hv & t & Hs & Hsz & _ & Ht);
      [lia | lia | intros h a; destruct a; reflexivity |].
    split; [exact Hv |]. exists t.
    split; [exact Hs |]. split; [exact Hsz |]. apply Ht. reflexivity.
  - destruct (Hgrid 2 1) as (Hx1 & _ & Hx2 & _ & Hlt & _ & Hw & _);
      simpl; try reflexivity; try lia.
    repeat split; assumption.
Defined.


(** *** The full-resolution level *)

Lemma full_resolution_print img m : full_resolution_work img (Print m).
Proof.
  split; [intros w h; split; [| intros x]; discriminate |].
  intros p t enc [H | [x H]]; discriminate.
Qed.

Lemma full_resolution_makedirs img d :
  full_resolution_work img (Did (MakeDirs d)) /\
  forall e, full_resolution_work img (Failed (MakeDirs d) e).
Proof.
  split; [| intros e];
    (split; [intros w h; split; [| intros x]; discriminate |]);
    intros p t enc [H | [x H]]; discriminate.
Qed.

Lemma full_resolution_save img box p enc :
  full_resolution_work img (Did (SaveTile p (cropped img box) enc)) /\
  forall e, full_resolution_work img (Failed (SaveTile p (cropped img box) enc) e).
Proof.
  split; [| intros e];
    (split; [intros w h; split; [| intros x]; discriminate |]);
    intros p' t enc' [H | [x H]]; inversion H; subst; eauto.
Qed.

Lemma save_tile_full_resolution env img dir col row lw lh :
  mode_in (mode img) ["RGB"; "L"] = true ->
  Steady (fun _ => full_resolution_work img)
    (_save_tile env img dir col row lw lh).
Proof.
  intros Hm g h. unfold _save_tile. walk.
  walk_crop; [| split; [reflexivity | constructor]]. cbv zeta.
  rewrite mode_crop, Hm.
  change (negb true) with false. cbv iota.
  destruct (String.eqb (format g) "jpeg");
    [walk | destruct (String.eqb (format g) "png")];
    unfold perform;
    match goal with
    | |- context [fault ?e ?hh ?a] => destruct (fault e hh a)
    end; cbn [value self_after events app];
    (split; [reflexivity |]);
    repeat first [apply Forall_cons | apply Forall_nil];
    apply full_resolution_save.
Qed.

Lemma tile_loop_full_resolution env img dir lw lh cols rows :
  mode_in (mode img) ["RGB"; "L"] = true ->
  Steady (fun _ => full_resolution_work img)
    (tile_loop env img dir lw lh cols rows).
Proof.
  intros Hm. unfold tile_loop.
  apply steady_for_each; intros acc row.
  apply steady_for_each; intros acc' col.
  unfold tile_step.
  apply steady_bind; [apply save_tile_full_resolution; assumption | intros _].
  steady_tac ltac:(apply full_resolution_print).
Qed.

Lemma generate_level_full_resolution env img w h g hist :
  mode_in (mode img) ["RGB"; "L"] = true ->
  Forall (full_resolution_work img)
    (events (_generate_level env img (max_level g) w h g hist)).
Proof.
  intros Hm. unfold _generate_level.
  walk. rewrite Z.sub_diag, !ceil_quot_unit. do 2 step.
  rewrite Z.eqb_refl. step.
  repeat walk.
  all: try walk_call Hloop.
  all: repeat walk.
  all: try match goal with
       | |- context [tile_loop ?e ?i ?d ?a ?b ?c ?r ?g ?h] =>
           destruct (tile_loop_full_resolution e i d a b c r Hm g h)
             as [Hg Hc]; rewrite ?Hg
       end.
  all: repeat first [apply Forall_app; split | apply Forall_cons
                    | apply Forall_nil].
  all: try exact Hc; try apply full_resolution_print;
    try apply full_resolution_makedirs.
Qed.

(** *** Runs in which no call raises *)

Lemma normalise_returns env img g hist :
  fault_free env ->
  value (normalise env img g hist) = Ok (normalised env img).
Proof.
  intros Hff. unfold normalise, normalised.
  destruct (negb (mode_in (mode img) ["RGB"; "RGBA"; "L"])).
  - step. unfold convert. rewrite bind_run, (perform_ok _ _ _ _ (Hff _ _)).
    reflexivity.
  - destruct (String.eqb (mode img) "RGBA"); [| reflexivity].
    step. rewrite bind_run, (perform_ok _ _ _ _ (Hff _ _)). reflexivity.
Qed.

Lemma announced_app l1 l2 :
  announced (l1 ++ l2) = (announced l1 ++ announced l2)%list.
Proof. apply flat_map_app. Qed.

Lemma resizes_app l1 l2 : resizes (l1 ++ l2) = (resizes l1 ++ resizes l2)%list.
Proof. apply flat_map_app. Qed.

(** A run that returns [True] went through every level of the plan. *)
Lemma generate_completed env g hist :
  value (generate env g hist) = Ok true ->
  exists img,
    image_open env (image_path g) = Ok img /\
    0 < Z.max (fst (size img)) (snd (size img)) /\
    self_after (generate env g hist)
      = set_max_level g (Z.log2_up (Z.max (fst (size img)) (snd (size img)))) /\
    announced (events (generate env g hist))
      = flat_map (planned_announcement (self_after (generate env g hist))
                    (fst (size img)) (snd (size img)))
          (py_range (max_level (self_after (generate env g hist)) + 1)) /\
    resizes (events (generate env g hist))
      = flat_map (planned_resize (self_after (generate env g hist))
                    (fst (size img)) (snd (size img)))
          (py_range (max_level (self_after (generate env g hist)) + 1)) /\
    written (events (generate env g hist))
      = [(dzi_file g, descriptor_text g img)].
Proof.
  intros Hok.
  destruct (generate_cases env g hist)
    as [(e & Ho & Hv & Hs & He) | (img & hi & Ho & Hv & Hs & He)];
    [congruence |].
  destruct (generate_opened_cases env img g hi) as (hn & hl & Hrun).
  destruct (normalise_run env img g hn) as (_ & Hnb & _ & _).
  apply before_levels_quiet in Hnb.
  destruct Hnb as (Hnw & _ & Hna & Hnr & _).
  pose proof (level_loop_work env (normalised env img) (fst (size img))
                (snd (size img))
                (set_max_level g
                   (Z.log2_up (Z.max (fst (size img)) (snd (size img)))))
                hl (normalised_mode env img)) as Hlw.
  apply level_work_quiet in Hlw. destruct Hlw as [Hlw _].
  rewrite Hv in Hok. rewrite Hs, He.
  destruct Hrun as [e Hn Hvo Hso Heo | Hn Hle Hvo Hso Heo
                   | e Hn Hlt Hf Hvo Hso Heo | e Hn Hlt Hl Hvo Hso Heo
                   | total e Hn Hlt Hl Hf Hvo Hso Heo
                   | total Hn Hlt Hl Hvo Hso Heo]; try congruence.
  destruct (level_loop_ok _ _ _ _ _ _ _ Hl) as (_ & Ha & Hr & _).
  exists img. rewrite Hso, Heo.
  repeat split; try assumption.
  - repeat rewrite announced_app. rewrite Hna, Ha.
    unfold intro_prints, opening_prints, plan_prints, closing_prints.
    cbn [announced flat_map app]. rewrite app_nil_r. reflexivity.
  - repeat rewrite resizes_app. rewrite Hnr, Hr.
    unfold intro_prints, opening_prints, plan_prints, closing_prints.
    cbn [resizes flat_map app]. rewrite app_nil_r. reflexivity.
  - repeat rewrite written_app. rewrite Hnw, Hlw. reflexivity.
Qed.

(** Where no call raises, a run on an image that has pixels, with a
    tile size other than 0, returns [True]. *)
Lemma generate_returns env g hist img :
  image_open env (image_path g) = Ok img ->
  0 < Z.max (fst (size img)) (snd (size img)) ->
  0 <= fst (size img) -> 0 <= snd (size img) ->
  fault_free env -> tile_size g <> 0 -> 0 <= overlap g ->
  value (generate env g hist) = Ok true.
Proof.
  intros Ho Hlt Hw Hh Hff Hts Hov.
  destruct (generate_cases env g hist)
    as [(e & Ho' & _) | (img' & hi & Ho' & Hv & _)]; [congruence |].
  assert (img' = img) by congruence. subst img'.
  rewrite Hv.
  destruct (generate_opened_cases env img g hi) as (hn & hl & Hrun).
  pose proof (normalise_returns env img g hn Hff) as Hn'.
  destruct (level_loop_returns env (normalised env img) (fst (size img))
              (snd (size img))
              (set_max_level g
                 (Z.log2_up (Z.max (fst (size img)) (snd (size img)))))
              hl Hff Hts Hov Hw Hh) as [total Hl'].
  destruct Hrun as [e Hn Hvo Hso Heo | Hn Hle Hvo Hso Heo
                   | e Hn Hlt' [hm Hf] Hvo Hso Heo | e Hn Hlt' Hl Hvo Hso Heo
                   | total' e Hn Hlt' Hl [hw Hf] Hvo Hso Heo
                   | total' Hn Hlt' Hl Hvo Hso Heo];
    try congruence; try lia; rewrite Hff in Hf; discriminate.
Qed.

Lemma map_flat_map_singletons {A B} (key : B -> A) (f : A -> list B) l :
  (forall x, In x l -> exists y, f x = [y] /\ key y = x) ->
  map key (flat_map f l) = l.
Proof.
  induction l as [| x r IH]; intros H; simpl; [reflexivity |].
  destruct (H x (or_introl eq_refl)) as (y & -> & Hy). simpl.
  rewrite Hy, IH; [reflexivity |]. intros z Hz. apply H. right. exact Hz.
Qed.

Lemma length_flat_map_singletons {A B} (f : A -> list B) l :
  (forall x, In x l -> exists y, f x = [y]) ->
  List.length (flat_map f l) = List.length l.
Proof.
  induction l as [| x r IH]; intros H; simpl; [reflexivity |].
  destruct (H x (or_introl eq_refl)) as (y & ->). simpl.
  rewrite IH; [reflexivity |]. intros z Hz. apply H. right. exact Hz.
Qed.

Lemma flat_map_one {A B} (f : A -> list B) x : flat_map f [x] = f x.
Proof. simpl. apply app_nil_r. Qed.

(** C1.  For a source image of width [w >= 1] and height [h >= 1], in
    a run where no call raises (tile size other than 0, overlap not
    negative, so that every crop box is one that [img.crop] accepts),
    [generate] returns [True] and has set [max_level] to the ceiling of the binary
    logarithm of [max w h] (the least [m >= 0] with [max w h <= 2 ^ m]);
    it has announced the levels [0 .. max_level], one after the other,
    that is [max_level + 1] levels; the last level announced has the
    dimensions [(w, h)]; every level but the last was resized, and the
    level [max_level] is generated without a resize, its tiles being
    cut from the working image, which has the size [(w, h)]. *)
Theorem max_level_and_full_resolution env g img :
  image_open env (image_path g) = Ok img ->
  1 <= fst (size img) -> 1 <= snd (size img) ->
  fault_free env -> tile_size g <> 0 -> 0 <= overlap g ->
  let o := run_generate env g in
  let w := fst (size img) in
  let h := snd (size img) in
  let M := max_level (self_after o) in
  value o = Ok true /\
  (0 <= M /\ Z.max w h <= 2 ^ M /\
   forall m, 0 <= m -> Z.max w h <= 2 ^ m -> M <= m) /\
  map level_of (announced (events o)) = py_range (M + 1) /\
  List.length (announced (events o)) = Z.to_nat (M + 1) /\
  (exists cols rows,
      last (announced (events o)) (0, 0, 0, 0, 0) = (M, w, h, cols, rows)) /\
  List.length (resizes (events o)) = Z.to_nat M /\
  size (normalised env img) = (w, h) /\
  forall hist,
    Forall (full_resolution_work (normalised env img))
      (events (_generate_level env (normalised env img) M w h
                 (self_after o) hist)).
Proof.
  intros Ho Hw Hh Hff Hts Hov. cbv zeta. unfold run_generate.
  assert (Hmax : 1 <= Z.max (fst (size img)) (snd (size img))) by lia.
  assert (Hv : value (generate env g []) = Ok true)
    by (apply (generate_returns env g [] img); try assumption; lia).
  destruct (generate_completed env g [] Hv)
    as (img' & Ho' & _ & Hs & Ha & Hr & _).
  assert (img' = img) by congruence. subst img'.
  set (o := generate env g []) in *.
  set (w := fst (size img)) in *. set (h := snd (size img)) in *.
  set (M := max_level (self_after o)) in *.
  assert (HM : M = Z.log2_up (Z.max w h)) by (subst M; rewrite Hs; reflexivity).
  destruct (log2_up_least (Z.max w h) Hmax) as (H0 & Hle & Hleast).
  rewrite <- HM in H0, Hle, Hleast.
  assert (Hts' : tile_size (self_after o) <> 0) by (rewrite Hs; exact Hts).
  assert (Hplan : forall level, In level (py_range (M + 1)) ->
            exists y, planned_announcement (self_after o) w h level = [y] /\
                      level_of y = level).
  { intros level Hin. apply py_range_In in Hin.
    unfold planned_announcement.
    rewrite planned_grid_ok by (fold M; lia || exact Hts').
    eexists. split; reflexivity. }
  split; [exact Hv |].
  split; [auto |].
  split; [rewrite Ha; apply map_flat_map_singletons; exact Hplan |].
  split.
  { rewrite Ha, length_flat_map_singletons, py_range_length; [reflexivity |].
    intros x Hx. destruct (Hplan x Hx) as (y & Hy & _). eauto. }
  split.
  { destruct (planned_grid_top (self_after o) w h Hts') as (cols & rows & Hp).
    exists cols, rows. rewrite Ha, py_range_succ by exact H0.
    rewrite flat_map_app, flat_map_one. unfold planned_announcement at 2.
    fold M in Hp. rewrite Hp. apply last_last. }
  split.
  { rewrite Hr, py_range_succ by exact H0.
    rewrite flat_map_app, flat_map_one. unfold planned_resize at 2.
    destruct (planned_grid_top (self_after o) w h Hts') as (cols & rows & Hp).
    fold M in Hp. rewrite Hp. fold M. rewrite Z.eqb_refl, app_nil_r.
    rewrite length_flat_map_singletons, py_range_length; [reflexivity |].
    intros x Hx. apply py_range_In in Hx. unfold planned_resize.
    rewrite planned_grid_ok by (fold M; lia || exact Hts').
    fold M. destruct (Z.eqb_spec x M); [lia | eauto]. }
  split.
  { rewrite normalised_size. subst w h. destruct (size img); reflexivity. }
  intros hist. subst M.
  apply generate_level_full_resolution. apply normalised_mode.
Qed.

Lemma max_level_and_full_resolution_witness :
  let o := run_generate (sample_env sample_image no_fault) sample_generator in
  value o = Ok true /\
  max_level (self_after o) = 9 /\
  map level_of (announced (events o)) = [0; 1; 2; 3; 4; 5; 6; 7; 8; 9] /\
  last (announced (events o)) (0, 0, 0, 0, 0) = (9, 300, 200, 2, 1) /\
  List.length (resizes (events o)) = 9%nat.
Proof.
  destruct (max_level_and_full_resolution
              (sample_env sample_image no_fault) sample_generator sample_image)
    as (Hv & _ & Hl & _ & _ & Hr & _).
  - reflexivity.
  - simpl. lia.
  - simpl. lia.
  - intros h a. destruct a; reflexivity.
  - discriminate.
  - simpl. lia.
  - split; [exact Hv |].
    split; [vm_compute; reflexivity |].
    split; [vm_compute; reflexivity |].
    split; [vm_compute; reflexivity |].
    vm_compute. reflexivity.
Defined.

(** *** A tile size of zero *)

Lemma py_range_cons n : 0 < n -> exists r, py_range n = 0 :: r.
Proof.
  intros Hn. unfold py_range.
  destruct (Z.to_nat n) as [| k] eqn:Hk; [lia |].
  simpl. eauto.
Qed.

Lemma generate_level_zero_tile env img level w h g hist :
  tile_size g = 0 -> 0 <= level <= max_level g -> fault_free env ->
  value (_generate_level env img level w h g hist) = Raise ZeroDivisionError /\
  made_dirs (events (_generate_level env img level w h g hist)) = [] /\
  saved_paths (events (_generate_level env img level w h g hist)) = [].
Proof.
  intros Hts Hl Hff. unfold _generate_level.
  walk. rewrite !ceil_quot_pow2 by lia. do 2 step.
  rewrite Hts.
  walk; walk; rewrite ?Hff in *; try discriminate.
  all: rewrite ceil_div_zero; step; repeat split; reflexivity.
Qed.

Lemma level_loop_zero_tile env img w h g hist :
  tile_size g = 0 -> 0 <= max_level g -> fault_free env ->
  value (level_loop env img w h g hist) = Raise ZeroDivisionError /\
  made_dirs (events (level_loop env img w h g hist)) = [] /\
  saved_paths (events (level_loop env img w h g hist)) = [].
Proof.
  intros Hts HM Hff. unfold level_loop. step.
  destruct (py_range_cons (max_level g + 1) ltac:(lia)) as [r ->].
  cbn [for_each app].
  match goal with
  | |- context [bind (bind (_generate_level ?e ?i ?l ?w ?h) ?k1) ?k2 ?g ?hh] =>
      destruct (generate_level_zero_tile e i l w h g hh Hts ltac:(lia) Hff)
        as (Hv & Hm & Hs);
      assert (Hv1 : value (bind (_generate_level e i l w h) k1 g hh)
                    = Raise ZeroDivisionError)
        by (rewrite (bind_value_raise _ _ _ _ _ Hv); reflexivity);
      assert (He1 : events (bind (_generate_level e i l w h) k1 g hh)
                    = events (_generate_level e i l w h g hh))
        by (rewrite (bind_events_raise _ _ _ _ _ Hv); reflexivity);
      rewrite (bind_value_raise _ _ _ _ _ Hv1),
        (bind_events_raise _ _ _ _ _ Hv1), He1
  end.
  repeat split; assumption.
Qed.

Lemma made_dirs_app l1 l2 :
  made_dirs (l1 ++ l2) = (made_dirs l1 ++ made_dirs l2)%list.
Proof. apply flat_map_app. Qed.

(** * Invalid geometry *)

Lemma zero_tile_size_not_rejected_up_front :
  (let g := __init__ "in.png" "out" 0 1 "jpeg" 90 in
   let o := run_generate (sample_env sample_image no_fault) g in
   value o = Raise ZeroDivisionError /\
   max_level g = 0 /\ max_level (self_after o) = 9 /\
   made_dirs (events o) = ["out_files"] /\
   ~ rejected_up_front g o) /\
  value (run_generate (sample_env sample_image no_fault)
           (__init__ "in.png" "out" (-256) 1 "jpeg" 90)) = Ok true.
Proof.
  split; [| vm_compute; reflexivity].
  cbv zeta.
  assert (Hv : value (run_generate (sample_env sample_image no_fault)
                        (__init__ "in.png" "out" 0 1 "jpeg" 90))
               = Raise ZeroDivisionError) by (vm_compute; reflexivity).
  assert (Hd : made_dirs (events (run_generate (sample_env sample_image no_fault)
                        (__init__ "in.png" "out" 0 1 "jpeg" 90)))
               = ["out_files"]) by (vm_compute; reflexivity).
  split; [exact Hv |].
  split; [reflexivity |].
  split; [vm_compute; reflexivity |].
  split; [exact Hd |].
  intros (_ & _ & Hm). rewrite Hd in Hm. discriminate Hm.
Qed.

(** C6 (as the code has it).  There is no precondition check.  When
    no source dimension is positive, [math.log2] raises [ValueError]
    before [max_level] is assigned and before any directory is
    created.  When the tile size is 0 (and a source dimension is
    positive), the division of [_generate_level] raises
    [ZeroDivisionError] after [max_level] was assigned and the output
    directory created.  Either way the run is fatal and leaves no level
    directory, no tile and no descriptor. *)
Theorem invalid_geometry_fails_while_planning env g img hist :
  image_open env (image_path g) = Ok img ->
  fault_free env ->
  (Z.max (fst (size img)) (snd (size img)) <= 0 ->
   value (generate env g hist) = Raise ValueError /\
   self_after (generate env g hist) = g /\
   made_dirs (events (generate env g hist)) = [] /\
   saved_paths (events (generate env g hist)) = [] /\
   written (events (generate env g hist)) = []) /\
  (tile_size g = 0 -> 0 < Z.max (fst (size img)) (snd (size img)) ->
   value (generate env g hist) = Raise ZeroDivisionError /\
   self_after (generate env g hist)
     = set_max_level g (Z.log2_up (Z.max (fst (size img)) (snd (size img)))) /\
   made_dirs (events (generate env g hist)) = [tiles_dir g] /\
   saved_paths (events (generate env g hist)) = [] /\
   written (events (generate env g hist)) = []).
Proof.
  intros Ho Hff.
  destruct (generate_cases env g hist)
    as [(e & Ho' & _) | (img' & hi & Ho' & Hv & Hs & He)];
    [congruence |].
  assert (img' = img) by congruence. subst img'.
  destruct (generate_opened_cases env img g hi) as (hn & hl & Hrun).
  destruct (normalise_run env img g hn) as (_ & Hnb & _ & _).
  apply before_levels_quiet in Hnb.
  destruct Hnb as (Hnw & Hns & _ & _ & Hnm & _).
  pose proof (normalise_returns env img g hn Hff) as Hnv.
  rewrite Hv, Hs, He.
  split.
  - intros Hle.
    destruct Hrun as [e Hn Hvo Hso Heo | Hn _ Hvo Hso Heo
                     | e Hn Hlt Hf Hvo Hso Heo | e Hn Hlt Hl Hvo Hso Heo
                     | total e Hn Hlt Hl Hf Hvo Hso Heo
                     | total Hn Hlt Hl Hvo Hso Heo];
      try lia; [congruence |].
    rewrite Hvo, Hso, Heo.
    rewrite !made_dirs_app, !saved_paths_app, !written_app, Hnm, Hns, Hnw.
    repeat split; reflexivity.
  - intros Hts Hpos.
    destruct (level_loop_zero_tile env (normalised env img) (fst (size img))
                (snd (size img))
                (set_max_level g
                   (Z.log2_up (Z.max (fst (size img)) (snd (size img)))))
                hl Hts (Z.log2_up_nonneg _) Hff) as (Hlv & Hlm & Hls).
    pose proof (level_loop_work env (normalised env img) (fst (size img))
                  (snd (size img))
                  (set_max_level g
                     (Z.log2_up (Z.max (fst (size img)) (snd (size img)))))
                  hl (normalised_mode env img)) as Hlw.
    apply level_work_quiet in Hlw. destruct Hlw as [Hlw _].
    destruct Hrun as [e Hn Hvo Hso Heo | Hn Hle Hvo Hso Heo
                     | e Hn Hlt [hm Hf] Hvo Hso Heo | e Hn Hlt Hl Hvo Hso Heo
                     | total e Hn Hlt Hl Hf Hvo Hso Heo
                     | total Hn Hlt Hl Hvo Hso Heo];
      try lia; try congruence;
      try (rewrite Hff in Hf; discriminate Hf).
    rewrite Hvo, Hso, Heo.
    assert (e = ZeroDivisionError) by congruence. subst e.
    rewrite !made_dirs_app, !saved_paths_app, !written_app,
      Hnm, Hns, Hnw, Hlm, Hls, Hlw.
    repeat split; reflexivity.
Qed.

Lemma invalid_geometry_fails_while_planning_witness :
  (let o := generate (sample_env sample_image no_fault)
              (__init__ "in.png" "out" 0 1 "jpeg" 90) [] in
   value o = Raise ZeroDivisionError /\
   self_after o = set_max_level (__init__ "in.png" "out" 0 1 "jpeg" 90) 9 /\
   made_dirs (events o) = ["out_files"] /\
   saved_paths (events o) = [] /\
   written (events o) = []) /\
  (let o := generate (sample_env (flat_image "RGB" 0 0 []) no_fault)
              sample_generator [] in
   value o = Raise ValueError /\
   self_after o = sample_generator /\
   made_dirs (events o) = [] /\
   saved_paths (events o) = [] /\
   written (events o) = []).
Proof.
  split.
  - apply (proj2 (invalid_geometry_fails_while_planning
                    (sample_env sample_image no_fault)
                    (__init__ "in.png" "out" 0 1 "jpeg" 90)
                    sample_image [] eq_refl
                    (fun _ a =>
                       match a with
                       | SaveTile _ _ _ => eq_refl
                       | _ => eq_refl
                       end)));
      [reflexivity | vm_compute; reflexivity].
  - apply (proj1 (invalid_geometry_fails_while_planning
                    (sample_env (flat_image "RGB" 0 0 []) no_fault)
                    sample_generator
                    (flat_image "RGB" 0 0 []) [] eq_refl
                    (fun _ a =>
                       match a with
                       | SaveTile _ _ _ => eq_refl
                       | _ => eq_refl
                       end))).
    vm_compute. discriminate.
Defined.

(** * Colour modes *)

Lemma conversions_app l1 l2 :
  conversions (l1 ++ l2) = (conversions l1 ++ conversions l2)%list.
Proof. apply flat_map_app. Qed.

Lemma after_normalising_quiet env img l :
  Forall (after_normalising env img) l -> conversions l = [].
Proof.
  intros H. apply flat_map_nil.
  (eapply Forall_impl; [| exact H]); intros [m | a | a e] (Hc & _);
    try destruct a; simpl in *; congruence.
Qed.

Lemma level_work_after_normalising env img l :
  Forall (level_work env img) l -> Forall (after_normalising env img) l.
Proof.
  apply Forall_impl. intros e (Hc & _ & Ht). split; assumption.
Qed.

Ltac not_a_tile :=
  split; [reflexivity | intros ? ? ? [H | [? H]]; discriminate H].

Ltac no_tiles :=
  repeat first [apply Forall_nil | apply Forall_cons; [not_a_tile |]].

Lemma plan_prints_after env img g :
  Forall (after_normalising env img) (plan_prints g).
Proof. unfold plan_prints, closing_prints. no_tiles. Qed.

Lemma closing_prints_after env img g total :
  Forall (after_normalising env img) (closing_prints g total).
Proof. unfold plan_prints, closing_prints. no_tiles. Qed.

Lemma blend8_transparent out inp : blend8 0 out inp = div255 (out * 255).
Proof. unfold blend8. f_equal. lia. Qed.

(** A fully transparent pixel of an RGBA image is black after the
    compositing. *)
Lemma composited_transparent img x y :
  List.length (data img x y) = 4%nat -> nth 3 (data img x y) 0 = 0 ->
  data (composited img) x y = [0; 0; 0].
Proof.
  intros Hlen Ha. unfold composited, paste_masked, alpha_band, image_new_black.
  cbn [data nth]. rewrite Ha.
  destruct (data img x y) as [| r [| gr [| b [| a [| ? ?]]]]];
    try discriminate Hlen.
  cbn [combine map fst snd]. unfold blend8. rewrite !Z.mul_0_r.
  reflexivity.
Qed.

(** The intermediate alpha values blend with black. *)
Lemma composited_pixel img x y r gr b a :
  data img x y = [r; gr; b; a] ->
  data (composited img) x y = [div255 (r * a); div255 (gr * a); div255 (b * a)].
Proof.
  intros Hp. unfold composited, paste_masked, alpha_band, image_new_black.
  cbn [data nth]. rewrite Hp. cbn [nth combine map fst snd]. unfold blend8.
  repeat f_equal; lia.
Qed.

(** * The descriptor: writing and reading *)

(** ** Integers as text *)

Lemma string_app_assoc (a b c : string) : (a ++ b) ++ c = a ++ b ++ c.
Proof. induction a as [| x a IH]; simpl; [reflexivity | now rewrite IH]. Qed.

Lemma string_app_nil_r (a : string) : a ++ EmptyString = a.
Proof. induction a as [| x a IH]; simpl; [reflexivity | now rewrite IH]. Qed.

Lemma string_forallb_app p a b :
  string_forallb p (a ++ b) = string_forallb p a && string_forallb p b.
Proof.
  induction a as [| x a IH]; simpl; [reflexivity |].
  rewrite IH. apply andb_assoc.
Qed.

Lemma string_forallb_impl (p q : ascii -> bool) s :
  (forall c, p c = true -> q c = true) ->
  string_forallb p s = true -> string_forallb q s = true.
Proof.
  intros Hpq. induction s as [| c s IH]; simpl; [reflexivity |].
  intros H. apply andb_true_iff in H. destruct H as [Hc Hs].
  rewrite (Hpq _ Hc), (IH Hs). reflexivity.
Qed.

(** The digits of a decimal number, read back with an accumulator. *)
Lemma int_digits_uint_acc d acc st :
  d <> Decimal.Nil \/ st = AfterDigit ->
  int_digits (Z.pos acc) st (DecimalString.NilEmpty.string_of_uint d)
    = Some (Z.pos (Pos.of_uint_acc d acc)).
Proof.
  revert acc st.
  induction d as [| d IH | d IH | d IH | d IH | d IH | d IH | d IH | d IH
                   | d IH | d IH]; intros acc st Hd;
    [ destruct Hd as [Hd | ->]; [congruence | reflexivity] | .. ];
    cbn [DecimalString.NilEmpty.string_of_uint int_digits Pos.of_uint_acc];
    match goal with
    | |- context [digit_value ?c] =>
        let v := eval vm_compute in (digit_value c) in
        change (digit_value c) with v
    end; cbv iota;
    match goal with
    | |- int_digits ?z _ _ = Some (Z.pos (Pos.of_uint_acc _ ?p)) =>
        replace z with (Z.pos p) by lia
    end; apply IH; right; reflexivity.
Qed.

Lemma int_digits_uint d st :
  d <> Decimal.Nil \/ st = AfterDigit ->
  int_digits 0 st (DecimalString.NilEmpty.string_of_uint d)
    = Some (Z.of_N (Pos.of_uint d)).
Proof.
  revert st.
  induction d as [| d IH | d IH | d IH | d IH | d IH | d IH | d IH | d IH
                   | d IH | d IH]; intros st Hd;
    [ destruct Hd as [Hd | ->]; [congruence | reflexivity] | .. ];
    cbn [DecimalString.NilEmpty.string_of_uint int_digits Pos.of_uint];
    match goal with
    | |- context [digit_value ?c] =>
        let v := eval vm_compute in (digit_value c) in
        change (digit_value c) with v
    end; cbv iota;
    [ change (10 * 0 + 0) with 0; apply IH; right; reflexivity | .. ];
    match goal with
    | |- int_digits ?z _ _ = Some (Z.of_N (N.pos (Pos.of_uint_acc _ ?p))) =>
        change z with (Z.pos p)
    end; apply int_digits_uint_acc; right; reflexivity.
Qed.

Lemma to_uint_not_nil p : Pos.to_uint p <> Decimal.Nil.
Proof.
  intros H. pose proof (DecimalPos.Unsigned.of_to p) as Hp.
  rewrite H in Hp. discriminate Hp.
Qed.

Lemma int_digits_pos p :
  int_digits 0 NoDigit (DecimalString.NilEmpty.string_of_uint (Pos.to_uint p))
    = Some (Z.pos p).
Proof.
  rewrite int_digits_uint by (left; apply to_uint_not_nil).
  rewrite DecimalPos.Unsigned.of_to. reflexivity.
Qed.


Lemma uint_chars d :
  string_forallb is_int_char (DecimalString.NilEmpty.string_of_uint d) = true.
Proof. induction d; simpl; try rewrite IHd; reflexivity. Qed.

Lemma nilzero_uint p :
  DecimalString.NilZero.string_of_uint (Pos.to_uint p)
    = DecimalString.NilEmpty.string_of_uint (Pos.to_uint p).
Proof.
  pose proof (to_uint_not_nil p) as H.
  destruct (Pos.to_uint p); [congruence | reflexivity ..].
Qed.

Lemma str_pos p :
  str (Z.pos p) = DecimalString.NilEmpty.string_of_uint (Pos.to_uint p).
Proof. unfold str. cbn [Z.to_int DecimalString.NilZero.string_of_int].
  apply nilzero_uint. Qed.

Lemma str_neg p :
  str (Z.neg p)
    = String "-" (DecimalString.NilEmpty.string_of_uint (Pos.to_uint p)).
Proof. unfold str. cbn [Z.to_int DecimalString.NilZero.string_of_int].
  rewrite nilzero_uint. reflexivity. Qed.

Lemma str_chars n : string_forallb is_int_char (str n) = true.
Proof.
  destruct n as [| p | p]; [reflexivity | |].
  - rewrite str_pos. apply uint_chars.
  - rewrite str_neg. cbn [string_forallb]. rewrite uint_chars. reflexivity.
Qed.

Lemma int_char_not_space c : is_int_char c = true -> negb (is_py_space c) = true.
Proof.
  destruct c as [[] [] [] [] [] [] [] []]; vm_compute; congruence.
Qed.

Lemma int_char_plain c : is_int_char c = true -> plain_char c = true.
Proof.
  destruct c as [[] [] [] [] [] [] [] []]; vm_compute; congruence.
Qed.

Lemma str_plain n : plain (str n) = true.
Proof.
  unfold plain. eapply string_forallb_impl; [apply int_char_plain |].
  apply str_chars.
Qed.

Lemma lstrip_id s :
  string_forallb (fun c => negb (is_py_space c)) s = true -> lstrip s = s.
Proof.
  destruct s as [| c s]; [reflexivity |]. cbn [string_forallb lstrip].
  intros H. apply andb_true_iff in H. destruct H as [Hc _].
  apply negb_true_iff in Hc. rewrite Hc. reflexivity.
Qed.

Lemma rstrip_id s :
  string_forallb (fun c => negb (is_py_space c)) s = true -> rstrip s = s.
Proof.
  induction s as [| c s IH]; [reflexivity |]. cbn [string_forallb rstrip].
  intros H. apply andb_true_iff in H. destruct H as [Hc Hs].
  rewrite (IH Hs). apply negb_true_iff in Hc. rewrite Hc.
  destruct s; reflexivity.
Qed.

Lemma strip_id s :
  string_forallb (fun c => negb (is_py_space c)) s = true -> strip s = s.
Proof. intros H. unfold strip. rewrite (lstrip_id _ H). apply rstrip_id, H. Qed.

(** [int(str(n)) == n]. *)
Lemma py_int_str n : py_int (str n) = Ok n.
Proof.
  unfold py_int.
  rewrite strip_id
    by (eapply string_forallb_impl; [apply int_char_not_space | apply str_chars]).
  destruct n as [| p | p]; [reflexivity | |].
  - rewrite str_pos. unfold int_literal.
    pose proof (int_digits_pos p) as H.
    pose proof (uint_chars (Pos.to_uint p)) as Hc.
    destruct (DecimalString.NilEmpty.string_of_uint (Pos.to_uint p))
      as [| c s] eqn:E; [discriminate H |].
    destruct (Ascii.eqb c "-") eqn:E1.
    { apply Ascii.eqb_eq in E1. subst c. discriminate H. }
    destruct (Ascii.eqb c "+") eqn:E2.
    { apply Ascii.eqb_eq in E2. subst c. discriminate Hc. }
    rewrite H. reflexivity.
  - rewrite str_neg. unfold int_literal.
    change (Ascii.eqb "-" "-") with true. cbv iota.
    rewrite int_digits_pos. reflexivity.
Qed.

(** ** The parser on the text of a descriptor *)

Lemma feed_none s : feed None s = None.
Proof. destruct s; reflexivity. Qed.

Lemma feed_app st a b : feed st (a ++ b) = feed (feed st a) b.
Proof.
  revert st. induction a as [| c a IH]; intros st; [reflexivity |].
  cbn [append feed]. destruct st as [p |]; [apply IH |].
  symmetry. apply feed_none.
Qed.

Lemma plain_char_step c :
  plain_char c = true ->
  Ascii.eqb c dquote = false /\ Ascii.eqb c "<" = false /\
  Ascii.eqb c "&" = false /\ is_xml_char c = true /\
  (is_xml_space c = true -> c = " "%char).
Proof.
  destruct c as [[] [] [] [] [] [] [] []]; vm_compute; intros H;
    try discriminate H; repeat split; congruence.
Qed.

(** Inside a double-quoted attribute value, plain characters are taken
    as they are. *)
Lemma feed_att_value name atts aname v stk rt s :
  plain s = true ->
  feed (Some {| lexer := AttValue name atts aname dquote v;
                stack := stk; root := rt |}) s
    = Some {| lexer := AttValue name atts aname dquote (v ++ s);
              stack := stk; root := rt |}.
Proof.
  revert v. induction s as [| c s IH]; intros v Hs.
  - rewrite string_app_nil_r. reflexivity.
  - cbn [plain string_forallb] in Hs. apply andb_true_iff in Hs.
    destruct Hs as [Hc Hs].
    destruct (plain_char_step c Hc) as (Hq & Hlt & Hamp & Hxc & Hsp).
    cbn [feed]. unfold xml_step. cbn [lexer].
    rewrite Hq, Hlt, Hamp, Hxc.
    replace (v ++ String c s) with ((v ++ chr c) ++ s)
      by (rewrite string_app_assoc; reflexivity).
    destruct (is_xml_space c) eqn:Es.
    + rewrite (Hsp eq_refl). unfold goto. cbn [stack root].
      apply IH. exact Hs.
    + unfold goto. cbn [stack root]. apply IH. exact Hs.
Qed.


Ltac feed_literal :=
  match goal with
  | |- context [feed (Some ?p) ?lit] =>
      tryif is_var lit then fail else idtac;
      let r := eval vm_compute in (feed (Some p) lit) in
      change (feed (Some p) lit) with r
  end.

Ltac feed_value :=
  match goal with
  | H : plain ?s = true
    |- context [feed (Some {| lexer := AttValue ?n ?a ?k ?q ?v;
                              stack := ?stk; root := ?rt |}) ?s] =>
      change q with dquote;
      rewrite (feed_att_value n a k v stk rt s H);
      change (EmptyString ++ s) with s
  end.

Lemma fromstring_descriptor fmt ovl tsize height width dir :
  plain fmt = true -> plain dir = true ->
  fromstring (dzi_content fmt ovl tsize height width dir)
    = Ok (descriptor_tree fmt (str ovl) (str tsize) (str height) (str width)
            (dir ++ "/")).
Proof.
  intros Hfmt Hdir.
  pose proof (str_plain ovl) as Ho. pose proof (str_plain tsize) as Ht.
  pose proof (str_plain height) as Hh. pose proof (str_plain width) as Hw.
  unfold dzi_content.
  generalize dependent (str ovl). generalize dependent (str tsize).
  generalize dependent (str height). generalize dependent (str width).
  intros sw Hw sh Hh st Ht so Ho.
  unfold fromstring. rewrite !feed_app.
  repeat first [feed_literal | feed_value].
  reflexivity.
Qed.

(** What [diagnose_dzi] reads in a tree of this shape. *)
Lemma parse_descriptor_tree text fmt so st sh sw url :
  fromstring text = Ok (descriptor_tree fmt so st sh sw url) ->
  parse_descriptor text
    = result_bind (py_int sw) (fun dzi_width =>
      result_bind (py_int sh) (fun dzi_height =>
      result_bind (py_int st) (fun tile_size =>
      result_bind (py_int so) (fun overlap =>
      Ok (dzi_width, dzi_height, tile_size, overlap, Some fmt))))).
Proof.
  intros H. unfold parse_descriptor. rewrite H. reflexivity.
Qed.

(** Writing then reading, for a format and a directory name that XML
    takes as they are. *)
Lemma descriptor_round_trip fmt ovl tsize height width dir :
  plain fmt = true -> plain dir = true ->
  parse_descriptor (dzi_content fmt ovl tsize height width dir)
    = Ok (width, height, tsize, ovl, Some fmt).
Proof.
  intros Hfmt Hdir.
  rewrite (parse_descriptor_tree _ _ _ _ _ _ _
             (fromstring_descriptor fmt ovl tsize height width dir Hfmt Hdir)).
  rewrite !py_int_str. reflexivity.
Qed.

(** * The claims on the descriptor *)

Lemma descriptor_written env w h g hist p c :
  In (p, c) (written (events (_create_dzi_descriptor env w h g hist))) ->
  p = dzi_file g /\
  c = dzi_content (format g) (overlap g) (tile_size g) h w
        (basename (tiles_dir g)).
Proof.
  destruct (fault env hist
              (WriteText (dzi_file g)
                 (dzi_content (format g) (overlap g) (tile_size g) h w
                    (basename (tiles_dir g))))) as [x |] eqn:Hw.
  - rewrite (descriptor_fail env w h g hist x Hw). intros [].
  - rewrite (descriptor_ok env w h g hist Hw). cbn.
    intros [H | []]. inversion H. split; reflexivity.
Qed.

Lemma round_trip_breaks :
  parse_descriptor (dzi_content ("a" ++ dq ++ "b") 1 256 200 300 "out_files")
    = Raise ParseError /\
  parse_descriptor (dzi_content "jpeg" 1 256 200 300 "M&M_files")
    = Raise ParseError /\
  parse_descriptor (dzi_content ("a" ++ chr tab ++ "b") 1 256 200 300 "out_files")
    = Ok (300, 200, 256, 1, Some "a b").
Proof. repeat split; vm_compute; reflexivity. Qed.

(** C9 (as the code has it).  The descriptor is written without any
    escaping.  When the format and the base name of the tile directory
    are made of printable ASCII characters other than the double quote,
    ['<'] and ['&'], the descriptor that [_create_dzi_descriptor]
    writes is read back by the parser of [diagnose_dzi] as the very
    width, height, tile size, overlap and format it was written
    from. *)
Theorem descriptor_round_trip_plain env g width height hist p c :
  plain (format g) = true ->
  plain (basename (tiles_dir g)) = true ->
  In (p, c)
     (written (events (_create_dzi_descriptor env width height g hist))) ->
  p = dzi_file g /\
  parse_descriptor c
    = Ok (width, height, tile_size g, overlap g, Some (format g)).
Proof.
  intros Hf Hd Hin.
  destruct (descriptor_written _ _ _ _ _ _ _ Hin) as [-> ->].
  split; [reflexivity |].
  exact (descriptor_round_trip (format g) (overlap g) (tile_size g)
           height width (basename (tiles_dir g)) Hf Hd).
Qed.

Lemma descriptor_round_trip_plain_witness :
  parse_descriptor (dzi_content "jpeg" 1 256 200 300 "out_files")
    = Ok (300, 200, 256, 1, Some "jpeg").
Proof.
  apply (proj2 (descriptor_round_trip_plain
                  (sample_env sample_image no_fault) sample_generator
                  300 200 [] "out.dzi"
                  (dzi_content "jpeg" 1 256 200 300 "out_files")
                  eq_refl eq_refl (or_introl eq_refl))).
Defined.

(** C4.  A run of [generate] that returns [True] wrote one
    descriptor, and its [Width] and [Height] are the text of the width
    and height that the source image had when it was opened, whatever
    the tile size, the overlap and the format; when the descriptor is
    read back (for a format and a directory name that XML takes as they
    are) these are the numbers found. *)
Theorem descriptor_has_original_size env g hist :
  value (generate env g hist) = Ok true ->
  exists img,
    image_open env (image_path g) = Ok img /\
    written (events (generate env g hist))
      = [(dzi_file g,
          dzi_content (format g) (overlap g) (tile_size g)
            (snd (size img)) (fst (size img)) (basename (tiles_dir g)))] /\
    (plain (format g) = true -> plain (basename (tiles_dir g)) = true ->
     forall p c, In (p, c) (written (events (generate env g hist))) ->
       parse_descriptor c
         = Ok (fst (size img), snd (size img), tile_size g, overlap g,
               Some (format g))).
Proof.
  intros Hv.
  destruct (generate_completed env g hist Hv) as (img & Ho & _ & _ & _ & _ & Hw).
  exists img. split; [exact Ho |]. split; [exact Hw |].
  intros Hf Hd p c Hin. rewrite Hw in Hin.
  destruct Hin as [Hin | []]. injection Hin as _ <-.
  exact (descriptor_round_trip (format g) (overlap g) (tile_size g)
           (snd (size img)) (fst (size img)) (basename (tiles_dir g)) Hf Hd).
Qed.

Lemma descriptor_has_original_size_witness :
  exists img,
    image_open (sample_env sample_image no_fault) (image_path sample_generator)
      = Ok img /\
    written (events (generate (sample_env sample_image no_fault)
                       sample_generator []))
      = [("out.dzi", dzi_content "jpeg" 1 256 (snd (size img)) (fst (size img))
                       "out_files")] /\
    fst (size img) = 300 /\ snd (size img) = 200.
Proof.
  destruct (descriptor_has_original_size (sample_env sample_image no_fault)
              sample_generator [] ltac:(vm_compute; reflexivity))
    as (img & Ho & Hw & _).
  exists img. split; [exact Ho |]. split; [exact Hw |].
  injection Ho as <-. split; reflexivity.
Defined.

(** * The claims on the diagnostic tool *)

(** C10.  When the reference image exists but cannot be opened,
    [check_original_image] returns the pair [(None, None)], which is
    truthy; if [diagnose_dzi] returned the declared dimensions,
    [compare_dimensions] goes on, prints the mismatch, and raises
    [TypeError] in the product of the two [None]s, before the
    percentage and the advice are printed. *)
Theorem unreadable_reference_raises_type_error
    fs dzi_file original_image e notes dw dh :
  path_exists fs original_image = true ->
  open_image fs original_image = Raise e ->
  diagnose_dzi fs dzi_file = (notes, Ok (PyTuple [PyInt dw; PyInt dh])) ->
  check_original_image fs original_image
    = ([NoteRule; NoteOriginalHeader; NoteRule; NoteReadError e],
       Ok (PyTuple [PyNone; PyNone])) /\
  truthy (PyTuple [PyNone; PyNone]) = true /\
  compare_dimensions fs dzi_file original_image
    = ((notes ++ [NoteRule; NoteOriginalHeader; NoteRule; NoteReadError e]
          ++ [NoteRule; NoteComparison; NoteRule; NoteMismatch;
              NoteOriginalSize PyNone PyNone;
              NoteDziSize (PyInt dw) (PyInt dh)])%list,
       Raise TypeError).
Proof.
  intros Hex Hop Hd.
  assert (Hc : check_original_image fs original_image
               = ([NoteRule; NoteOriginalHeader; NoteRule; NoteReadError e],
                  Ok (PyTuple [PyNone; PyNone]))).
  { unfold check_original_image. rewrite Hex, Hop. reflexivity. }
  split; [exact Hc |]. split; [reflexivity |].
  unfold compare_dimensions. rewrite Hd, Hc. reflexivity.
Qed.

Lemma unreadable_reference_raises_type_error_witness :
  snd (compare_dimensions sample_fs "out.dzi" "ref.png") = Raise TypeError /\
  snd (check_original_image sample_fs "ref.png") = Ok (PyTuple [PyNone; PyNone]).
Proof.
  destruct (unreadable_reference_raises_type_error sample_fs "out.dzi" "ref.png"
              (OSError "cannot identify image file")
              (fst (diagnose_dzi sample_fs "out.dzi")) 300 200
              eq_refl eq_refl ltac:(vm_compute; reflexivity))
    as (Hc & _ & Hcmp).
  rewrite Hcmp, Hc. split; reflexivity.
Defined.

(** * Further properties of the generator *)

(** X1.  An image that cannot be opened: [generate] catches the exception,
    prints it and returns [False]; it has touched nothing (no
    directory, no tile, no descriptor) and has not assigned
    [max_level]. *)
Theorem open_failure_returns_false env g hist e :
  image_open env (image_path g) = Raise e ->
  value (generate env g hist) = Ok false /\
  self_after (generate env g hist) = g /\
  events (generate env g hist)
    = [Print MsgRule; Print MsgTitle; Print MsgRule;
       Print (MsgOpening (image_path g)); Print (MsgOpenError e)] /\
  made_dirs (events (generate env g hist)) = [] /\
  saved (events (generate env g hist)) = [] /\
  written (events (generate env g hist)) = [].
Proof.
  intros Ho.
  destruct (generate_cases env g hist)
    as [(e' & Ho' & Hv & Hs & He) | (img & hi & Ho' & _)];
    [| congruence].
  assert (e' = e) by congruence. subst e'.
  rewrite Hv, Hs, He. repeat split; reflexivity.
Qed.

Lemma open_failure_returns_false_witness :
  let env := {| image_open := fun _ => Raise (OSError "no such file");
                convert_data := fun im _ => data im;
                resample := fun im _ _ => data im;
                fault := fun _ _ => None |} in
  value (generate env sample_generator []) = Ok false /\
  self_after (generate env sample_generator []) = sample_generator.
Proof.
  intros env.
  destruct (open_failure_returns_false env sample_generator []
              (OSError "no such file") eq_refl) as (Hv & Hs & _).
  split; assumption.
Defined.

Lemma set_max_level_same g : set_max_level g (max_level g) = g.
Proof. destruct g; reflexivity. Qed.

(** X2.  The only attribute that [generate] assigns is [max_level]: whatever
    the run (returning or raising), the generator object afterwards is
    the one before with [max_level] either untouched or set to the
    ceiling of the binary logarithm of the larger dimension of the
    image that was opened. *)
Theorem generate_assigns_only_max_level env g hist :
  exists l,
    self_after (generate env g hist) = set_max_level g l /\
    (l = max_level g \/
     exists img,
       image_open env (image_path g) = Ok img /\
       0 < Z.max (fst (size img)) (snd (size img)) /\
       l = Z.log2_up (Z.max (fst (size img)) (snd (size img)))).
Proof.
  destruct (generate_cases env g hist)
    as [(e & _ & _ & Hs & _) | (img & hi & Ho & _ & Hs & _)].
  { exists (max_level g). rewrite Hs.
    split; [symmetry; apply set_max_level_same | left; reflexivity]. }
  destruct (generate_opened_cases env img g hi) as (hn & hl & Hrun).
  rewrite Hs.
  destruct Hrun as [e Hn Hvo Hso Heo | Hn Hle Hvo Hso Heo
                   | e Hn Hlt Hf Hvo Hso Heo | e Hn Hlt Hl Hvo Hso Heo
                   | total e Hn Hlt Hl Hf Hvo Hso Heo
                   | total Hn Hlt Hl Hvo Hso Heo]; rewrite Hso.
  1, 2: exists (max_level g);
    (split; [symmetry; apply set_max_level_same | left; reflexivity]).
  all: eexists; (split; [reflexivity |]); right; exists img; auto.
Qed.

Lemma level_zero_plan g w h :
  1 <= w -> 1 <= h -> 1 <= tile_size g ->
  max_level g = Z.log2_up (Z.max w h) ->
  planned_grid g w h 0 = Ok (1, 1, 1, 1).
Proof.
  intros Hw Hh Hts HM.
  destruct (log2_up_least (Z.max w h) ltac:(lia)) as (H0 & Hle & _).
  rewrite <- HM in H0, Hle.
  rewrite planned_grid_ok by lia. rewrite Z.sub_0_r.
  assert (Hpow : 0 < 2 ^ max_level g) by (apply Z.pow_pos_nonneg; lia).
  assert (Hcw : - (- w / 2 ^ max_level g) = 1).
  { pose proof (neg_floor_is_ceil w _ Hpow) as Hc. unfold is_ceil in Hc. nia. }
  assert (Hch : - (- h / 2 ^ max_level g) = 1).
  { pose proof (neg_floor_is_ceil h _ Hpow) as Hc. unfold is_ceil in Hc. nia. }
  rewrite Hcw, Hch.
  assert (Hc1 : - (- (1) / tile_size g) = 1).
  { pose proof (neg_floor_is_ceil 1 (tile_size g) ltac:(lia)) as Hc.
    unfold is_ceil in Hc. nia. }
  rewrite Hc1. reflexivity.
Qed.

(** X3.  The coarsest level.  In a run that returns [True] on a source of at
    least one pixel each way, with a tile size of at least 1, the
    first level announced is level 0, one pixel wide and high and made
    of one tile, and the first tile saved is that tile. *)
Theorem coarsest_level_is_one_pixel env g hist img :
  image_open env (image_path g) = Ok img ->
  1 <= fst (size img) -> 1 <= snd (size img) -> 1 <= tile_size g ->
  value (generate env g hist) = Ok true ->
  hd_error (announced (events (generate env g hist))) = Some (0, 1, 1, 1, 1) /\
  hd_error (saved_paths (events (generate env g hist)))
    = Some (path_join (path_join (tiles_dir g) "0")
              ("0_0." ++ format g)).
Proof.
  intros Ho Hw Hh Hts Hv.
  destruct (generate_completed env g hist Hv)
    as (img' & Ho' & _ & Hs & Ha & _).
  assert (img' = img) by congruence. subst img'.
  assert (Hp : planned_grid (self_after (generate env g hist))
                 (fst (size img)) (snd (size img)) 0 = Ok (1, 1, 1, 1)).
  { apply level_zero_plan; try assumption; rewrite Hs; try assumption.
    reflexivity. }
  assert (HM : 0 < max_level (self_after (generate env g hist)) + 1).
  { rewrite Hs. cbn [set_max_level max_level].
    pose proof (Z.log2_up_nonneg (Z.max (fst (size img)) (snd (size img)))).
    lia. }
  destruct (py_range_cons _ HM) as [r Hr].
  split.
  - rewrite Ha, Hr. cbn [flat_map]. unfold planned_announcement at 1.
    rewrite Hp. reflexivity.
  - destruct (generate_shape env g hist)
      as [[Hne _] | (img2 & X & Y & Ho2 & _ & _ & _ & He & _ & _ & HY & _ & HX)];
      [congruence |].
    assert (img2 = img) by congruence. subst img2.
    rewrite He, saved_paths_app. cbn [saved_paths flat_map].
    fold (saved_paths Y). rewrite HY, HX.
    unfold pyramid_paths. rewrite Hr. cbn [flat_map].
    unfold level_paths at 1. rewrite Hp.
    rewrite Hs. reflexivity.
Qed.

Lemma coarsest_level_is_one_pixel_witness :
  hd_error (announced (events (generate (sample_env sample_image no_fault)
                                 sample_generator [])))
    = Some (0, 1, 1, 1, 1) /\
  hd_error (saved_paths (events (generate (sample_env sample_image no_fault)
                                   sample_generator [])))
    = Some "out_files/0/0_0.jpeg".
Proof.
  apply (coarsest_level_is_one_pixel (sample_env sample_image no_fault)
           sample_generator [] sample_image eq_refl);
    [simpl; lia | simpl; lia | simpl; lia | vm_compute; reflexivity].
Defined.


(** ** Properties of every tile of a run

    A property of events that holds of everything but the saves, that
    [_save_tile] keeps, and that does not look at [max_level], holds of
    the whole record of [generate]. *)

Section TileProperty.
Variable P : DZIGenerator -> event -> Prop.
Hypothesis P_other : forall g e, is_save e = false -> P g e.
Hypothesis P_save :
  forall env img dir col row lw lh,
    Steady P (_save_tile env img dir col row lw lh).
Hypothesis P_frame : forall g l e, P (set_max_level g l) e -> P g e.

Lemma tile_loop_tiles env img dir lw lh cols rows :
  Steady P (tile_loop env img dir lw lh cols rows).
Proof.
  unfold tile_loop.
  apply steady_for_each; intros acc row.
  apply steady_for_each; intros acc' col.
  unfold tile_step.
  apply steady_bind; [apply P_save | intros _].
  steady_tac ltac:(apply P_other; reflexivity).
Qed.

Lemma generate_level_tiles env img level w h :
  Steady P (_generate_level env img level w h).
Proof.
  intros g hist. unfold _generate_level.
  repeat walk.
  all: try walk_call Hloop.
  all: repeat walk.
  all: try match goal with
       | |- context [tile_loop ?e ?i ?d ?a ?b ?c ?r ?g ?h] =>
           destruct (tile_loop_tiles e i d a b c r g h) as [Hg Hc];
           rewrite ?Hg
       end.
  all: split; [reflexivity |].
  all: repeat first [apply Forall_app; split | apply Forall_cons
                    | apply Forall_nil].
  all: try exact Hc; apply P_other; reflexivity.
Qed.

Lemma level_loop_tiles env img w h :
  Steady P (level_loop env img w h).
Proof. apply level_loop_steady. intros level. apply generate_level_tiles. Qed.

Lemma before_levels_not_save e : before_levels e -> is_save e = false.
Proof.
  intros [Hl _]. destruct e as [m | a | a x]; try reflexivity;
    destruct a; simpl in *; congruence.
Qed.

Lemma generate_tiles env g hist : Forall (P g) (events (generate env g hist)).
Proof.
  destruct (generate_cases env g hist)
    as [(e & _ & _ & _ & He) | (img & hi & Ho & _ & _ & He)]; rewrite He.
  { repeat first [apply Forall_app; split | apply Forall_cons
                 | apply Forall_nil]; apply P_other; reflexivity. }
  destruct (generate_opened_cases env img g hi) as (hn & hl & Hrun).
  destruct (normalise_run env img g hn) as (_ & Hnb & _ & _).
  assert (Hn' : Forall (P g) (events (normalise env img g hn))).
  { eapply Forall_impl; [| exact Hnb].
    intros e Hb. apply P_other, before_levels_not_save, Hb. }
  assert (Hl' : Forall (P g)
                  (events
                     (level_loop env (normalised env img) (fst (size img))
                        (snd (size img))
                        (set_max_level g
                           (Z.log2_up
                              (Z.max (fst (size img)) (snd (size img)))))
                        hl))).
  { eapply Forall_impl;
      [| apply (proj2 (level_loop_tiles env (normalised env img)
                         (fst (size img)) (snd (size img)) _ hl))].
    intros e. apply P_frame. }
  destruct Hrun as [e Hn Hvo Hso Heo | Hn Hle Hvo Hso Heo
                   | e Hn Hlt Hf Hvo Hso Heo | e Hn Hlt Hl Hvo Hso Heo
                   | total e Hn Hlt Hl Hf Hvo Hso Heo
                   | total Hn Hlt Hl Hvo Hso Heo]; rewrite Heo;
    unfold intro_prints, opening_prints, plan_prints, closing_prints;
    repeat first [apply Forall_app; split | apply Forall_cons
                 | apply Forall_nil];
    try exact Hn'; try exact Hl'; apply P_other; reflexivity.
Qed.

End TileProperty.

(** ** The encoder *)

Lemma save_tile_encoder env img dir col row lw lh :
  Steady (fun g e =>
            forall p t enc,
              e = Did (SaveTile p t enc) \/
              (exists x, e = Failed (SaveTile p t enc) x) ->
              enc = (if String.eqb (format g) "jpeg" then JPEG (quality g)
                     else if String.eqb (format g) "png" then PNG
                     else ByExtension))
    (_save_tile env img dir col row lw lh).
Proof.
  intros g h. unfold _save_tile. walk.
  walk_crop; [| split; [reflexivity | constructor]]. cbv zeta.
  destruct (String.eqb (format g) "jpeg");
    [| destruct (String.eqb (format g) "png")];
    repeat walk;
    unfold perform;
    repeat match goal with
    | |- context [fault ?e ?hh ?a] => destruct (fault e hh a)
    end; cbn [value self_after events app];
    (split; [reflexivity |]);
    repeat first [apply Forall_cons | apply Forall_nil];
    intros p t enc [H | [x H]]; inversion H; reflexivity.
Qed.

(** X5.  Every tile of a run is handed to the encoder that the format
    names: JPEG with the quality of the generator when the format is
    ["jpeg"], PNG when it is ["png"], and otherwise whatever Pillow
    derives from the extension of the file, without the quality. *)
Theorem tiles_saved_with_encoder_of_format env g hist e p t enc :
  In e (events (generate env g hist)) ->
  e = Did (SaveTile p t enc) \/ (exists x, e = Failed (SaveTile p t enc) x) ->
  enc = (if String.eqb (format g) "jpeg" then JPEG (quality g)
         else if String.eqb (format g) "png" then PNG
         else ByExtension).
Proof.
  intros Hin He.
  pose proof (generate_tiles
                (fun g e =>
                   forall p t enc,
                     e = Did (SaveTile p t enc) \/
                     (exists x, e = Failed (SaveTile p t enc) x) ->
                     enc = (if String.eqb (format g) "jpeg"
                            then JPEG (quality g)
                            else if String.eqb (format g) "png" then PNG
                            else ByExtension))) as H.
  cbv beta in H.
  assert (HF : Forall
                 (fun e => forall p t enc,
                     e = Did (SaveTile p t enc) \/
                     (exists x, e = Failed (SaveTile p t enc) x) ->
                     enc = (if String.eqb (format g) "jpeg"
                            then JPEG (quality g)
                            else if String.eqb (format g) "png" then PNG
                            else ByExtension))
                 (events (generate env g hist))).
  { apply H.
    - intros g0 e0 Hs p0 t0 enc0 [Hd | [x Hd]]; subst e0; discriminate Hs.
    - apply save_tile_encoder.
    - intros g0 l e0 H0. exact H0. }
  rewrite Forall_forall in HF. exact (HF e Hin p t enc He).
Qed.

Lemma tiles_saved_with_encoder_of_format_witness :
  JPEG 90 = (if String.eqb (format sample_generator) "jpeg"
             then JPEG (quality sample_generator)
             else if String.eqb (format sample_generator) "png" then PNG
             else ByExtension) /\
  ByExtension = (if String.eqb (format (__init__ "in.png" "out" 256 1 "JPG" 90)) "jpeg"
                 then JPEG 90
                 else if String.eqb (format (__init__ "in.png" "out" 256 1 "JPG" 90)) "png"
                      then PNG
                      else ByExtension).
Proof.
  split.
  - apply (tiles_saved_with_encoder_of_format
             (sample_env sample_image no_fault) sample_generator []
             (Did (SaveTile "out_files/9/1_0.jpeg"
                     (cropped sample_image (255, 0, 300, 200)) (JPEG 90)))
             "out_files/9/1_0.jpeg" (cropped sample_image (255, 0, 300, 200))
             (JPEG 90)).
    + vm_compute. find_in.
    + left. reflexivity.
  - apply (tiles_saved_with_encoder_of_format
             (sample_env sample_image no_fault)
             (__init__ "in.png" "out" 256 1 "JPG" 90) []
             (Did (SaveTile "out_files/9/1_0.jpg"
                     (cropped sample_image (255, 0, 300, 200)) ByExtension))
             "out_files/9/1_0.jpg" (cropped sample_image (255, 0, 300, 200))
             ByExtension).
    + vm_compute. find_in.
    + left. reflexivity.
Defined.

(** ** The number of tiles *)


Lemma sumZ_app l1 l2 : sumZ (l1 ++ l2) = sumZ l1 + sumZ l2.
Proof. induction l1 as [| x l1 IH]; simpl; [reflexivity | rewrite IH; lia]. Qed.

(** A loop that adds to its accumulator. *)
Lemma for_each_sum {A} (F : A -> Z) (l : list A) (body : Z -> A -> M Z) g :
  (forall acc x h b, In x l -> value (body acc x g h) = Ok b ->
     self_after (body acc x g h) = g /\ b = acc + F x) ->
  forall acc h b, value (for_each l body acc g h) = Ok b ->
    b = acc + sumZ (map F l).
Proof.
  induction l as [| x r IH]; intros Hb acc h b Hv.
  - cbn in Hv. injection Hv as <-. simpl. lia.
  - cbn [for_each] in Hv. apply bind_ok in Hv.
    destruct Hv as (a & Ha & Hk & _ & _).
    destruct (Hb acc x h a (or_introl eq_refl) Ha) as [Hg ->].
    rewrite Hg in Hk.
    apply IH in Hk; [| intros; apply Hb; [right |]; assumption].
    rewrite Hk. simpl. lia.
Qed.


Lemma level_loop_total env img w h g hist total :
  value (level_loop env img w h g hist) = Ok total ->
  total = sumZ (map (planned_tiles g w h) (py_range (max_level g + 1))).
Proof.
  unfold level_loop. step. cbn [app]. intros Hv.
  apply (for_each_sum (planned_tiles g w h)) in Hv; [lia |].
  intros acc level h' b _ Hb.
  destruct (level_step_ok _ _ _ _ _ _ _ _ _ Hb) as (Hg & _ & t & Ht).
  split; [exact Hg |].
  apply bind_ok in Hb. destruct Hb as (t' & Ht' & Hr & _).
  assert (t' = t) by congruence. subst t'.
  destruct (generate_level_ok _ _ _ _ _ _ _ _ Ht)
    as (Hg' & lw & lh & c & r & Hp & -> & _).
  rewrite Hg' in Hr. cbn in Hr. injection Hr as <-.
  unfold planned_tiles. rewrite Hp. reflexivity.
Qed.

Lemma length_flat_map_const {A B} (f : A -> list B) (l : list A) n :
  (forall x, In x l -> List.length (f x) = n) ->
  List.length (flat_map f l) = (List.length l * n)%nat.
Proof.
  induction l as [| x l IH]; intros H; [reflexivity |].
  cbn [flat_map]. rewrite length_app, H by (left; reflexivity).
  rewrite IH by (intros; apply H; right; assumption). simpl. lia.
Qed.

Lemma level_paths_length g w h level :
  0 < tile_size g -> 0 <= w -> 0 <= h -> 0 <= level <= max_level g ->
  Z.of_nat (List.length (level_paths g w h level)) = planned_tiles g w h level.
Proof.
  intros Hts Hw Hh Hl. unfold level_paths, planned_tiles.
  rewrite planned_grid_ok by lia.
  rewrite (length_flat_map_const _ _
             (Z.to_nat (- (- (- (- w / 2 ^ (max_level g - level))) / tile_size g))))
    by (intros; rewrite length_map, py_range_length; reflexivity).
  rewrite py_range_length.
  assert (Hpow : 0 < 2 ^ (max_level g - level))
    by (apply Z.pow_pos_nonneg; lia).
  pose proof (neg_floor_is_ceil w _ Hpow) as Hcw.
  pose proof (neg_floor_is_ceil h _ Hpow) as Hch.
  unfold is_ceil in Hcw, Hch.
  set (lw := - (- w / 2 ^ (max_level g - level))) in *.
  set (lh := - (- h / 2 ^ (max_level g - level))) in *.
  assert (0 <= lw) by nia. assert (0 <= lh) by nia.
  pose proof (neg_floor_is_ceil lw _ Hts) as Hc.
  pose proof (neg_floor_is_ceil lh _ Hts) as Hr.
  unfold is_ceil in Hc, Hr.
  set (cols := - (- lw / tile_size g)) in *.
  set (rows := - (- lh / tile_size g)) in *.
  assert (0 <= cols) by nia. assert (0 <= rows) by nia.
  rewrite Nat2Z.inj_mul, !Z2Nat.id by assumption. lia.
Qed.

Lemma pyramid_paths_length g w h :
  0 < tile_size g -> 0 <= w -> 0 <= h ->
  Z.of_nat (List.length (pyramid_paths g w h))
    = sumZ (map (planned_tiles g w h) (py_range (max_level g + 1))).
Proof.
  intros Hts Hw Hh. unfold pyramid_paths.
  assert (H : forall l, (forall x, In x l -> 0 <= x <= max_level g) ->
            Z.of_nat (List.length (flat_map (level_paths g w h) l))
              = sumZ (map (planned_tiles g w h) l)).
  { induction l as [| x l IH]; intros Hl; [reflexivity |].
    cbn [flat_map map sumZ fold_right]. rewrite length_app, Nat2Z.inj_add.
    rewrite level_paths_length by (try assumption; apply Hl; left; reflexivity).
    fold (sumZ (map (planned_tiles g w h) l)).
    rewrite IH by (intros; apply Hl; right; assumption). reflexivity. }
  apply H. intros x Hx. apply py_range_In in Hx. lia.
Qed.

Lemma saved_paths_length l : List.length (saved_paths l) = List.length (saved l).
Proof.
  induction l as [| e l IH]; [reflexivity |].
  unfold saved_paths, saved in *. cbn [flat_map]. rewrite !length_app, IH.
  destruct e as [m | a | a x]; try reflexivity. destruct a; reflexivity.
Qed.

(** X6.  The total that a run reports.  A run that returns [True], for a
    positive tile size (and an image whose dimensions are not
    negative), ends by printing the number of tiles that it saved, the
    name of the descriptor and the directory of the tiles. *)
Theorem reported_total_counts_saved_tiles env g hist img :
  image_open env (image_path g) = Ok img ->
  0 < tile_size g -> 0 <= fst (size img) -> 0 <= snd (size img) ->
  value (generate env g hist) = Ok true ->
  exists X,
    events (generate env g hist)
      = (X ++ [Print (MsgTotalTiles
                        (Z.of_nat (List.length
                                     (saved (events (generate env g hist))))));
               Print (MsgDziFile (dzi_file g));
               Print (MsgTilesDir (tiles_dir g));
               Print MsgRule])%list.
Proof.
  intros Ho Hts Hw Hh Hv.
  destruct (generate_shape env g hist)
    as [[Hne _] | (img2 & X & Y & Ho2 & _ & Hs2 & _ & He2 & _ & _ & HY & _ & HX)];
    [congruence |].
  assert (img2 = img) by congruence. subst img2.
  assert (Hlen : Z.of_nat (List.length (saved (events (generate env g hist))))
                 = sumZ (map (planned_tiles
                                (set_max_level g
                                   (Z.log2_up (Z.max (fst (size img))
                                                 (snd (size img)))))
                                (fst (size img)) (snd (size img)))
                           (py_range
                              (Z.log2_up (Z.max (fst (size img))
                                            (snd (size img))) + 1)))).
  { rewrite <- saved_paths_length. rewrite He2 at 1.
    rewrite saved_paths_app. cbn [saved_paths flat_map].
    fold (saved_paths Y). rewrite HY, HX, app_nil_r, Hs2.
    apply pyramid_paths_length; assumption. }
  destruct (generate_cases env g hist)
    as [(e & Ho' & _) | (img' & hi & Ho' & Hv' & Hs & He)];
    [congruence |].
  assert (img' = img) by congruence. subst img'.
  destruct (generate_opened_cases env img g hi) as (hn & hl & Hrun).
  rewrite Hv' in Hv.
  destruct Hrun as [e Hn Hvo Hso Heo | Hn Hle Hvo Hso Heo
                   | e Hn Hlt Hf Hvo Hso Heo | e Hn Hlt Hl Hvo Hso Heo
                   | total e Hn Hlt Hl Hf Hvo Hso Heo
                   | total Hn Hlt Hl Hvo Hso Heo]; try congruence.
  pose proof (level_loop_total _ _ _ _ _ _ _ Hl) as Ht.
  cbn [set_max_level max_level] in Ht.
  rewrite Hlen, <- Ht, He, Heo. unfold closing_prints.
  eexists.
  repeat rewrite app_assoc.
  change [Print (MsgDescriptor (dzi_file g)); Print MsgRule; Print MsgComplete;
          Print MsgTime; Print (MsgTotalTiles total);
          Print (MsgDziFile (dzi_file g)); Print (MsgTilesDir (tiles_dir g));
          Print MsgRule]
    with ([Print (MsgDescriptor (dzi_file g)); Print MsgRule; Print MsgComplete;
           Print MsgTime]
            ++ [Print (MsgTotalTiles total);
                Print (MsgDziFile (dzi_file g)); Print (MsgTilesDir (tiles_dir g));
                Print MsgRule])%list.
  rewrite app_assoc. reflexivity.
Qed.

Lemma reported_total_counts_saved_tiles_witness :
  exists X,
    events (generate (sample_env sample_image no_fault) sample_generator [])
      = (X ++ [Print (MsgTotalTiles
                        (Z.of_nat
                           (List.length
                              (saved (events (generate
                                                (sample_env sample_image no_fault)
                                                sample_generator []))))));
               Print (MsgDziFile "out.dzi");
               Print (MsgTilesDir "out_files");
               Print MsgRule])%list.
Proof.
  apply (reported_total_counts_saved_tiles (sample_env sample_image no_fault)
           sample_generator [] sample_image eq_refl);
    [simpl; lia | simpl; lia | simpl; lia | vm_compute; reflexivity].
Defined.

(** ** The names of the tiles *)

Lemma string_rev_onto_app s acc :
  string_rev_onto s acc = string_rev s ++ acc.
Proof.
  unfold string_rev. revert acc.
  induction s as [| c s IH]; intros acc; [reflexivity |].
  cbn [string_rev_onto]. rewrite IH, (IH (String c EmptyString)).
  rewrite string_app_assoc. reflexivity.
Qed.

Lemma string_rev_cons c s : string_rev (String c s) = string_rev s ++ chr c.
Proof. unfold string_rev at 1. cbn [string_rev_onto]. apply string_rev_onto_app. Qed.

Lemma string_rev_app a b : string_rev (a ++ b) = string_rev b ++ string_rev a.
Proof.
  induction a as [| c a IH].
  - cbn [append]. change (string_rev EmptyString) with EmptyString.
    rewrite string_app_nil_r. reflexivity.
  - cbn [append]. rewrite !string_rev_cons, IH, string_app_assoc. reflexivity.
Qed.

Lemma string_forallb_rev p s :
  string_forallb p (string_rev s) = string_forallb p s.
Proof.
  induction s as [| c s IH]; [reflexivity |].
  rewrite string_rev_cons, string_forallb_app, IH. cbn [string_forallb chr].
  rewrite andb_true_r. apply andb_comm.
Qed.

Lemma string_rev_nil s : string_rev s = EmptyString -> s = EmptyString.
Proof.
  destruct s as [| c s]; [reflexivity |]. rewrite string_rev_cons.
  destruct (string_rev s); discriminate.
Qed.

(** A text that ends with a character of a class does not end with a
    character outside it. *)
Lemma ends_with_other p c a s :
  string_forallb p s = true -> s <> EmptyString -> p c = false ->
  ends_with (chr c) (a ++ s) = false.
Proof.
  intros Hs Hne Hc. unfold ends_with. rewrite string_rev_app.
  rewrite <- string_forallb_rev in Hs.
  destruct (string_rev s) as [| d r] eqn:E.
  - apply string_rev_nil in E. contradiction.
  - cbn [string_forallb] in Hs. apply andb_true_iff in Hs. destruct Hs as [Hd _].
    cbn. destruct (Ascii.eqb_spec c d) as [-> | _]; [congruence | reflexivity].
Qed.

Lemma str_not_nil n : str n <> EmptyString.
Proof.
  intros H. pose proof (py_int_str n) as Hp. rewrite H in Hp. discriminate Hp.
Qed.

Lemma str_inj a b : str a = str b -> a = b.
Proof.
  intros H. pose proof (py_int_str a) as Ha. rewrite H, py_int_str in Ha.
  congruence.
Qed.


Lemma path_join_separator a b : path_join a b = a ++ separator a ++ b.
Proof.
  unfold path_join, separator. destruct a as [| c a]; [reflexivity |].
  destruct (ends_with "/" (String c a)); reflexivity.
Qed.

Lemma tile_path_shape g level col row :
  tile_path g level col row
    = (tiles_dir g ++ separator (tiles_dir g)) ++ str level ++ "/"
        ++ str col ++ "_" ++ str row ++ "." ++ format g.
Proof.
  unfold tile_path, tile_filename. rewrite !path_join_separator.
  assert (Hsep : separator (tiles_dir g ++ separator (tiles_dir g) ++ str level)
                 = "/").
  { unfold separator at 1.
    destruct (tiles_dir g ++ separator (tiles_dir g) ++ str level) eqn:E.
    - exfalso. destruct (tiles_dir g); [| discriminate E].
      cbn in E. exact (str_not_nil _ E).
    - rewrite <- E, <- string_app_assoc.
      change "/" with (chr "/") at 1.
      rewrite (ends_with_other is_int_char); auto using str_chars, str_not_nil. }
  rewrite Hsep, !string_app_assoc. reflexivity.
Qed.

Lemma string_app_inv_head a x y : a ++ x = a ++ y -> x = y.
Proof.
  induction a as [| c a IH]; intros H; [exact H |].
  injection H as H. apply IH, H.
Qed.

(** Two texts cut at the first occurrence of a character. *)
Lemma split_at_char c a b x y :
  string_forallb (fun d => negb (Ascii.eqb d c)) a = true ->
  string_forallb (fun d => negb (Ascii.eqb d c)) b = true ->
  a ++ String c x = b ++ String c y -> a = b /\ x = y.
Proof.
  revert b. induction a as [| d a IH]; intros b Ha Hb H.
  - destruct b as [| e b]; cbn in H.
    + injection H as <-. auto.
    + injection H as <- _. cbn in Hb. rewrite Ascii.eqb_refl in Hb.
      discriminate Hb.
  - destruct b as [| e b]; cbn in H.
    + injection H as -> _. cbn in Ha. rewrite Ascii.eqb_refl in Ha.
      discriminate Ha.
    + injection H as -> H. cbn in Ha, Hb.
      apply andb_true_iff in Ha. apply andb_true_iff in Hb.
      destruct (IH b (proj2 Ha) (proj2 Hb) H) as [-> ->]. auto.
Qed.

Lemma str_without c n :
  is_int_char c = false ->
  string_forallb (fun d => negb (Ascii.eqb d c)) (str n) = true.
Proof.
  intros Hc. eapply string_forallb_impl; [| apply str_chars].
  intros d Hd. destruct (Ascii.eqb_spec d c) as [-> | _];
    [congruence | reflexivity].
Qed.

Lemma tile_path_inj g l c r l' c' r' :
  tile_path g l c r = tile_path g l' c' r' -> l = l' /\ c = c' /\ r = r'.
Proof.
  rewrite !tile_path_shape. intros H.
  apply string_app_inv_head in H.
  apply (split_at_char "/") in H; try (apply str_without; reflexivity).
  destruct H as [Hl H]. apply str_inj in Hl.
  apply (split_at_char "_") in H; try (apply str_without; reflexivity).
  destruct H as [Hc H]. apply str_inj in Hc.
  apply (split_at_char ".") in H; try (apply str_without; reflexivity).
  destruct H as [Hr _]. apply str_inj in Hr. auto.
Qed.

Lemma NoDup_map_inj {A B} (f : A -> B) (l : list A) :
  (forall x y, f x = f y -> x = y) -> NoDup l -> NoDup (map f l).
Proof.
  intros Hf. induction 1 as [| x l Hx Hl IH]; [constructor |].
  cbn [map]. constructor; [| exact IH].
  intros Hin. apply in_map_iff in Hin. destruct Hin as (y & Hy & Hin).
  apply Hf in Hy. subst y. contradiction.
Qed.

Lemma py_range_NoDup n : NoDup (py_range n).
Proof.
  unfold py_range. apply NoDup_map_inj; [| apply seq_NoDup].
  intros a b. apply Nat2Z.inj.
Qed.

Lemma NoDup_flat_map {A B} (f : A -> list B) (l : list A) :
  NoDup l -> (forall x, In x l -> NoDup (f x)) ->
  (forall x y b, In x l -> In y l -> In b (f x) -> In b (f y) -> x = y) ->
  NoDup (flat_map f l).
Proof.
  induction l as [| x l IH]; intros Hl Hf Hd; [constructor |].
  cbn [flat_map]. apply NoDup_cons_iff in Hl. destruct Hl as [Hx Hl].
  apply NoDup_app.
  - apply Hf. left. reflexivity.
  - apply IH; [exact Hl | intros; apply Hf; right; assumption |].
    intros y z b Hy Hz. apply Hd; right; assumption.
  - intros b Hb Hb'. apply in_flat_map in Hb'. destruct Hb' as (y & Hy & Hby).
    assert (x = y) by (apply (Hd x y b); auto; [left | right]; auto).
    subst y. contradiction.
Qed.

Lemma level_paths_In g w h level p :
  In p (level_paths g w h level) -> exists col row, p = tile_path g level col row.
Proof.
  unfold level_paths.
  destruct (planned_grid g w h level) as [[[[lw lh] cols] rows] | e];
    [| intros []].
  intros H. apply in_flat_map in H. destruct H as (row & _ & H).
  apply in_map_iff in H. destruct H as (col & <- & _). eauto.
Qed.

Lemma level_paths_NoDup g w h level : NoDup (level_paths g w h level).
Proof.
  unfold level_paths.
  destruct (planned_grid g w h level) as [[[[lw lh] cols] rows] | e];
    [| constructor].
  apply NoDup_flat_map.
  - apply py_range_NoDup.
  - intros row _. apply NoDup_map_inj; [| apply py_range_NoDup].
    intros c c' H. apply tile_path_inj in H. tauto.
  - intros r r' b _ _ Hb Hb'.
    apply in_map_iff in Hb. destruct Hb as (c & <- & _).
    apply in_map_iff in Hb'. destruct Hb' as (c' & Hb' & _).
    apply tile_path_inj in Hb'. destruct Hb' as (_ & _ & ->). reflexivity.
Qed.

Lemma pyramid_paths_NoDup g w h : NoDup (pyramid_paths g w h).
Proof.
  unfold pyramid_paths. apply NoDup_flat_map.
  - apply py_range_NoDup.
  - intros level _. apply level_paths_NoDup.
  - intros l l' b _ _ Hb Hb'.
    apply level_paths_In in Hb. destruct Hb as (c & r & ->).
    apply level_paths_In in Hb'. destruct Hb' as (c' & r' & Hb').
    apply tile_path_inj in Hb'. tauto.
Qed.

(** X7.  No tile is saved over another: the names of the tiles of a pyramid
    determine the level, the column and the row, whatever the directory
    and the format, so a run that returns [True] has saved every tile
    to a file of its own. *)
Theorem tiles_saved_to_distinct_files env g hist :
  value (generate env g hist) = Ok true ->
  NoDup (saved_paths (events (generate env g hist))) /\
  forall level col row level' col' row',
    tile_path g level col row = tile_path g level' col' row' ->
    level = level' /\ col = col' /\ row = row'.
Proof.
  intros Hv. split; [| intros; apply (tile_path_inj g); assumption].
  destruct (generate_shape env g hist)
    as [[Hne _] | (img & X & Y & _ & _ & _ & _ & He & _ & _ & HY & _ & HX)];
    [congruence |].
  rewrite He at 1. rewrite saved_paths_app. cbn [saved_paths flat_map].
  fold (saved_paths Y). rewrite HY, HX, app_nil_r.
  apply pyramid_paths_NoDup.
Qed.

Lemma tiles_saved_to_distinct_files_witness :
  NoDup (saved_paths (events (generate (sample_env sample_image no_fault)
                                sample_generator []))).
Proof.
  apply (proj1 (tiles_saved_to_distinct_files (sample_env sample_image no_fault)
                  sample_generator [] ltac:(vm_compute; reflexivity))).
Defined.

(** * Further properties of the diagnostic tool *)

Lemma vbind_ok {A B} (m : V A) (k : A -> V B) out b :
  vbind m k = (out, Ok b) ->
  exists o1 a o2, m = (o1, Ok a) /\ k a = (o2, Ok b) /\ out = (o1 ++ o2)%list.
Proof.
  unfold vbind. destruct m as [o1 [a | e]]; [| discriminate].
  destruct (k a) as [o2 r] eqn:E. intros H. injection H as <- ->.
  exists o1, a, o2. auto.
Qed.

Lemma vbind_say {B} n (k : unit -> V B) :
  vbind (say n) k = (n :: fst (k tt), snd (k tt)).
Proof. unfold vbind, say. destruct (k tt). reflexivity. Qed.

Lemma vbind_raise {A B} out e (k : A -> V B) :
  vbind (out, Raise e) k = (out, Raise e).
Proof. reflexivity. Qed.

Lemma vbind_value {A B} out (a : A) (k : A -> V B) :
  vbind (out, Ok a) k = ((out ++ fst (k a))%list, snd (k a)).
Proof. unfold vbind. destruct (k a). reflexivity. Qed.

(** X8.  [check_original_image] never raises.  It returns [None] when the
    file does not exist, the pair of the dimensions when the image
    opens and its size on disk can be read, and the pair
    [(None, None)] when either of these fails. *)
Theorem check_original_image_never_raises fs p :
  exists notes v,
    check_original_image fs p = (notes, Ok v) /\
    ((path_exists fs p = false /\ v = PyNone) \/
     (path_exists fs p = true /\
      exists img n,
        open_image fs p = Ok img /\ get_size fs p = Ok n /\
        v = PyTuple [PyInt (fst (size img)); PyInt (snd (size img))]) \/
     (path_exists fs p = true /\
      ((exists e, open_image fs p = Raise e) \/
       (exists img e, open_image fs p = Ok img /\ get_size fs p = Raise e)) /\
      v = PyTuple [PyNone; PyNone])).
Proof.
  unfold check_original_image.
  destruct (path_exists fs p) eqn:Hex; cbn [negb].
  - destruct (open_image fs p) as [img | e] eqn:Hop.
    + destruct (get_size fs p) as [n | e] eqn:Hsz.
      * destruct (size img) as [w h] eqn:Hs.
        do 2 eexists. split.
        { unfold vlift, try_except. rewrite !vbind_say. cbn.
          rewrite Hs. cbn. reflexivity. }
        right. left. split; [reflexivity |].
        exists img, n. rewrite Hs. auto.
      * destruct (size img) as [w h] eqn:Hs.
        do 2 eexists. split.
        { unfold vlift, try_except. rewrite !vbind_say. cbn.
          rewrite Hs. cbn. reflexivity. }
        right. right. split; [reflexivity |]. split; [| reflexivity].
        right. exists img, e. auto.
    + do 2 eexists. split; [reflexivity |].
      right. right. split; [reflexivity |]. split; [| reflexivity].
      left. exists e. reflexivity.
  - do 2 eexists. split; [reflexivity |]. left. auto.
Qed.



(** X10.  When either side has no dimensions to offer, nothing is compared:
    if [diagnose_dzi] raises, so does [compare_dimensions], without
    looking at the reference image; if [diagnose_dzi] or
    [check_original_image] returns [None], [compare_dimensions] prints
    nothing of its own and returns. *)
Theorem compare_dimensions_without_dimensions fs dzi orig :
  (forall n1 e, diagnose_dzi fs dzi = (n1, Raise e) ->
     compare_dimensions fs dzi orig = (n1, Raise e)) /\
  (forall n1 v1 n2 v2,
     diagnose_dzi fs dzi = (n1, Ok v1) ->
     check_original_image fs orig = (n2, Ok v2) ->
     v1 = PyNone \/ v2 = PyNone ->
     compare_dimensions fs dzi orig = ((n1 ++ n2)%list, Ok tt)).
Proof.
  split.
  - intros n1 e Hd. unfold compare_dimensions. rewrite Hd. reflexivity.
  - intros n1 v1 n2 v2 Hd Hc Hv. unfold compare_dimensions.
    rewrite Hd, Hc, !vbind_value. cbn [fst snd].
    assert (Hb : truthy v1 && truthy v2 = false).
    { destruct Hv as [-> | ->]; [reflexivity |]. apply andb_false_r. }
    rewrite Hb. cbn. rewrite !app_nil_r. reflexivity.
Qed.

Lemma vbind_snd_ok {A B} (m : V A) (k : A -> V B) b :
  snd (vbind m k) = Ok b -> exists a, snd m = Ok a /\ snd (k a) = Ok b.
Proof.
  unfold vbind. destruct m as [o1 [a | e]]; [| discriminate].
  destruct (k a) as [o2 r] eqn:E. cbn. intros ->. exists a. rewrite E. auto.
Qed.

Lemma vbind_snd_raise {A B} (m : V A) (k : A -> V B) e :
  snd m = Raise e -> snd (vbind m k) = Raise e.
Proof. unfold vbind. destruct m as [o1 [a | e']]; cbn; congruence. Qed.

Lemma vbind_snd_value {A B} (m : V A) (k : A -> V B) a :
  snd m = Ok a -> snd (vbind m k) = snd (k a).
Proof.
  unfold vbind. destruct m as [o1 [a' | e']]; cbn; [| congruence].
  intros [= ->]. destruct (k a). reflexivity.
Qed.

(** X11.  [diagnose_dzi] returns [None] rather than raising when there is no
    descriptor, when the descriptor cannot be read or parsed (not
    well-formed, no [Size] element, an attribute that is missing or not
    an integer), and when the folder of the tiles does not exist. *)
Theorem diagnose_dzi_returns_none fs f :
  path_exists fs f = false \/
  (exists e, read_text fs f = Raise e) \/
  (exists text e, read_text fs f = Ok text /\ parse_descriptor text = Raise e) \/
  path_exists fs (replace ".dzi" "_files" f) = false ->
  snd (diagnose_dzi fs f) = Ok PyNone.
Proof.
  intros H. unfold diagnose_dzi. rewrite !vbind_say. cbn [snd].
  destruct (path_exists fs f) eqn:Hex; cbn [negb]; [| reflexivity].
  destruct H as [H | H]; [discriminate H |].
  rewrite ?vbind_say. cbn [snd].
  destruct (read_text fs f) as [text | e] eqn:Hr; [| reflexivity].
  cbn -[replace parse_descriptor sort_by_int].
  destruct (parse_descriptor text) as [[[[[w h] ts] ov] fmt] | e] eqn:Hp;
    [| reflexivity].
  destruct H as [[e H] | [(text' & e & H & Hp') | H]]; try congruence.
  cbn -[replace sort_by_int]. rewrite H. reflexivity.
Qed.

Lemma diagnose_dzi_returns_none_witness :
  snd (diagnose_dzi sample_fs "out.dzi") <> Ok PyNone /\
  snd (diagnose_dzi {| path_exists := fun _ => true;
                       is_dir := is_dir sample_fs;
                       list_dir := list_dir sample_fs;
                       read_text := fun _ => Ok "<Image TileSize='1'/>";
                       open_image := open_image sample_fs;
                       get_size := get_size sample_fs |} "out.dzi")
    = Ok PyNone.
Proof.
  split; [vm_compute; discriminate |].
  apply diagnose_dzi_returns_none. right. right. left.
  exists "<Image TileSize='1'/>", AttributeError.
  split; [reflexivity | vm_compute; reflexivity].
Defined.

Lemma py_int_raises s e : py_int s = Raise e -> e = ValueError.
Proof. unfold py_int. destruct (int_literal (strip s)); congruence. Qed.

Lemma keyed_raises l d :
  In d l -> py_int d = Raise ValueError -> keyed l = Raise ValueError.
Proof.
  induction l as [| x l IH]; intros Hin Hd; [destruct Hin |].
  cbn [keyed]. destruct (py_int x) as [k |e] eqn:Hx.
  - destruct Hin as [-> | Hin]; [congruence |].
    cbn [result_bind]. rewrite (IH Hin Hd). reflexivity.
  - apply py_int_raises in Hx. subst e. reflexivity.
Qed.

(** X12.  What is not guarded.  Once the descriptor is parsed and the folder
    of the tiles exists, a folder without any sub-directory makes
    [levels[-1]] raise [IndexError] (after zero levels and zero tiles
    were reported), and a sub-directory whose name is not an integer
    makes [levels.sort(key=int)] raise [ValueError]. *)
Theorem diagnose_dzi_unguarded_errors fs f text v names :
  path_exists fs f = true ->
  read_text fs f = Ok text ->
  parse_descriptor text = Ok v ->
  path_exists fs (replace ".dzi" "_files" f) = true ->
  list_dir fs (replace ".dzi" "_files" f) = Ok names ->
  (filter (fun d => is_dir fs (path_join (replace ".dzi" "_files" f) d)) names
     = [] ->
   snd (diagnose_dzi fs f) = Raise IndexError /\
   exists notes,
     fst (diagnose_dzi fs f) = (notes ++ [NoteLevels 0; NoteTotal 0])%list) /\
  (forall d,
     In d names ->
     is_dir fs (path_join (replace ".dzi" "_files" f) d) = true ->
     py_int d = Raise ValueError ->
     snd (diagnose_dzi fs f) = Raise ValueError).
Proof.
  intros Hex Hr Hp Hex' Hl.
  destruct v as [[[[w h] ts] ov] fmt].
  split.
  - intros Hnone. unfold diagnose_dzi.
    rewrite Hex, Hr. cbn -[replace parse_descriptor sort_by_int].
    rewrite Hp. cbn -[replace sort_by_int]. rewrite Hex', Hl.
    cbn -[replace]. rewrite Hnone. cbn.
    split; [reflexivity |].
    eexists. rewrite <- app_comm_cons.
    change (?a :: ?b :: ?c :: ?d :: ?e :: ?f :: ?r)
      with ([a; b; c; d; e; f] ++ r)%list.
    reflexivity.
  - intros d Hin Hdir Hd. unfold diagnose_dzi.
    rewrite Hex, Hr. cbn -[replace parse_descriptor sort_by_int].
    rewrite Hp. cbn -[replace sort_by_int]. rewrite Hex', Hl.
    cbn -[replace sort_by_int].
    assert (Hs : sort_by_int
                   (filter
                      (fun d => is_dir fs (path_join (replace ".dzi" "_files" f) d))
                      names) = Raise ValueError).
    { unfold sort_by_int. rewrite (keyed_raises _ d); [reflexivity | | exact Hd].
      apply filter_In. auto. }
    rewrite Hs. reflexivity.
Qed.

Lemma diagnose_dzi_unguarded_errors_witness :
  snd (diagnose_dzi {| path_exists := fun _ => true;
                       is_dir := fun _ => false;
                       list_dir := list_dir sample_fs;
                       read_text := read_text sample_fs;
                       open_image := open_image sample_fs;
                       get_size := get_size sample_fs |} "out.dzi")
    = Raise IndexError /\
  snd (diagnose_dzi {| path_exists := fun _ => true;
                       is_dir := fun _ => true;
                       list_dir := fun _ => Ok ["0"; "thumbs"];
                       read_text := read_text sample_fs;
                       open_image := open_image sample_fs;
                       get_size := get_size sample_fs |} "out.dzi")
    = Raise ValueError.
Proof.
  split.
  - apply (proj1 (diagnose_dzi_unguarded_errors
                    {| path_exists := fun _ => true;
                       is_dir := fun _ => false;
                       list_dir := list_dir sample_fs;
                       read_text := read_text sample_fs;
                       open_image := open_image sample_fs;
                       get_size := get_size sample_fs |} "out.dzi"
                    (dzi_content "jpeg" 1 256 200 300 "out_files")
                    (300, 200, 256, 1, Some "jpeg") ["0"]
                    eq_refl eq_refl ltac:(vm_compute; reflexivity)
                    eq_refl eq_refl) eq_refl).
  - apply (proj2 (diagnose_dzi_unguarded_errors
                    {| path_exists := fun _ => true;
                       is_dir := fun _ => true;
                       list_dir := fun _ => Ok ["0"; "thumbs"];
                       read_text := read_text sample_fs;
                       open_image := open_image sample_fs;
                       get_size := get_size sample_fs |} "out.dzi"
                    (dzi_content "jpeg" 1 256 200 300 "out_files")
                    (300, 200, 256, 1, Some "jpeg") ["0"; "thumbs"]
                    eq_refl eq_refl ltac:(vm_compute; reflexivity)
                    eq_refl eq_refl) "thumbs");
      [right; left; reflexivity | reflexivity | vm_compute; reflexivity].
Defined.

Lemma compare_dimensions_without_dimensions_witness :
  let fs := {| path_exists := fun p => negb (String.eqb p "ref.png");
               is_dir := is_dir sample_fs;
               list_dir := list_dir sample_fs;
               read_text := read_text sample_fs;
               open_image := open_image sample_fs;
               get_size := get_size sample_fs |} in
  snd (compare_dimensions fs "out.dzi" "ref.png") = Ok tt /\
  snd (compare_dimensions
         {| path_exists := fun _ => true;
            is_dir := fun _ => false;
            list_dir := list_dir sample_fs;
            read_text := read_text sample_fs;
            open_image := open_image sample_fs;
            get_size := get_size sample_fs |} "out.dzi" "ref.png")
    = Raise IndexError.
Proof.
  intros fs. split.
  - rewrite (proj2 (compare_dimensions_without_dimensions fs "out.dzi" "ref.png")
               (fst (diagnose_dzi fs "out.dzi")) (PyTuple [PyInt 300; PyInt 200])
               (fst (check_original_image fs "ref.png")) PyNone
               ltac:(vm_compute; reflexivity) ltac:(vm_compute; reflexivity)
               (or_intror eq_refl)).
    reflexivity.
  - match goal with
    | |- snd (compare_dimensions ?fs2 _ _) = _ =>
        rewrite (proj1 (compare_dimensions_without_dimensions fs2 "out.dzi"
                          "ref.png")
                   (fst (diagnose_dzi fs2 "out.dzi")) IndexError
                   ltac:(vm_compute; reflexivity))
    end.
    reflexivity.
Defined.

Ltac vinv H :=
  let a := fresh "a" in
  let Ha := fresh "Ha" in
  apply vbind_snd_ok in H; destruct H as (a & Ha & H).

(** The value of [diagnose_dzi], read off its last line. *)
Lemma diagnose_dzi_value fs f v :
  snd (diagnose_dzi fs f) = Ok v ->
  v = PyNone \/
  exists text w h ts ov fmt,
    read_text fs f = Ok text /\
    parse_descriptor text = Ok (w, h, ts, ov, fmt) /\
    v = PyTuple [PyInt w; PyInt h].
Proof.
  unfold diagnose_dzi. intros H.
  rewrite !vbind_say in H. cbn [snd] in H.
  destruct (path_exists fs f); cbn [negb] in H;
    [| left; cbn in H; congruence].
  vinv H.
  destruct a as [[w h] |]; [| left; cbn in H; congruence].
  destruct (path_exists fs (replace ".dzi" "_files" f)); cbn [negb] in H;
    [| left; cbn in H; congruence].
  right.
  destruct (read_text fs f) as [text | e]; [| discriminate Ha].
  cbn -[parse_descriptor] in Ha.
  destruct (parse_descriptor text) as [[[[[w' h'] ts] ov] fmt] | e] eqn:Hp;
    [| discriminate Ha].
  cbn in Ha. injection Ha as -> ->.
  exists text, w, h, ts, ov, fmt.
  split; [reflexivity |]. split; [exact Hp |].
  repeat first [ rewrite vbind_say in H; cbn [snd] in H | vinv H ].
  cbn in H. congruence.
Qed.

Lemma check_original_image_opened fs p img n :
  path_exists fs p = true -> open_image fs p = Ok img -> get_size fs p = Ok n ->
  snd (check_original_image fs p)
    = Ok (PyTuple [PyInt (fst (size img)); PyInt (snd (size img))]).
Proof.
  intros Hex Hop Hsz. unfold check_original_image.
  rewrite Hex, Hop, Hsz. cbn [negb]. rewrite !vbind_say. cbn [snd].
  unfold try_except, vlift. rewrite vbind_value. cbn [fst snd].
  destruct (size img) as [w h]. reflexivity.
Qed.

Lemma compare_dimensions_match fs dzi orig w h :
  snd (diagnose_dzi fs dzi) = Ok (PyTuple [PyInt w; PyInt h]) ->
  snd (check_original_image fs orig) = Ok (PyTuple [PyInt w; PyInt h]) ->
  compare_dimensions fs dzi orig
    = ((fst (diagnose_dzi fs dzi) ++ fst (check_original_image fs orig)
          ++ [NoteRule; NoteComparison; NoteRule; NoteMatch])%list, Ok tt).
Proof.
  unfold compare_dimensions.
  destruct (diagnose_dzi fs dzi) as [n1 r1].
  destruct (check_original_image fs orig) as [n2 r2].
  cbn [fst snd]. intros -> ->. cbn -[Z.eqb]. rewrite !Z.eqb_refl.
  reflexivity.
Qed.

(** X13.  Whatever [diagnose_dzi] returns that is not [None] is the pair of
    the width and height that the descriptor declares: the tiles on
    disk have no part in it, and a sample tile that cannot be opened
    does not change it. *)
Theorem diagnose_dzi_returns_declared_size fs f notes v :
  diagnose_dzi fs f = (notes, Ok v) ->
  v = PyNone \/
  exists text w h ts ov fmt,
    read_text fs f = Ok text /\
    parse_descriptor text = Ok (w, h, ts, ov, fmt) /\
    v = PyTuple [PyInt w; PyInt h].
Proof.
  intros H. apply diagnose_dzi_value.
  rewrite H. reflexivity.
Qed.

Lemma diagnose_dzi_returns_declared_size_witness :
  PyTuple [PyInt 300; PyInt 200] = PyNone \/
  exists text w h ts ov fmt,
    read_text sample_fs "out.dzi" = Ok text /\
    parse_descriptor text = Ok (w, h, ts, ov, fmt) /\
    PyTuple [PyInt 300; PyInt 200] = PyTuple [PyInt w; PyInt h].
Proof.
  apply (diagnose_dzi_returns_declared_size sample_fs "out.dzi"
           (fst (diagnose_dzi sample_fs "out.dzi"))).
  vm_compute. reflexivity.
Defined.

(** X14.  The two programs together.  For a pyramid that a run of
    [generate] returning [True] produced (format and directory name
    being text that XML takes as it is), if the diagnostic tool reads
    the descriptor that the run wrote and gets through its checks, and
    the reference image is the source image, then
    [compare_dimensions] reports that the dimensions match and returns
    normally. *)
Theorem generated_pyramid_is_diagnosed_as_matching
    env g hist img fs original n v :
  value (generate env g hist) = Ok true ->
  image_open env (image_path g) = Ok img ->
  plain (format g) = true -> plain (basename (tiles_dir g)) = true ->
  (forall c, In (dzi_file g, c) (written (events (generate env g hist))) ->
             read_text fs (dzi_file g) = Ok c) ->
  path_exists fs original = true ->
  open_image fs original = Ok img ->
  get_size fs original = Ok n ->
  snd (diagnose_dzi fs (dzi_file g)) = Ok v -> v <> PyNone ->
  snd (compare_dimensions fs (dzi_file g) original) = Ok tt /\
  In NoteMatch (fst (compare_dimensions fs (dzi_file g) original)).
Proof.
  intros Hv Ho Hpf Hpd Hread Hex Hop Hsz Hd Hnn.
  destruct (generate_completed env g hist Hv)
    as (img' & Ho' & _ & _ & _ & _ & Hw).
  assert (img' = img) by congruence. subst img'.
  assert (Hr : read_text fs (dzi_file g) = Ok (descriptor_text g img))
    by (apply Hread; rewrite Hw; left; reflexivity).
  destruct (diagnose_dzi_value fs (dzi_file g) v Hd)
    as [-> | (text & w & h & ts & ov & fmt & Hr' & Hp & ->)];
    [congruence |].
  assert (text = descriptor_text g img) by congruence. subst text.
  unfold descriptor_text in Hp.
  rewrite descriptor_round_trip in Hp by assumption.
  injection Hp as <- <- _ _ _.
  pose proof (check_original_image_opened fs original img n Hex Hop Hsz) as Hc.
  rewrite (compare_dimensions_match _ _ _ _ _ Hd Hc). cbn [fst snd].
  split; [reflexivity |].
  apply in_or_app. right. apply in_or_app. right. simpl. auto.
Qed.

Lemma generated_pyramid_is_diagnosed_as_matching_witness :
  let fs := {| path_exists := path_exists sample_fs;
               is_dir := is_dir sample_fs;
               list_dir := list_dir sample_fs;
               read_text := read_text sample_fs;
               open_image := fun _ => Ok sample_image;
               get_size := get_size sample_fs |} in
  snd (compare_dimensions fs "out.dzi" "in.png") = Ok tt /\
  In NoteMatch (fst (compare_dimensions fs "out.dzi" "in.png")).
Proof.
  intros fs.
  apply (generated_pyramid_is_diagnosed_as_matching
           (sample_env sample_image no_fault) sample_generator [] sample_image
           fs "in.png" 1000 (PyTuple [PyInt 300; PyInt 200])).
  - vm_compute. reflexivity.
  - reflexivity.
  - reflexivity.
  - reflexivity.
  - intros c Hin.
    assert (Hw : written (events (generate (sample_env sample_image no_fault)
                                    sample_generator []))
                 = [("out.dzi", dzi_content "jpeg" 1 256 200 300 "out_files")])
      by (vm_compute; reflexivity).
    rewrite Hw in Hin. destruct Hin as [Hin | []].
    injection Hin as <-. reflexivity.
  - reflexivity.
  - reflexivity.
  - reflexivity.
  - vm_compute. reflexivity.
  - discriminate.
Defined.

(** ** Where the tool looks for what the generator wrote *)

(** A pattern that ends with its only ['.'] is matched within what
    comes before the first ['.'] and that ['.']. *)
Lemma starts_with_upto_dot p x y :
  string_forallb (fun c => negb (Ascii.eqb c ".")) p = true ->
  starts_with (p ++ ".") (x ++ String "." y) = starts_with (p ++ ".") (x ++ ".").
Proof.
  revert x. induction p as [| a p IH]; intros x Hp.
  - destruct x as [| c x]; reflexivity.
  - cbn [string_forallb] in Hp. apply andb_true_iff in Hp.
    destruct Hp as [Ha Hp]. apply negb_true_iff in Ha.
    destruct x as [| c x]; cbn [append starts_with].
    + rewrite Ha. reflexivity.
    + rewrite (IH x Hp). reflexivity.
Qed.

Lemma ends_with_extension p a f :
  string_forallb (fun c => negb (Ascii.eqb c ".")) p = true ->
  ends_with ("." ++ p) (a ++ "." ++ f) = ends_with ("." ++ p) ("." ++ f).
Proof.
  intros Hp. unfold ends_with.
  change ("." ++ p) with (String "." p). change ("." ++ f) with (String "." f).
  rewrite string_rev_app, !string_rev_cons, string_app_assoc.
  apply starts_with_upto_dot. rewrite string_forallb_rev. exact Hp.
Qed.

(** X15.  The files that [diagnose_dzi] counts as tiles are told by their
    extension alone: a tile of the generator is counted exactly when
    ['.'] followed by the format ends with [.jpg], [.jpeg] or [.png];
    so the tiles of the formats [jpg], [jpeg] and [png] are counted,
    and those of any other format are reported as 0 tiles. *)
Theorem tiles_counted_by_extension g col row :
  is_tile_name (tile_filename g col row) = is_tile_name ("." ++ format g) /\
  (In (format g) ["jpg"; "jpeg"; "png"] ->
   is_tile_name (tile_filename g col row) = true).
Proof.
  assert (H : is_tile_name (tile_filename g col row)
              = is_tile_name ("." ++ format g)).
  { unfold is_tile_name, tile_filename.
    replace (str col ++ "_" ++ str row ++ "." ++ format g)
      with ((str col ++ "_" ++ str row) ++ "." ++ format g)
      by (rewrite !string_app_assoc; reflexivity).
    rewrite (ends_with_extension "jpg"), (ends_with_extension "jpeg"),
      (ends_with_extension "png") by reflexivity.
    reflexivity. }
  split; [exact H |].
  intros Hin. rewrite H.
  destruct Hin as [<- | [<- | [<- | []]]]; reflexivity.
Qed.

Lemma tiles_counted_by_extension_witness :
  is_tile_name (tile_filename sample_generator 1 0) = true /\
  is_tile_name (tile_filename (__init__ "in.png" "out" 256 1 "webp" 90) 1 0)
    = false.
Proof.
  split.
  - apply (proj2 (tiles_counted_by_extension sample_generator 1 0)).
    right. left. reflexivity.
  - rewrite (proj1 (tiles_counted_by_extension
                      (__init__ "in.png" "out" 256 1 "webp" 90) 1 0)).
    reflexivity.
Defined.

Lemma starts_with_dzi_suffix name :
  name <> EmptyString ->
  starts_with ".dzi" (name ++ ".dzi") = starts_with ".dzi" name.
Proof.
  intros Hne.
  destruct name as [| c1 [| c2 [| c3 [| c4 r]]]]; [congruence | ..];
    cbn [append starts_with];
    repeat match goal with
    | |- context [Ascii.eqb ?a ?b] =>
        let v := eval vm_compute in (Ascii.eqb a b) in
        progress change (Ascii.eqb a b) with v
    end;
    rewrite ?andb_false_r, ?andb_true_r; reflexivity.
Qed.

Lemma replace_dzi_suffix name :
  contains ".dzi" name = false ->
  replace ".dzi" "_files" (name ++ ".dzi") = name ++ "_files".
Proof.
  unfold replace. induction name as [| c r IH]; intros Hc.
  - reflexivity.
  - cbn [contains] in Hc. apply orb_false_iff in Hc. destruct Hc as [Hs Hc].
    change (String c r ++ ".dzi") with (String c (r ++ ".dzi")).
    cbn [replace_from].
    change (String c (r ++ ".dzi")) with (String c r ++ ".dzi").
    rewrite starts_with_dzi_suffix by discriminate.
    rewrite Hs, (IH Hc). reflexivity.
Qed.

(** X16.  The folder in which [diagnose_dzi] looks for the tiles is the one
    the generator filled, as long as the output name does not itself
    contain [.dzi]: replacing [.dzi] by [_files] in the name of the
    descriptor of a generator gives its tile directory. *)
Theorem tiles_folder_of_descriptor image_path output_name ts ov fmt q :
  contains ".dzi" output_name = false ->
  replace ".dzi" "_files"
    (dzi_file (__init__ image_path output_name ts ov fmt q))
    = tiles_dir (__init__ image_path output_name ts ov fmt q).
Proof. intros H. cbn [__init__ dzi_file tiles_dir]. apply replace_dzi_suffix, H. Qed.

Lemma tiles_folder_of_descriptor_witness :
  replace ".dzi" "_files" (dzi_file sample_generator) = "out_files" /\
  replace ".dzi" "_files"
    (dzi_file (__init__ "in.png" "scan.dzi.v2" 256 1 "jpeg" 90))
    <> tiles_dir (__init__ "in.png" "scan.dzi.v2" 256 1 "jpeg" 90).
Proof.
  split.
  - apply (tiles_folder_of_descriptor "in.png" "out" 256 1 "jpeg" 90).
    reflexivity.
  - vm_compute. discriminate.
Defined.

(** ** The order of the levels *)

Lemma keyed_ok l kl :
  keyed l = Ok kl ->
  map snd kl = l /\ Forall (fun kd => py_int (snd kd) = Ok (fst kd)) kl.
Proof.
  revert kl. induction l as [| d l IH]; intros kl H.
  - injection H as <-. split; constructor.
  - cbn [keyed] in H. destruct (py_int d) as [k | e] eqn:Hd; [| discriminate H].
    cbn [result_bind] in H.
    destruct (keyed l) as [kr | e]; [| discriminate H].
    injection H as <-. destruct (IH kr eq_refl) as [Hm Hf].
    split; [cbn; rewrite Hm; reflexivity |].
    constructor; [exact Hd | exact Hf].
Qed.

Lemma insert_by_key_perm x l :
  Permutation.Permutation (insert_by_key x l) (x :: l).
Proof.
  induction l as [| y l IH]; cbn [insert_by_key].
  - apply Permutation.Permutation_refl.
  - destruct (fst x <? fst y).
    + apply Permutation.Permutation_refl.
    + eapply Permutation.perm_trans;
        [apply Permutation.perm_skip, IH | apply Permutation.perm_swap].
Qed.

Lemma insert_by_key_sorted x l :
  Sorted.StronglySorted (fun a b : Z * string => fst a <= fst b) l ->
  Sorted.StronglySorted (fun a b : Z * string => fst a <= fst b)
    (insert_by_key x l).
Proof.
  induction 1 as [| y l Hl IH Hy]; cbn [insert_by_key].
  - repeat constructor.
  - destruct (Z.ltb_spec (fst x) (fst y)) as [Hlt | Hge].
    + constructor; [constructor; assumption |].
      constructor; [lia |].
      eapply Forall_impl; [| exact Hy]. cbn. intros; lia.
    + constructor; [exact IH |].
      eapply Permutation.Permutation_Forall;
        [apply Permutation.Permutation_sym, insert_by_key_perm |].
      constructor; [lia | exact Hy].
Qed.

Lemma fold_insert acc kl :
  Sorted.StronglySorted (fun a b : Z * string => fst a <= fst b) acc ->
  Sorted.StronglySorted (fun a b : Z * string => fst a <= fst b)
    (fold_left (fun acc x => insert_by_key x acc) kl acc) /\
  Permutation.Permutation
    (fold_left (fun acc x => insert_by_key x acc) kl acc) (kl ++ acc)%list.
Proof.
  revert acc. induction kl as [| x kl IH]; intros acc Hacc; cbn [fold_left].
  - split; [exact Hacc | apply Permutation.Permutation_refl].
  - destruct (IH (insert_by_key x acc) (insert_by_key_sorted x acc Hacc))
      as [Hs Hp].
    split; [exact Hs |].
    eapply Permutation.perm_trans; [exact Hp |].
    eapply Permutation.perm_trans;
      [apply Permutation.Permutation_app_head, insert_by_key_perm |].
    apply Permutation.Permutation_sym, Permutation.Permutation_middle.
Qed.

Lemma sorted_last {A} (R : A -> A -> Prop) l m :
  Sorted.StronglySorted R (l ++ [m])%list -> Forall (fun a => R a m) l.
Proof.
  induction l as [| a l IH]; intros H; [constructor |].
  cbn in H. inversion H as [| ? ? Hl Ha]; subst.
  constructor; [| apply IH, Hl].
  rewrite Forall_forall in Ha. apply Ha, in_or_app. right. left. reflexivity.
Qed.

(** X17.  [levels.sort(key=int)] puts the levels in the order of their
    numbers, not of their names: when it returns, the result is a
    rearrangement of the directory names, every name is an integer,
    the numbers do not decrease along the list, and the last name
    (the level whose sample tile is examined) has the greatest
    number. *)
Theorem levels_sorted_by_number l l' :
  sort_by_int l = Ok l' ->
  Permutation.Permutation l' l /\
  Sorted.StronglySorted
    (fun a b => exists ka kb, py_int a = Ok ka /\ py_int b = Ok kb /\ ka <= kb)
    l' /\
  forall m, last_item l' = Ok m ->
    In m l /\
    forall d, In d l ->
      exists kd km, py_int d = Ok kd /\ py_int m = Ok km /\ kd <= km.
Proof.
  unfold sort_by_int. intros H.
  destruct (keyed l) as [kl |e] eqn:Hk; [| discriminate H].
  cbn [result_bind] in H. injection H as <-.
  destruct (keyed_ok l kl Hk) as [Hm Hf].
  destruct (fold_insert [] kl (Sorted.SSorted_nil _)) as [Hs Hp].
  rewrite app_nil_r in Hp.
  set (sorted := fold_left (fun acc x => insert_by_key x acc) kl []) in *.
  assert (Hf' : Forall (fun kd => py_int (snd kd) = Ok (fst kd)) sorted)
    by (eapply Permutation.Permutation_Forall;
        [apply Permutation.Permutation_sym, Hp | exact Hf]).
  assert (Hperm : Permutation.Permutation (map snd sorted) l)
    by (rewrite <- Hm; apply Permutation.Permutation_map, Hp).
  assert (Hsorted : Sorted.StronglySorted
            (fun a b => exists ka kb,
                 py_int a = Ok ka /\ py_int b = Ok kb /\ ka <= kb)
            (map snd sorted)).
  { clear Hperm Hp. induction Hs as [| x s Hs IH Hx]; [constructor |].
    inversion Hf' as [| ? ? Hx' Hs']; subst.
    cbn [map]. constructor; [apply IH, Hs' |].
    rewrite Forall_forall in *. intros b Hb.
    apply in_map_iff in Hb. destruct Hb as (y & <- & Hy).
    exists (fst x), (fst y). repeat split; auto. }
  split; [exact Hperm |]. split; [exact Hsorted |].
  intros m Hlast. unfold last_item in Hlast.
  destruct (List.rev (map snd sorted)) as [| m' r] eqn:Hr; [discriminate |].
  injection Hlast as ->.
  assert (Heq : map snd sorted = (List.rev r ++ [m])%list).
  { rewrite <- (rev_involutive (map snd sorted)), Hr. reflexivity. }
  assert (Hin : In m (map snd sorted))
    by (rewrite Heq; apply in_or_app; right; left; reflexivity).
  split; [eapply Permutation.Permutation_in; eassumption |].
  intros d Hd.
  apply (Permutation.Permutation_in _ (Permutation.Permutation_sym Hperm)) in Hd.
  rewrite Heq in Hsorted, Hd.
  apply in_app_or in Hd. destruct Hd as [Hd | [<- | []]].
  - pose proof (sorted_last _ _ _ Hsorted) as Hall.
    rewrite Forall_forall in Hall. exact (Hall d Hd).
  - rewrite Heq in Hin.
    assert (Hk' : exists k, py_int m = Ok k).
    { rewrite <- Heq in Hin. apply in_map_iff in Hin.
      destruct Hin as (y & <- & Hy). rewrite Forall_forall in Hf'.
      exists (fst y). apply Hf', Hy. }
    destruct Hk' as [k Hk']. exists k, k. repeat split; auto. lia.
Qed.

Lemma levels_sorted_by_number_witness :
  sort_by_int ["10"; "9"; "0"; "2"] = Ok ["0"; "2"; "9"; "10"] /\
  exists kd km, py_int "9" = Ok kd /\ py_int "10" = Ok km /\ kd <= km.
Proof.
  split; [reflexivity |].
  apply (proj2 (proj2 (proj2 (levels_sorted_by_number ["10"; "9"; "0"; "2"]
                                ["0"; "2"; "9"; "10"] eq_refl)) "10" eq_refl)
           "9").
  right. left. reflexivity.
Defined.

(** ** The case of the format *)

Lemma lower_char_idempotent c : lower_char (lower_char c) = lower_char c.
Proof. destruct c as [[] [] [] [] [] [] [] []]; reflexivity. Qed.

Lemma lower_idempotent s : lower (lower s) = lower s.
Proof.
  induction s as [| c s IH]; [reflexivity |].
  cbn [lower]. rewrite lower_char_idempotent, IH. reflexivity.
Qed.

Lemma lower_char_not_upper c :
  ((65 <=? code (lower_char c)) && (code (lower_char c) <=? 90))%N = false.
Proof. destruct c as [[] [] [] [] [] [] [] []]; reflexivity. Qed.

(** X18.  The constructor lower-cases the format, so its case does not
    matter: the format of a generator holds no ASCII capital, a
    generator built with a format is the generator built with that
    format in lower case, and their runs are the same. *)
Theorem format_case_is_ignored image_path output_name ts ov fmt q :
  string_forallb (fun c => negb ((65 <=? code c) && (code c <=? 90))%N)
    (format (__init__ image_path output_name ts ov fmt q)) = true /\
  __init__ image_path output_name ts ov (lower fmt) q
    = __init__ image_path output_name ts ov fmt q /\
  forall env hist,
    generate env (__init__ image_path output_name ts ov (lower fmt) q) hist
      = generate env (__init__ image_path output_name ts ov fmt q) hist.
Proof.
  assert (H : __init__ image_path output_name ts ov (lower fmt) q
              = __init__ image_path output_name ts ov fmt q)
    by (unfold __init__; rewrite lower_idempotent; reflexivity).
  split; [| split].
  - cbn [__init__ format]. clear H.
    induction fmt as [| c s IH]; [reflexivity |].
    cbn [lower string_forallb]. rewrite lower_char_not_upper, IH. reflexivity.
  - exact H.
  - intros env hist. rewrite H. reflexivity.
Qed.

(** * The plan of a level, as [_generate_level] runs it *)

(** A level of the pyramid, generated where no call raises. *)
Lemma generate_level_run env img level w h g hist :
  0 <= level <= max_level g -> 0 < tile_size g -> 0 <= overlap g ->
  0 <= w -> 0 <= h -> fault_free env ->
  exists lw lh cols rows,
    (is_ceil lw w (2 ^ (max_level g - level)) /\
     is_ceil lh h (2 ^ (max_level g - level)) /\
     is_ceil cols lw (tile_size g) /\
     is_ceil rows lh (tile_size g)) /\
    value (_generate_level env img level w h g hist) = Ok (cols * rows) /\
    announced (events (_generate_level env img level w h g hist))
      = [(level, lw, lh, cols, rows)] /\
    resizes (events (_generate_level env img level w h g hist))
      = (if level =? max_level g then [] else [(lw, lh)]) /\
    saved_paths (events (_generate_level env img level w h g hist))
      = flat_map (fun row => map (fun col => tile_path g level col row)
                               (py_range cols))
          (py_range rows).
Proof.
  intros Hl Hts Hov Hw Hh Hff.
  assert (Hpow : 0 < 2 ^ (max_level g - level))
    by (apply Z.pow_pos_nonneg; lia).
  pose proof (planned_grid_ok g w h level Hl ltac:(lia)) as Hp.
  pose proof (neg_floor_is_ceil w _ Hpow) as Hcw.
  pose proof (neg_floor_is_ceil h _ Hpow) as Hch.
  set (lw := - (- w / 2 ^ (max_level g - level))) in *.
  set (lh := - (- h / 2 ^ (max_level g - level))) in *.
  assert (Hlw : 0 <= lw) by (unfold is_ceil in Hcw; nia).
  assert (Hlh : 0 <= lh) by (unfold is_ceil in Hch; nia).
  pose proof (neg_floor_is_ceil lw _ Hts) as Hcc.
  pose proof (neg_floor_is_ceil lh _ Hts) as Hcr.
  set (cols := - (- lw / tile_size g)) in *.
  set (rows := - (- lh / tile_size g)) in *.
  assert (Hgrid : forall col row,
             In col (py_range cols) -> In row (py_range rows) ->
             valid_box (clamp_box (crop_box g col row) lw lh) = true).
  { intros col row. apply grid_boxes_valid; try assumption; try lia;
      apply ceil_div_ok; lia. }
  pose proof (generate_level_returns env img level w h g hist _ _ _ _ Hff
                Hgrid Hp) as Hv.
  destruct (generate_level_ok _ _ _ _ _ _ _ _ Hv)
    as (_ & lw' & lh' & c' & r' & Hp' & _ & Ha & Hr & Hs & _).
  rewrite Hp in Hp'. injection Hp' as <- <- <- <-.
  exists lw, lh, cols, rows.
  split; [auto |]. split; [exact Hv |]. split; [exact Ha |].
  split; [exact Hr |].
  rewrite Hs. unfold level_paths. rewrite Hp. reflexivity.
Qed.

(** C2.  For a level [0 <= level <= max_level] (tile size positive,
    overlap and source dimensions not negative), in a run where no
    call raises, [_generate_level] returns, and the level it generates
    has the dimensions [ceil (w / 2 ^ (max_level - level))] and
    [ceil (h / 2 ^ (max_level - level))]: these are the dimensions it
    announces and the size to which it resizes the image (levels below
    [max_level]); its grid has [ceil (level_width / tile_size)] columns
    and [ceil (level_height / tile_size)] rows: it announces them,
    saves one tile for each column of each row, in this order, and
    returns their product.  The dimensions of a higher level, generated
    the same way, are not smaller.  Whatever the environment, a level
    that is announced is announced with this plan. *)
Theorem level_plan_is_ceiling env img g w h level hist :
  0 <= level <= max_level g -> 0 < tile_size g -> 0 <= overlap g ->
  0 <= w -> 0 <= h -> fault_free env ->
  exists lw lh cols rows,
    (is_ceil lw w (2 ^ (max_level g - level)) /\
     is_ceil lh h (2 ^ (max_level g - level)) /\
     is_ceil cols lw (tile_size g) /\
     is_ceil rows lh (tile_size g)) /\
    value (_generate_level env img level w h g hist) = Ok (cols * rows) /\
    announced (events (_generate_level env img level w h g hist))
      = [(level, lw, lh, cols, rows)] /\
    resizes (events (_generate_level env img level w h g hist))
      = (if level =? max_level g then [] else [(lw, lh)]) /\
    saved_paths (events (_generate_level env img level w h g hist))
      = flat_map (fun row => map (fun col => tile_path g level col row)
                               (py_range cols))
          (py_range rows) /\
    (forall level' hist',
        level <= level' <= max_level g ->
        exists lw' lh' cols' rows',
          announced (events (_generate_level env img level' w h g hist'))
            = [(level', lw', lh', cols', rows')] /\
          lw <= lw' /\ lh <= lh') /\
    (forall env' img' hist' lw' lh' cols' rows' total,
        In (Print (MsgLevel level lw' lh' cols' rows' total))
           (events (_generate_level env' img' level w h g hist')) ->
        (lw', lh', cols', rows') = (lw, lh, cols, rows) /\
        total = cols * rows).
Proof.
  intros Hl Hts Hov Hw Hh Hff.
  destruct (generate_level_run env img level w h g hist Hl Hts Hov Hw Hh Hff)
    as (lw & lh & cols & rows & Hceil & Hv & Ha & Hr & Hs).
  exists lw, lh, cols, rows.
  split; [exact Hceil |]. split; [exact Hv |]. split; [exact Ha |].
  split; [exact Hr |]. split; [exact Hs |].
  destruct Hceil as (Hcw & Hch & Hcc & Hcr).
  assert (Hpow : forall l, 0 <= l <= max_level g -> 0 < 2 ^ (max_level g - l))
    by (intros l Hl'; apply Z.pow_pos_nonneg; lia).
  split.
  - intros level' hist' Hl'.
    destruct (generate_level_run env img level' w h g hist' ltac:(lia)
                Hts Hov Hw Hh Hff)
      as (lw' & lh' & cols' & rows' & (Hcw' & Hch' & _) & _ & Ha' & _).
    exists lw', lh', cols', rows'. split; [exact Ha' |].
    split.
    + eapply is_ceil_mono;
        [apply (Hpow level'); lia | | exact Hw | exact Hcw | exact Hcw'].
      apply Z.pow_le_mono_r; lia.
    + eapply is_ceil_mono;
        [apply (Hpow level'); lia | | exact Hh | exact Hch | exact Hch'].
      apply Z.pow_le_mono_r; lia.
  - intros env' img' hist' lw' lh' cols' rows' total Hin.
    destruct (generate_level_announces env' img' level w h g hist')
      as [_ Hf].
    rewrite Forall_forall in Hf. specialize (Hf _ Hin _ _ _ _ _ _ eq_refl).
    destruct Hf as [Hp ->].
    rewrite (planned_grid_ok g w h level Hl) in Hp by lia.
    injection Hp as <- <- <- <-.
    assert (Hlw : lw = - (- w / 2 ^ (max_level g - level)))
      by (apply (is_ceil_unique _ _ w (2 ^ (max_level g - level)));
          [apply Hpow; lia | exact Hcw | apply neg_floor_is_ceil, Hpow; lia]).
    assert (Hlh : lh = - (- h / 2 ^ (max_level g - level)))
      by (apply (is_ceil_unique _ _ h (2 ^ (max_level g - level)));
          [apply Hpow; lia | exact Hch | apply neg_floor_is_ceil, Hpow; lia]).
    subst lw lh.
    assert (Hc : cols = - (- - (- w / 2 ^ (max_level g - level)) / tile_size g))
      by (apply (is_ceil_unique _ _
                   (- (- w / 2 ^ (max_level g - level))) (tile_size g));
          [exact Hts | exact Hcc | apply neg_floor_is_ceil, Hts]).
    assert (Hr' : rows = - (- - (- h / 2 ^ (max_level g - level)) / tile_size g))
      by (apply (is_ceil_unique _ _
                   (- (- h / 2 ^ (max_level g - level))) (tile_size g));
          [exact Hts | exact Hcr | apply neg_floor_is_ceil, Hts]).
    subst cols rows. split; reflexivity.
Qed.

Lemma level_plan_is_ceiling_witness :
  (let o := _generate_level (sample_env sample_image no_fault) sample_image
              9 300 200 (set_max_level sample_generator 9) [] in
   value o = Ok 2 /\
   announced (events o) = [(9, 300, 200, 2, 1)] /\
   resizes (events o) = [] /\
   saved_paths (events o) = ["out_files/9/0_0.jpeg"; "out_files/9/1_0.jpeg"]) /\
  (let o := _generate_level (sample_env sample_image no_fault) sample_image
              8 300 200 (set_max_level sample_generator 9) [] in
   value o = Ok 1 /\
   announced (events o) = [(8, 150, 100, 1, 1)] /\
   resizes (events o) = [(150, 100)] /\
   saved_paths (events o) = ["out_files/8/0_0.jpeg"]).
Proof.
  assert (Hff : fault_free (sample_env sample_image no_fault))
    by (intros h a; destruct a; reflexivity).
  split.
  - destruct (level_plan_is_ceiling (sample_env sample_image no_fault)
                sample_image (set_max_level sample_generator 9) 300 200 9 []
                ltac:(simpl; lia) ltac:(simpl; lia) ltac:(simpl; lia)
                ltac:(lia) ltac:(lia) Hff)
      as (lw & lh & cols & rows & _ & Hv & Ha & Hr & Hs & _).
    assert (Ha' : announced
                    (events (_generate_level (sample_env sample_image no_fault)
                               sample_image 9 300 200
                               (set_max_level sample_generator 9) []))
                  = [(9, 300, 200, 2, 1)]) by (vm_compute; reflexivity).
    rewrite Ha' in Ha. injection Ha as <- <- <- <-.
    cbv zeta. rewrite Hv, Ha', Hr, Hs. repeat split; reflexivity.
  - destruct (level_plan_is_ceiling (sample_env sample_image no_fault)
                sample_image (set_max_level sample_generator 9) 300 200 8 []
                ltac:(simpl; lia) ltac:(simpl; lia) ltac:(simpl; lia)
                ltac:(lia) ltac:(lia) Hff)
      as (lw & lh & cols & rows & _ & Hv & Ha & Hr & Hs & _).
    assert (Ha' : announced
                    (events (_generate_level (sample_env sample_image no_fault)
                               sample_image 8 300 200
                               (set_max_level sample_generator 9) []))
                  = [(8, 150, 100, 1, 1)]) by (vm_compute; reflexivity).
    rewrite Ha' in Ha. injection Ha as <- <- <- <-.
    cbv zeta. rewrite Hv, Ha', Hr, Hs. repeat split; reflexivity.
Defined.

(** * The tiles that the loops save *)

Lemma saved_app l1 l2 : saved (l1 ++ l2) = (saved l1 ++ saved l2)%list.
Proof. apply flat_map_app. Qed.

Lemma tile_step_saved env img dir lw lh total row processed col g h :
  fault_free env ->
  valid_box (clamp_box (crop_box g col row) lw lh) = true ->
  mode_in (mode img) ["RGB"; "L"] = true ->
  self_after (tile_step env img dir lw lh total row processed col g h) = g /\
  saved (events (tile_step env img dir lw lh total row processed col g h))
    = [(path_join dir (tile_filename g col row),
        cropped img (clamp_box (crop_box g col row) lw lh))].
Proof.
  intros Hff Hbox Hm. unfold tile_step.
  destruct (save_tile_fault_free env img dir col row lw lh g h Hff Hbox)
    as [Hv Hs].
  destruct (save_tile_ok _ _ _ _ _ _ _ _ _ _ Hv) as [Hg _].
  rewrite Hm, andb_false_r in Hs.
  step_by (_save_tile env img dir col row lw lh)
    (fun _ : unit =>
       (if ((processed + 1) mod 50 =? 0) || (processed + 1 =? total)
        then print (MsgProgress (processed + 1) total) else ret tt) ;;;
       ret (processed + 1)) g h (Ok tt) Hv.
  rewrite Hg, saved_app, Hs.
  destruct (((processed + 1) mod 50 =? 0) || (processed + 1 =? total));
    repeat step; split; reflexivity.
Qed.

(** The two loops of [_generate_level], where no call raises: one tile
    for each column of each row, cut at its clamped box. *)
Lemma tile_loop_saved env img dir lw lh cols rows g h :
  fault_free env ->
  (forall col row, In col (py_range cols) -> In row (py_range rows) ->
     valid_box (clamp_box (crop_box g col row) lw lh) = true) ->
  mode_in (mode img) ["RGB"; "L"] = true ->
  (exists n, value (tile_loop env img dir lw lh cols rows g h) = Ok n) /\
  saved (events (tile_loop env img dir lw lh cols rows g h))
    = flat_map (fun row =>
                  map (fun col =>
                         (path_join dir (tile_filename g col row),
                          cropped img (clamp_box (crop_box g col row) lw lh)))
                    (py_range cols))
        (py_range rows).
Proof.
  intros Hff Hgrid Hm.
  destruct (tile_loop_returns env img dir lw lh cols rows g h Hff Hgrid)
    as [n Hn].
  split; [eauto |].
  revert Hn. unfold tile_loop, saved. intros Hv.
  refine (proj2 (for_each_ok _ _ _ _ g _ _ _ _ Hv)).
  intros acc row h' b Hrow Hvrow.
  rewrite <- flat_map_singleton.
  refine (for_each_ok _ _ _ _ g _ _ _ _ Hvrow).
  intros acc' col h'' b' Hcol _.
  apply (tile_step_saved env img dir lw lh (cols * rows) row acc' col g h''
           Hff (Hgrid col row Hcol Hrow) Hm).
Qed.

Lemma generate_level_saved env img level w h g hist :
  0 <= level <= max_level g -> 0 < tile_size g -> 0 <= overlap g ->
  0 <= w -> 0 <= h -> fault_free env ->
  mode_in (mode img) ["RGB"; "L"] = true ->
  exists lw lh cols rows,
    planned_grid g w h level = Ok (lw, lh, cols, rows) /\
    value (_generate_level env img level w h g hist) = Ok (cols * rows) /\
    announced (events (_generate_level env img level w h g hist))
      = [(level, lw, lh, cols, rows)] /\
    saved (events (_generate_level env img level w h g hist))
      = flat_map (fun row =>
                    map (fun col =>
                           (tile_path g level col row,
                            cropped (if level =? max_level g then img
                                     else resized env img lw lh)
                              (clamp_box (crop_box g col row) lw lh)))
                      (py_range cols))
          (py_range rows).
Proof.
  intros Hl Hts Hov Hw Hh Hff Hm.
  assert (Hpow : 0 < 2 ^ (max_level g - level))
    by (apply Z.pow_pos_nonneg; lia).
  pose proof (planned_grid_ok g w h level Hl ltac:(lia)) as Hp.
  pose proof (neg_floor_is_ceil w _ Hpow) as Hcw.
  pose proof (neg_floor_is_ceil h _ Hpow) as Hch.
  set (lw := - (- w / 2 ^ (max_level g - level))) in *.
  set (lh := - (- h / 2 ^ (max_level g - level))) in *.
  assert (Hlw : 0 <= lw) by (unfold is_ceil in Hcw; nia).
  assert (Hlh : 0 <= lh) by (unfold is_ceil in Hch; nia).
  set (cols := - (- lw / tile_size g)) in *.
  set (rows := - (- lh / tile_size g)) in *.
  assert (Hgrid : forall col row,
             In col (py_range cols) -> In row (py_range rows) ->
             valid_box (clamp_box (crop_box g col row) lw lh) = true).
  { intros col row. apply grid_boxes_valid; try assumption; try lia;
      apply ceil_div_ok; lia. }
  pose proof (generate_level_returns env img level w h g hist _ _ _ _ Hff
                Hgrid Hp) as Hv.
  destruct (generate_level_ok _ _ _ _ _ _ _ _ Hv)
    as (_ & lw' & lh' & c' & r' & Hp' & _ & Ha & _).
  rewrite Hp in Hp'. injection Hp' as <- <- <- <-.
  exists lw, lh, cols, rows. split; [exact Hp |].
  split; [exact Hv |]. split; [exact Ha |]. clear Hv Ha.
  unfold _generate_level. walk.
  rewrite !ceil_quot_pow2 by lia. do 2 step.
  fold lw lh.
  rewrite !ceil_div_ok by lia. fold cols rows.
  destruct (level =? max_level g) eqn:Elevel.
  - do 4 step. walk; [rewrite Hff in Hfault; discriminate |].
    match goal with
    | |- context [bind (tile_loop ?e ?i ?d ?a ?b ?c ?r) ?k ?g ?h] =>
        destruct (tile_loop_saved e i d a b c r g h Hff Hgrid Hm)
          as [[n Hn] Hs];
        destruct (steady_tile_loop_class e i d a b c r g h) as [Hg _];
        step_by (tile_loop e i d a b c r) k g h (Ok n) Hn
    end.
    rewrite Hg. walk; step; rewrite !saved_app, Hs; cbn [saved flat_map app];
      rewrite ?app_nil_r; reflexivity.
  - walk; [rewrite Hff in Hfault; discriminate |].
    do 3 step. walk; [rewrite Hff in Hfault0; discriminate |].
    match goal with
    | |- context [bind (tile_loop ?e ?i ?d ?a ?b ?c ?r) ?k ?g ?h] =>
        destruct (tile_loop_saved e i d a b c r g h Hff Hgrid Hm)
          as [[n Hn] Hs];
        destruct (steady_tile_loop_class e i d a b c r g h) as [Hg _];
        step_by (tile_loop e i d a b c r) k g h (Ok n) Hn
    end.
    rewrite Hg. walk; step; rewrite !saved_app, Hs; cbn [saved flat_map app];
      rewrite ?app_nil_r; reflexivity.
Qed.

(** X4.  The tiles of a level cover it.  For a level
    [0 <= level <= max_level], a positive tile size and an overlap that
    is not negative, on a working image that JPEG can take and where
    no call raises, [_generate_level] runs to the end, and for every
    pixel [(x, y)] of the level that it announces it has saved, under
    the name of the tile [(x // tile_size, y // tile_size)] of that
    level, the level image (the working image at [max_level], its
    resizing to the size of the level below) cropped to a rectangle
    that holds [(x, y)]: the tile holds that pixel of the level
    image. *)
Theorem tiles_cover_level env img g w h level hist :
  0 <= level <= max_level g -> 0 < tile_size g -> 0 <= overlap g ->
  0 <= w -> 0 <= h ->
  mode_in (mode img) ["RGB"; "L"] = true ->
  fault_free env ->
  exists lw lh cols rows,
    value (_generate_level env img level w h g hist) = Ok (cols * rows) /\
    announced (events (_generate_level env img level w h g hist))
      = [(level, lw, lh, cols, rows)] /\
    forall x y,
      0 <= x < lw -> 0 <= y < lh ->
      exists x1 y1 x2 y2,
        In (tile_path g level (x / tile_size g) (y / tile_size g),
            cropped (if level =? max_level g then img
                     else resized env img lw lh) (x1, y1, x2, y2))
           (saved (events (_generate_level env img level w h g hist))) /\
        x1 <= x < x2 /\ y1 <= y < y2 /\
        data (cropped (if level =? max_level g then img
                       else resized env img lw lh) (x1, y1, x2, y2))
          (x - x1) (y - y1)
          = data (if level =? max_level g then img
                  else resized env img lw lh) x y.
Proof.
  intros Hl Hts Hov Hw Hh Hm Hff.
  destruct (generate_level_saved env img level w h g hist Hl Hts Hov Hw Hh
              Hff Hm)
    as (lw & lh & cols & rows & Hp & Hv & Ha & Hs).
  exists lw, lh, cols, rows.
  split; [exact Hv |]. split; [exact Ha |].
  intros x y Hx Hy.
  rewrite planned_grid_ok in Hp by lia.
  injection Hp as Hlw Hlh Hcols Hrows.
  rewrite Hlw in Hcols. rewrite Hlh in Hrows.
  pose proof (neg_floor_is_ceil lw _ Hts) as Hcw.
  pose proof (neg_floor_is_ceil lh _ Hts) as Hch.
  unfold is_ceil in Hcw, Hch. rewrite Hcols in Hcw. rewrite Hrows in Hch.
  pose proof (Z.mul_div_le x _ Hts) as Hx1.
  pose proof (Z.mul_succ_div_gt x _ Hts) as Hx2.
  pose proof (Z.mul_div_le y _ Hts) as Hy1.
  pose proof (Z.mul_succ_div_gt y _ Hts) as Hy2.
  assert (Hqx : 0 <= x / tile_size g) by (apply Z.div_pos; lia).
  assert (Hqy : 0 <= y / tile_size g) by (apply Z.div_pos; lia).
  assert (Hcol : In (x / tile_size g) (py_range cols))
    by (apply py_range_In; split; [exact Hqx | nia]).
  assert (Hrow : In (y / tile_size g) (py_range rows))
    by (apply py_range_In; split; [exact Hqy | nia]).
  exists (Z.max 0 (x / tile_size g * tile_size g - overlap g)),
    (Z.max 0 (y / tile_size g * tile_size g - overlap g)),
    (Z.min lw (x / tile_size g * tile_size g + tile_size g + overlap g)),
    (Z.min lh (y / tile_size g * tile_size g + tile_size g + overlap g)).
  split.
  - rewrite Hs. apply in_flat_map. exists (y / tile_size g).
    split; [exact Hrow |].
    apply in_map_iff. exists (x / tile_size g). split; [reflexivity | exact Hcol].
  - split; [lia |]. split; [lia |].
    cbn [cropped data]. f_equal; lia.
Qed.

Lemma tiles_cover_level_witness :
  let o := _generate_level (sample_env sample_image no_fault) sample_image
             9 300 200 (set_max_level sample_generator 9) [] in
  value o = Ok 2 /\
  exists x1 y1 x2 y2,
    In ("out_files/9/1_0.jpeg", cropped sample_image (x1, y1, x2, y2))
       (saved (events o)) /\
    x1 <= 299 < x2 /\ y1 <= 199 < y2 /\
    data (cropped sample_image (x1, y1, x2, y2)) (299 - x1) (199 - y1)
      = data sample_image 299 199.
Proof.
  destruct (tiles_cover_level (sample_env sample_image no_fault) sample_image
              (set_max_level sample_generator 9) 300 200 9 []
              ltac:(simpl; lia) ltac:(simpl; lia) ltac:(simpl; lia)
              ltac:(lia) ltac:(lia) eq_refl
              (fun _ a => match a with
                          | SaveTile _ _ _ => eq_refl
                          | _ => eq_refl
                          end))
    as (lw & lh & cols & rows & Hv & Ha & Hcover).
  assert (Ha' : announced
                  (events (_generate_level (sample_env sample_image no_fault)
                             sample_image 9 300 200
                             (set_max_level sample_generator 9) []))
                = [(9, 300, 200, 2, 1)]) by (vm_compute; reflexivity).
  rewrite Ha' in Ha. injection Ha as <- <- <- <-.
  cbv zeta. split; [exact Hv |].
  exact (Hcover 299 199 ltac:(lia) ltac:(lia)).
Defined.

(** * The descriptor on disk *)







Lemma stale_descriptor_after_failed_rerun :
  let run1 := generate (sample_env sample_image no_fault) sample_generator [] in
  let d1 := disk_after empty_disk (events run1) in
  let run2 := generate
                (sample_env sample_image
                   (fault_at "out_files/9/1_0.jpeg" MemoryError))
                sample_generator (events run1) in
  value run1 = Ok true /\
  d1 "out.dzi" = Holds (dzi_content "jpeg" 1 256 200 300 "out_files") /\
  value run2 = Raise MemoryError /\
  failed_tiles (events run2) = ["out_files/9/1_0.jpeg"] /\
  disk_after d1 (events run2) (dzi_file sample_generator)
    = Holds (dzi_content "jpeg" 1 256 200 300 "out_files") /\
  ~ no_descriptor_with_failed_tile.
Proof.
  cbv zeta.
  assert (H1 : value (generate (sample_env sample_image no_fault)
                        sample_generator []) = Ok true)
    by (vm_compute; reflexivity).
  assert (H2 : disk_after empty_disk
                 (events (generate (sample_env sample_image no_fault)
                            sample_generator [])) "out.dzi"
               = Holds (dzi_content "jpeg" 1 256 200 300 "out_files"))
    by (vm_compute; reflexivity).
  assert (H3 : value (generate
                        (sample_env sample_image
                           (fault_at "out_files/9/1_0.jpeg" MemoryError))
                        sample_generator
                        (events (generate (sample_env sample_image no_fault)
                                   sample_generator []))) = Raise MemoryError)
    by (vm_compute; reflexivity).
  assert (H4 : failed_tiles
                 (events (generate
                            (sample_env sample_image
                               (fault_at "out_files/9/1_0.jpeg" MemoryError))
                            sample_generator
                            (events (generate (sample_env sample_image no_fault)
                                       sample_generator []))))
               = ["out_files/9/1_0.jpeg"])
    by (vm_compute; reflexivity).
  assert (H5 : disk_after
                 (disk_after empty_disk
                    (events (generate (sample_env sample_image no_fault)
                               sample_generator [])))
                 (events (generate
                            (sample_env sample_image
                               (fault_at "out_files/9/1_0.jpeg" MemoryError))
                            sample_generator
                            (events (generate (sample_env sample_image no_fault)
                                       sample_generator []))))
                 (dzi_file sample_generator)
               = Holds (dzi_content "jpeg" 1 256 200 300 "out_files"))
    by (vm_compute; reflexivity).
  split; [exact H1 |]. split; [exact H2 |]. split; [exact H3 |].
  split; [exact H4 |]. split; [exact H5 |].
  intros Hclaim.
  specialize (Hclaim
                (sample_env sample_image
                   (fault_at "out_files/9/1_0.jpeg" MemoryError))
                sample_generator
                (events (generate (sample_env sample_image no_fault)
                           sample_generator []))
                (disk_after empty_disk
                   (events (generate (sample_env sample_image no_fault)
                              sample_generator [])))).
  rewrite H4, H5 in Hclaim.
  assert (Hd : Holds (dzi_content "jpeg" 1 256 200 300 "out_files") = Absent)
    by (apply Hclaim; discriminate).
  discriminate Hd.
Qed.



(** An opaque band value is kept by the blend with black. *)
Lemma div255_opaque r : 0 <= r <= 255 -> div255 (r * 255) = r.
Proof.
  intros Hr. unfold div255. cbv zeta.
  rewrite !Z.shiftr_div_pow2 by lia. change (2 ^ 8) with 256.
  Z.div_mod_to_equations. lia.
Qed.

(** Every tile that the run hands to the encoder, saved or not, is in
    the mode of the working image and cut from it or from a resampling
    of it. *)
Lemma tiles_after_normalising env img N R p t enc :
  Forall before_levels N ->
  Forall (after_normalising env img) R ->
  In (Did (SaveTile p t enc)) (N ++ R) \/
  (exists e, In (Failed (SaveTile p t enc) e) (N ++ R)) ->
  mode t = mode img /\ cut_from env img t.
Proof.
  intros HN HR Hin.
  rewrite Forall_forall in HN. rewrite Forall_forall in HR.
  destruct Hin as [Hin | [e Hin]]; apply in_app_or in Hin;
    destruct Hin as [Hin | Hin].
  - destruct (HN _ Hin) as [Hl _]. discriminate Hl.
  - apply (proj2 (HR _ Hin) p t enc). left. reflexivity.
  - destruct (HN _ Hin) as [Hl _]. discriminate Hl.
  - apply (proj2 (HR _ Hin) p t enc). right. exists e. reflexivity.
Qed.

(** The record of a run on an image that opens: what comes before the
    levels, then the work on the levels. *)
Lemma generate_normalises_first env g hist img :
  image_open env (image_path g) = Ok img ->
  exists N R,
    events (generate env g hist) = (N ++ R)%list /\
    Forall before_levels N /\
    conversions N = normalising_call img /\
    Forall (after_normalising env (normalised env img)) R.
Proof.
  intros Ho.
  destruct (generate_cases env g hist)
    as [(e & Ho' & _) | (img' & hi & Ho' & Hv & Hs & He)];
    [congruence |].
  assert (img' = img) by congruence. subst img'.
  destruct (generate_opened_cases env img g hi) as (hn & hl & Hrun).
  destruct (normalise_run env img g hn) as (_ & Hnb & Hnc & _).
  pose proof (level_loop_work env (normalised env img) (fst (size img))
                (snd (size img))
                (set_max_level g
                   (Z.log2_up (Z.max (fst (size img)) (snd (size img)))))
                hl (normalised_mode env img)) as Hlw.
  apply level_work_after_normalising in Hlw.
  assert (HN : Forall before_levels
                 (intro_prints g ++ opening_prints img
                    ++ events (normalise env img g hn))%list).
  { repeat (apply Forall_app; split); try exact Hnb;
      repeat constructor. }
  assert (HC : conversions
                 (intro_prints g ++ opening_prints img
                    ++ events (normalise env img g hn))%list
               = normalising_call img).
  { rewrite !conversions_app, Hnc. reflexivity. }
  exists (intro_prints g ++ opening_prints img
            ++ events (normalise env img g hn))%list.
  rewrite He.
  destruct Hrun as [e Hn Hvo Hso Heo | Hn Hle Hvo Hso Heo
                   | e Hn Hlt Hf Hvo Hso Heo | e Hn Hlt Hl Hvo Hso Heo
                   | total e Hn Hlt Hl Hf Hvo Hso Heo
                   | total Hn Hlt Hl Hvo Hso Heo]; rewrite Heo.
  1, 2: exists []; rewrite app_nil_r;
    split; [reflexivity | split; [exact HN | split; [exact HC | apply Forall_nil]]].
  all: eexists; (split; [rewrite <- !app_assoc; reflexivity |]);
    (split; [exact HN |]); (split; [exact HC |]);
    repeat (apply Forall_app; split);
    try exact Hlw; try apply plan_prints_after;
    try apply closing_prints_after; no_tiles.
Qed.

(** C8.  Whatever the run of [generate] on an image that opens: its
    record splits into a first part, which holds the one call of the
    colour normalisation (a conversion to RGB for a mode outside RGB,
    RGBA, L; a compositing on black for RGBA; nothing otherwise) and
    nothing of the work on levels and tiles, and a second part without
    any mode conversion.  Every tile that the run hands to the encoder
    is cut from the normalised image or from a resampling of it, and is
    in its mode, which is RGB or L.  The compositing of an RGBA image
    weights every colour band of a pixel with the alpha of that pixel
    (the image's own fourth band), against black: an opaque pixel keeps
    its colour, a fully transparent one becomes black.  So in every
    tile of the run, whose mode is RGB, a pixel is black where the
    source is fully transparent: pixel by pixel in a tile cut from the
    working image itself, and in a tile cut from a resampling wherever
    the footprint of the pixel is fully transparent in the source, for
    a resampling filter that gives black where its footprint is
    black. *)
Theorem colour_mode_normalised_once env g hist img :
  image_open env (image_path g) = Ok img ->
  (exists N R,
      events (generate env g hist) = (N ++ R)%list /\
      Forall before_levels N /\
      conversions N = normalising_call img /\
      Forall (after_normalising env (normalised env img)) R) /\
  conversions (events (generate env g hist)) = normalising_call img /\
  mode_in (mode (normalised env img)) ["RGB"; "L"] = true /\
  (forall p t enc,
      In (Did (SaveTile p t enc)) (events (generate env g hist)) \/
      (exists e, In (Failed (SaveTile p t enc) e)
                   (events (generate env g hist))) ->
      mode t = mode (normalised env img) /\
      mode_in (mode t) ["RGB"; "L"] = true /\
      cut_from env (normalised env img) t) /\
  (mode_in (mode img) ["RGB"; "RGBA"; "L"] = false ->
   normalising_call img = [Convert (mode img) "RGB"] /\
   normalised env img = converted env img "RGB") /\
  (mode img = "RGBA" ->
   normalising_call img = [Composite (size img)] /\
   normalised env img = composited img /\
   (forall x y r gr b a,
      data img x y = [r; gr; b; a] ->
      data (normalised env img) x y
        = [div255 (r * a); div255 (gr * a); div255 (b * a)] /\
      (a = 255 -> 0 <= r <= 255 -> 0 <= gr <= 255 -> 0 <= b <= 255 ->
       data (normalised env img) x y = [r; gr; b])) /\
   (forall x y,
      List.length (data img x y) = 4%nat -> nth 3 (data img x y) 0 = 0 ->
      data (normalised env img) x y = [0; 0; 0] /\
      forall x1 y1 x2 y2,
        data (cropped (normalised env img) (x1, y1, x2, y2)) (x - x1) (y - y1)
          = [0; 0; 0]) /\
   (forall p t enc,
      In (Did (SaveTile p t enc)) (events (generate env g hist)) \/
      (exists e, In (Failed (SaveTile p t enc) e)
                   (events (generate env g hist))) ->
      mode t = "RGB" /\
      exists x1 y1 x2 y2,
        (t = cropped (composited img) (x1, y1, x2, y2) /\
         forall u v,
           List.length (data img (x1 + u) (y1 + v)) = 4%nat ->
           nth 3 (data img (x1 + u) (y1 + v)) 0 = 0 ->
           data t u v = [0; 0; 0]) \/
        (exists w h,
            t = cropped (resized env (composited img) w h) (x1, y1, x2, y2) /\
            forall footprint,
              keeps_black env footprint ->
              forall u v,
                (forall sx sy,
                    footprint (composited img) w h (x1 + u) (y1 + v) sx sy ->
                    List.length (data img sx sy) = 4%nat /\
                    nth 3 (data img sx sy) 0 = 0) ->
                data t u v = [0; 0; 0]))) /\
  (mode_in (mode img) ["RGB"; "L"] = true ->
   normalising_call img = [] /\ normalised env img = img).
Proof.
  intros Ho.
  pose proof (generate_normalises_first env g hist img Ho) as Hsplit.
  assert (Htiles : forall p t enc,
      In (Did (SaveTile p t enc)) (events (generate env g hist)) \/
      (exists e, In (Failed (SaveTile p t enc) e)
                   (events (generate env g hist))) ->
      mode t = mode (normalised env img) /\
      cut_from env (normalised env img) t).
  { intros p t enc Hin. destruct Hsplit as (N & R & He & HN & _ & HR).
    rewrite He in Hin. exact (tiles_after_normalising _ _ _ _ _ _ _ HN HR Hin). }
  split; [exact Hsplit |].
  split.
  { destruct Hsplit as (N & R & -> & _ & HC & HR).
    rewrite conversions_app, HC, (after_normalising_quiet _ _ _ HR).
    apply app_nil_r. }
  split; [apply normalised_mode |].
  split.
  { intros p t enc Hin. destruct (Htiles p t enc Hin) as [Hm Hc].
    split; [exact Hm | split; [| exact Hc]].
    rewrite Hm. apply normalised_mode. }
  split; [| split].
  - intros H. unfold normalising_call, normalised. rewrite H.
    split; reflexivity.
  - intros H.
    assert (HW : normalised env img = composited img).
    { unfold normalised. rewrite H.
      change (mode_in "RGBA" ["RGB"; "RGBA"; "L"]) with true.
      change ("RGBA" =? "RGBA")%string with true. reflexivity. }
    split.
    { unfold normalising_call. rewrite H.
      change (mode_in "RGBA" ["RGB"; "RGBA"; "L"]) with true.
      change ("RGBA" =? "RGBA")%string with true. reflexivity. }
    split; [exact HW |].
    split; [| split].
    + intros x y r gr b a Hp. rewrite HW.
      rewrite (composited_pixel img x y r gr b a Hp).
      split; [reflexivity |].
      intros -> Hr Hg Hb.
      rewrite !div255_opaque by assumption. reflexivity.
    + intros x y Hlen Ha. rewrite HW.
      split; [apply composited_transparent; assumption |].
      intros x1 y1 x2 y2. cbn [cropped data].
      replace (x1 + (x - x1)) with x by lia.
      replace (y1 + (y - y1)) with y by lia.
      apply composited_transparent; assumption.
    + intros p t enc Hin. destruct (Htiles p t enc Hin) as [Hm Hc].
      rewrite HW in Hm, Hc. split; [exact Hm |].
      destruct Hc as [[[[x1 y1] x2] y2] [Ht | (w & h & Ht)]];
        exists x1, y1, x2, y2.
      * left. split; [exact Ht |]. intros u v Hlen Ha. rewrite Ht.
        cbn [cropped data]. apply composited_transparent; assumption.
      * right. exists w, h. split; [exact Ht |].
        intros footprint Hkb u v Hsrc. rewrite Ht.
        cbn [cropped resized data]. apply Hkb. intros sx sy Hfp.
        destruct (Hsrc sx sy Hfp) as [Hlen Ha].
        apply composited_transparent; assumption.
  - intros H. unfold normalising_call, normalised, mode_in in *.
    cbn [existsb] in *.
    destruct (String.eqb (mode img) "RGB") eqn:E1.
    + apply String.eqb_eq in E1. rewrite E1. split; reflexivity.
    + destruct (String.eqb (mode img) "L") eqn:E3; [| discriminate H].
      apply String.eqb_eq in E3. rewrite E3. split; reflexivity.
Qed.

Lemma colour_mode_normalised_once_witness :
  (let img := flat_image "RGBA" 300 200 [10; 20; 30; 0] in
   let env := sample_env img no_fault in
   conversions (events (generate env sample_generator []))
     = [Composite (300, 200)] /\
   mode_in (mode (normalised env img)) ["RGB"; "L"] = true /\
   data (normalised env img) 5 7 = [0; 0; 0] /\
   (mode (cropped (composited img) (0, 0, 257, 200)) = "RGB" /\
    data (cropped (composited img) (0, 0, 257, 200)) 5 7 = [0; 0; 0]) /\
   (mode (cropped (resized env (composited img) 150 100) (0, 0, 150, 100))
      = "RGB" /\
    data (cropped (resized env (composited img) 150 100) (0, 0, 150, 100)) 5 7
      = [0; 0; 0])) /\
  (let img := flat_image "RGBA" 300 200 [200; 100; 50; 255] in
   let env := sample_env img no_fault in
   data (normalised env img) 5 7 = [200; 100; 50]).
Proof.
  split.
  - intros img env.
    destruct (colour_mode_normalised_once env sample_generator [] img eq_refl)
      as (_ & Hc & Hm & _ & _ & Hrgba & _).
    destruct (Hrgba eq_refl) as (Hcall & _ & _ & Hpix & Htile).
    split; [rewrite Hc; exact Hcall |].
    split; [exact Hm |].
    split; [exact (proj1 (Hpix 5 7 eq_refl eq_refl)) |].
    split.
    + destruct (Htile "out_files/9/0_0.jpeg"
                  (cropped (composited img) (0, 0, 257, 200)) (JPEG 90))
        as (Hmode & x1 & y1 & x2 & y2 & [[_ Hb] | (w & h & _ & Hb)]).
      { left. vm_compute. find_in. }
      * split; [exact Hmode |]. apply Hb; reflexivity.
      * split; [exact Hmode |].
        apply (Hb (fun _ _ _ x y sx sy => sx = x /\ sy = y)).
        -- intros im w' h' x y Hsrc. apply (Hsrc x y). split; reflexivity.
        -- intros sx sy _. split; reflexivity.
    + destruct (Htile "out_files/8/0_0.jpeg"
                  (cropped (resized env (composited img) 150 100)
                     (0, 0, 150, 100)) (JPEG 90))
        as (Hmode & x1 & y1 & x2 & y2 & [[_ Hb] | (w & h & _ & Hb)]).
      { left. vm_compute. find_in. }
      * split; [exact Hmode |]. apply Hb; reflexivity.
      * split; [exact Hmode |].
        apply (Hb (fun _ _ _ x y sx sy => sx = x /\ sy = y)).
        -- intros im w' h' x y Hsrc. apply (Hsrc x y). split; reflexivity.
        -- intros sx sy _. split; reflexivity.
  - intros img env.
    destruct (colour_mode_normalised_once env sample_generator [] img eq_refl)
      as (_ & _ & _ & _ & _ & Hrgba & _).
    destruct (Hrgba eq_refl) as (_ & _ & Hblend & _).
    apply (proj2 (Hblend 5 7 200 100 50 255 eq_refl)); [reflexivity | lia ..].
Defined.
